(** * PEN web client (web/script.js): conversation and tool-trace rendering

    A shallow embedding of the browser-side chat client.  The script keeps a
    handful of page-wide variables ([isSending], [showToolOutput],
    [expandAllTools], [selectedModel]) and mutates the document; here the
    variables and the parts of the document the script touches are the fields
    of one explicit [State] value, every handler is a function on it, and
    each [await] splits an async function into the part that runs before the
    suspension and the part that runs when the promise settles.

    The embedding follows [V1.1/web/script.js]; the older [web/script.js] has
    the same control flow and differs in the label texts, in the absence of
    the model picker and sleep button, and in assigning [textContent] where
    the later file assigns [innerHTML = renderMarkup(content)].  Where the
    two differ in what a bubble or a card shows, the older form is given
    next to the newer one ([appendMessage_base], [status_label_base]). *)

From Stdlib Require Import Ascii String.
From Stdlib Require Decimal DecimalString DecimalFacts DecimalPos.
From Stdlib Require Import Bool Arith NArith ZArith QArith Qround Lia Lqa.
From Stdlib Require Import Permutation Sorted List.
Import ListNotations.

Local Close Scope Q_scope.
Local Open Scope nat_scope.

(* ===================================================================== *)
(** ** JavaScript strings *)
(* ===================================================================== *)

(** A JavaScript string is a sequence of UTF-16 code units. *)
Definition jsstring : Type := list N.

(** ASCII literals. *)
Definition js (s : string) : jsstring :=
  List.map N_of_ascii (list_ascii_of_string s).

(** [a === b] on strings. *)
Fixpoint streq (a b : jsstring) : bool :=
  match a, b with
  | [], [] => true
  | x :: a', y :: b' => N.eqb x y && streq a' b'
  | _, _ => false
  end.

(** Truthiness of a string: every string but the empty one. *)
Definition nonempty (s : jsstring) : bool :=
  match s with [] => false | _ :: _ => true end.

(** WhiteSpace and LineTerminator code units, the ones
    [String.prototype.trim] strips. *)
Definition is_trim_space (c : N) : bool :=
  ((9 <=? c) && (c <=? 13) || (c =? 32) || (c =? 160) || (c =? 5760)
   || (8192 <=? c) && (c <=? 8202) || (c =? 8232) || (c =? 8233)
   || (c =? 8239) || (c =? 8287) || (c =? 12288) || (c =? 65279))%N.

Fixpoint trim_start (s : jsstring) : jsstring :=
  match s with
  | c :: rest => if is_trim_space c then trim_start rest else s
  | [] => []
  end.

Definition trim (s : jsstring) : jsstring :=
  List.rev (trim_start (List.rev (trim_start s))).

(** [toLowerCase] on the code units A-Z, which is all it does to a string
    of ASCII code units.  Outside ASCII the Unicode mapping is not
    modelled, so the class token of a status with such letters is not the
    browser's.  The comparison with "completed" and "failed" is not
    affected: a string with a code unit outside ASCII never lowers to
    either (the two code points that lower to an ASCII letter give "k" and
    "i" followed by U+0307), and neither does the white space test of
    [classList.add], since no white space is the lower case of a letter. *)
Definition lower_unit (c : N) : N :=
  if ((65 <=? c) && (c <=? 90))%N then (c + 32)%N else c.

Definition toLowerCase (s : jsstring) : jsstring := List.map lower_unit s.

(** Decimal rendering of an integer.  [String(n)] and a template literal
    print an integral Number like this as long as its magnitude is at most
    2^53: up to there every integer is a Number of its own, and the
    shortest digits that identify it are its own digits.  Above, a Number
    stands for several integers and JavaScript prints the shortest of
    their numerals (2^63 is printed as 9223372036854776000), which this
    function does not follow. *)
Definition string_of_Z (z : Z) : jsstring :=
  js (DecimalString.NilEmpty.string_of_int (Z.to_int z)).

Definition max_exact_integer : Z := (2 ^ 53)%Z.

(** Reading a numeral: the value of a run of decimal digits, from the
    left. *)
Definition digit_value (c : N) : option Z :=
  if ((48 <=? c) && (c <=? 57))%N then Some (Z.of_N c - 48)%Z else None.

Fixpoint digits_value (acc : Z) (s : jsstring) : option Z :=
  match s with
  | [] => Some acc
  | c :: rest =>
      match digit_value c with
      | Some d => digits_value (10 * acc + d)%Z rest
      | None => None
      end
  end.

(** [s] is the numeral of the natural number [n]: digits only, at least
    one, no leading zero unless it is "0", and of value [n]. *)
Definition unsigned_numeral (s : jsstring) (n : Z) : bool :=
  match s with
  | [] => false
  | c :: rest =>
      (negb (N.eqb c 48) || negb (nonempty rest))
      && match digits_value 0 s with
         | Some v => Z.eqb v n
         | None => false
         end
  end.

(** [s] is the numeral of the integer [n]: a minus sign for a negative
    number, then the numeral of its magnitude. *)
Definition decimal_numeral (s : jsstring) (n : Z) : bool :=
  match s with
  | [] => false
  | c :: rest =>
      if N.eqb c 45 then Z.ltb n 0 && unsigned_numeral rest (- n)
      else Z.leb 0 n && unsigned_numeral s n
  end.

(** The middle dot of [" · "], U+00B7. *)
Definition middle_dot : N := 183%N.

(** [parts.join(sep)]. *)
Fixpoint join (sep : jsstring) (parts : list jsstring) : jsstring :=
  match parts with
  | [] => []
  | [p] => p
  | p :: rest => p ++ sep ++ join sep rest
  end.

(* ===================================================================== *)
(** ** renderMarkup *)
(* ===================================================================== *)

Module Markup.

Definition amp : N := 38%N.
Definition lt : N := 60%N.
Definition gt : N := 62%N.
Definition backtick : N := 96%N.
Definition star : N := 42%N.
Definition underscore : N := 95%N.
Definition CR : N := 13%N.
Definition LF : N := 10%N.
Definition NUL : N := 0%N.

(** [s.replace(/c/g, rep)] for a one-character pattern. *)
Definition replace_char (c : N) (rep : jsstring) (s : jsstring) : jsstring :=
  flat_map (fun x => if N.eqb x c then rep else [x]) s.

(** The three chained replacements that open [renderMarkup]. *)
Definition escapeHtml (text : jsstring) : jsstring :=
  replace_char gt (js "&gt;")
    (replace_char lt (js "&lt;")
       (replace_char amp (js "&amp;") text)).

(** One attempt of a pattern at the head of the input: the text of capture
    group 1 and the number of code units the whole match spans. *)
Definition matcher : Type := jsstring -> option (jsstring * nat).

(** [s.replace(re, template)] for a global pattern that never matches the
    empty string: scan from the left; where the pattern matches, emit the
    template and resume after the match; elsewhere copy one code unit.
    [skip] counts the code units of the current match still to be passed
    over. *)
Fixpoint replace_from (m : matcher) (template : jsstring -> jsstring)
         (skip : nat) (s : jsstring) : jsstring :=
  match s with
  | [] => []
  | c :: rest =>
      match skip with
      | S k => replace_from m template k rest
      | O =>
          match m s with
          | Some (g, n) => template g ++ replace_from m template (pred n) rest
          | None => c :: replace_from m template 0 rest
          end
      end
  end.

Definition replace_global (m : matcher) (template : jsstring -> jsstring)
           (s : jsstring) : jsstring :=
  replace_from m template 0 s.

(** The longest prefix of code units other than [d], and what follows. *)
Fixpoint span_not (d : N) (s : jsstring) : jsstring * jsstring :=
  match s with
  | [] => ([], [])
  | c :: rest =>
      if N.eqb c d then ([], s)
      else let (run, after) := span_not d rest in (c :: run, after)
  end.

(** [/`([^`]+)`/]: a backtick, the greedy run of non-backticks, a backtick.
    The run is maximal, so a shorter run is never followed by a backtick
    and backtracking cannot succeed where the maximal run fails. *)
Definition match_code : matcher := fun s =>
  match s with
  | c :: rest =>
      if N.eqb c backtick then
        match span_not backtick rest with
        | (x :: run, _ :: _) => Some (x :: run, length run + 3)
        | _ => None
        end
      else None
  | [] => None
  end.

(** [.] matches every code unit but the four line terminators. *)
Definition is_line_terminator (c : N) : bool :=
  ((c =? 10) || (c =? 13) || (c =? 8232) || (c =? 8233))%N.

Fixpoint starts_with (p s : jsstring) : bool :=
  match p, s with
  | [], _ => true
  | x :: p', y :: s' => N.eqb x y && starts_with p' s'
  | _ :: _, [] => false
  end.

(** [(.+?)] followed by the literal [closer]: the shortest non-empty run
    of [.] code units after which [closer] stands. *)
Fixpoint dot_plus_lazy (closer : jsstring) (s : jsstring) : option jsstring :=
  match s with
  | [] => None
  | c :: rest =>
      if is_line_terminator c then None
      else if starts_with closer rest then Some [c]
      else option_map (cons c) (dot_plus_lazy closer rest)
  end.

(** A pattern [opener (.+?) closer] with literal opener and closer. *)
Definition match_delimited (opener closer : jsstring) : matcher := fun s =>
  if starts_with opener s then
    match dot_plus_lazy closer (skipn (length opener) s) with
    | Some g => Some (g, length opener + length g + length closer)
    | None => None
    end
  else None.

(** [/\*\*(.+?)\*\*/] *)
Definition match_bold : matcher := match_delimited [star; star] [star; star].

(** [/_(.+?)_/] *)
Definition match_italic : matcher := match_delimited [underscore] [underscore].

(** [/\r?\n/]; there is no capture group. *)
Definition match_newline : matcher := fun s =>
  match s with
  | c :: rest =>
      if N.eqb c LF then Some ([], 1)
      else if N.eqb c CR then
        match rest with
        | d :: _ => if N.eqb d LF then Some ([], 2) else None
        | [] => None
        end
      else None
  | [] => None
  end.

Definition code_template (g : jsstring) : jsstring :=
  js "<code>" ++ g ++ js "</code>".
Definition bold_template (g : jsstring) : jsstring :=
  js "<b>" ++ g ++ js "</b>".
Definition italic_template (g : jsstring) : jsstring :=
  js "<i>" ++ g ++ js "</i>".
Definition br_template (_ : jsstring) : jsstring := js "<br>".

(** The four substitutions after the escaping, in source order. *)
Definition inlineFormat (safe : jsstring) : jsstring :=
  replace_global match_newline br_template
    (replace_global match_italic italic_template
       (replace_global match_bold bold_template
          (replace_global match_code code_template safe))).

(** [renderMarkup(text)] on a string argument. *)
Definition renderMarkup (text : jsstring) : jsstring :=
  if nonempty text then inlineFormat (escapeHtml text) else [].

(** The elements the renderer itself writes. *)
Definition renderer_tags : list jsstring :=
  [js "<code>"; js "</code>"; js "<b>"; js "</b>";
   js "<i>"; js "</i>"; js "<br>"].

(** Markup in which every [<] and every [>] belongs to one of the
    renderer's own tags: parsed as HTML, such a string holds no element
    other than [code], [b], [i] and [br], and no attribute. *)
Inductive only_renderer_tags : jsstring -> Prop :=
| ort_nil : only_renderer_tags []
| ort_text c s :
    c <> lt -> c <> gt -> only_renderer_tags s -> only_renderer_tags (c :: s)
| ort_tag t s :
    In t renderer_tags -> only_renderer_tags s -> only_renderer_tags (t ++ s).

(** The input stream of the HTML parser: a carriage return, with the line
    feed after it if there is one, is read as one line feed.  [after_cr]
    tells that the code unit before was a carriage return. *)
Fixpoint normalize_newlines_from (after_cr : bool) (s : jsstring) : jsstring :=
  match s with
  | [] => []
  | c :: rest =>
      if N.eqb c CR then LF :: normalize_newlines_from true rest
      else if N.eqb c LF && after_cr then normalize_newlines_from false rest
      else c :: normalize_newlines_from false rest
  end.

Definition normalize_newlines (s : jsstring) : jsstring :=
  normalize_newlines_from false s.

(** Character data in the body: the tree builder ignores U+0000. *)
Definition drop_nul (s : jsstring) : jsstring :=
  filter (fun c => negb (N.eqb c NUL)) s.

(** What is left of a text that goes through the parser as character
    data: the line ends are normalized and U+0000 is gone, every other code
    unit is kept. *)
Definition character_data (text : jsstring) : jsstring :=
  drop_nul (normalize_newlines text).

(** The tokenizer on character data that holds no character reference but
    the three the escaping writes: these are decoded. *)
Fixpoint decode_text (fuel : nat) (s : jsstring) : jsstring :=
  match fuel with
  | O => s
  | S f =>
      match s with
      | [] => []
      | c :: rest =>
          if starts_with (js "&amp;") s then amp :: decode_text f (skipn 4 rest)
          else if starts_with (js "&lt;") s then lt :: decode_text f (skipn 3 rest)
          else if starts_with (js "&gt;") s then gt :: decode_text f (skipn 3 rest)
          else c :: decode_text f rest
      end
  end.

(** The text of the node that [innerHTML = html] creates, for [html]
    without tags and with no character reference but those three: the
    input stream is normalized, the references are decoded, and U+0000 is
    ignored when the characters are inserted. *)
Definition parsed_text (html : jsstring) : jsstring :=
  let stream := normalize_newlines html in
  drop_nul (decode_text (length stream) stream).

End Markup.

Import Markup.

(* ===================================================================== *)
(** ** Backend payloads *)
(* ===================================================================== *)

(** A value produced by [res.json()]. *)
#[warnings="-register-all"]
Inductive json : Type :=
| JNull
| JBool (b : bool)
| JNum (q : Q)
| JStr (s : jsstring)
| JArr (items : list json)
| JObj (fields : list (jsstring * json)).


Definition truthy_json (v : option json) : bool :=
  match v with
  | None | Some JNull => false
  | Some (JBool b) => b
  | Some (JNum q) => negb (Qeq_bool q 0)
  | Some (JStr s) => nonempty s
  | Some (JArr _) | Some (JObj _) => true
  end.

(** [a || b] where [b] is a string. *)
Definition or_str (a : option jsstring) (b : jsstring) : jsstring :=
  match a with Some (c :: s) => c :: s | _ => b end.

(** [a ?? b] *)
Definition nullish {A} (a b : option A) : option A :=
  match a with Some x => Some x | None => b end.

Definition nullish_json (a b : option json) : option json :=
  match a with
  | None | Some JNull => b
  | Some v => Some v
  end.

(** [Math.round]: the nearest integer, a tie going up. *)
Definition Math_round (d : Q) : Z := Qfloor (Qplus d (1 # 2)).

(** One tool invocation as the backend reports it, under either of its two
    naming schemes ([name]/[status]/[duration_ms]/[parameters]/[result] from
    the chat endpoint, [tool_name]/[tool_status]/[execution_time_ms]/
    [tool_input]/[tool_output] from the history endpoint). *)
Record ToolRecord : Type := {
  name : option jsstring;
  tool_name : option jsstring;
  tool : option jsstring;
  status : option jsstring;
  tool_status : option jsstring;
  error : option json;
  duration_ms : option Q;
  execution_time_ms : option Q;
  started_at : option jsstring;
  timestamp : option jsstring;
  parameters : option json;
  tool_input : option json;
  result : option json;
  tool_output : option json
}.

(** A record with no property at all, to build examples from. *)
Definition bare_tool : ToolRecord :=
  {| name := None; tool_name := None; tool := None; status := None;
     tool_status := None; error := None; duration_ms := None;
     execution_time_ms := None; started_at := None; timestamp := None;
     parameters := None; tool_input := None; result := None;
     tool_output := None |}.

(** An entry of [data.messages] in a chat response. *)
Record ChatMessage : Type := {
  cm_role : option jsstring;
  cm_content : option jsstring
}.

(** The body of a chat response. [None] for [messages] and [tools] is
    "not an array". *)
Record ChatResponse : Type := {
  cr_error : option jsstring;
  cr_messages : option (list ChatMessage);
  cr_reply : option jsstring;
  cr_tools : option (list ToolRecord)
}.

(** An entry of [data.messages] in a history response. *)
Record HistoryMessage : Type := {
  hm_role : option jsstring;
  hm_content : option jsstring;
  hm_timestamp : option jsstring
}.

Record HistoryResponse : Type := {
  hr_messages : option (list HistoryMessage);
  hr_tool_interactions : option (list ToolRecord)
}.

Record ModelEntry : Type := {
  me_id : jsstring;
  me_provider : jsstring;
  me_display_name : jsstring
}.

(** How an awaited [fetch] followed by [res.json()] ends.  Nothing happens
    between the two awaits except the [res.ok] test, so one settlement
    stands for both. *)
Inductive Settled (A : Type) : Type :=
| NetworkFailure (message : jsstring)   (* [fetch] rejects *)
| HttpFailure (code : Z)                (* [res.ok] is false *)
| ParseFailure (message : jsstring)     (* [res.json()] rejects *)
| Body (data : A).
Arguments NetworkFailure {A} message.
Arguments HttpFailure {A} code.
Arguments ParseFailure {A} message.
Arguments Body {A} data.

(** An outbound request, in the order issued. *)
Inductive Request : Type :=
| ChatRequest (show_tool_output : bool) (model : jsstring) (message : jsstring)
| HistoryRequest
| ResetRequest
| SleepRequest
| ModelsRequest.

(** A suspended continuation of the script. *)
Inductive Pending : Type :=
| StartupDelay       (* the 500 ms wait of [initializeApp] *)
| ModelsPending      (* [loadAvailableModels], followed by the history load *)
| HistoryPending     (* [loadChatHistory] *)
| ChatPending        (* [sendMessage] *)
| ResetPending       (* the reset handler's notification *)
| SleepPending       (* the sleep handler *)
| SleepReloadTimer.  (* the 1 s timer set after a successful sleep cycle *)

Definition is_chat (p : Pending) : bool :=
  match p with ChatPending => true | _ => false end.

Definition pending_eqb (a b : Pending) : bool :=
  match a, b with
  | StartupDelay, StartupDelay | ModelsPending, ModelsPending
  | HistoryPending, HistoryPending | ChatPending, ChatPending
  | ResetPending, ResetPending | SleepPending, SleepPending
  | SleepReloadTimer, SleepReloadTimer => true
  | _, _ => false
  end.

(** Take one occurrence of [p] out of the suspended continuations. *)
Fixpoint resume (p : Pending) (l : list Pending) : option (list Pending) :=
  match l with
  | [] => None
  | x :: rest =>
      if pending_eqb p x then Some rest
      else option_map (cons x) (resume p rest)
  end.

(* ===================================================================== *)
(** ** The document *)
(* ===================================================================== *)

(** [style.display] of an element the script shows and hides. *)
Inductive display : Type :=
| DisplayUnset    (* [""]: the style sheet decides *)
| DisplayNone
| DisplayBlock.

(** Which optional elements [initializeElements] found, and the message the
    browser puts in the exception [classList.add] raises for a bad token. *)
Record Page : Type := {
  has_welcomeMessage : bool;
  has_toolsBody : bool;
  has_toolsEmpty : bool;
  has_modelSelector : bool;
  token_error_message : jsstring -> jsstring
}.

(** [new Date().toISOString()] or the timestamp handed in. *)
Inductive TimeSource : Type :=
| Now
| At (timestamp : jsstring).

(** How the body of a bubble received its content. *)
Inductive BubbleBody : Type :=
| AsMarkup (html : jsstring)     (* [body.innerHTML = html] *)
| AsText (text : jsstring).      (* [body.textContent = text] *)

(** A message bubble as [appendMessage] builds it. *)
Record Bubble : Type := {
  bubble_role : jsstring;       (* the class is ["message " + role] *)
  bubble_avatar : jsstring;
  bubble_who : jsstring;
  bubble_time : TimeSource;
  bubble_body : BubbleBody;
  bubble_copy : jsstring        (* what the copy button writes *)
}.

(** A child of [#messagesContent]. *)
Inductive Node : Type :=
| WelcomeNode
| BubbleNode (b : Bubble)
| TypingNode.

(** The text of a detail block's [pre]. *)
Inductive PreText : Type :=
| Verbatim (s : jsstring)        (* the value is a string *)
| Stringified (v : json).        (* [JSON.stringify(v, null, 2)] *)

Record Card : Type := {
  card_name : jsstring;
  card_status_class : jsstring;
  card_status_label : jsstring;
  card_meta : option jsstring;       (* [None]: no metadata line appended *)
  card_details_display : display;
  card_details : list (jsstring * PreText)
}.

(** A child of [#toolsBody]. *)
Inductive PanelNode : Type :=
| EmptyNode
| CardNode (c : Card).

(** The script's top-level [let] variables. *)
Record Vars : Type := {
  isSending : bool;
  showToolOutput : bool;
  expandAllTools : bool;
  selectedModel : jsstring
}.

(** Conversation view. *)
Record Conversation : Type := {
  messagesContent : list Node;
  welcome_display : display
}.

(** Message input and send button. *)
Record Composer : Type := {
  input_value : jsstring;
  input_disabled : bool;
  send_disabled : bool;
  input_focused : bool
}.

(** Tool trace panel and its toggle. *)
Record ToolPanel : Type := {
  toolsBody : list PanelNode;
  toolsEmpty_display : display;
  toggle_active : bool;
  toggle_title : jsstring
}.

Record Net : Type := {
  requests : list Request;
  pending : list Pending
}.

Record State : Type := {
  page : Page;
  vars : Vars;
  conversation : Conversation;
  composer : Composer;
  panel : ToolPanel;
  sleep_busy : bool;      (* the sleep button is disabled and shows a spinner *)
  net : Net
}.

Definition set_vars (v : Vars) (s : State) : State :=
  {| page := page s; vars := v; conversation := conversation s;
     composer := composer s; panel := panel s; sleep_busy := sleep_busy s;
     net := net s |}.
Definition set_conversation (c : Conversation) (s : State) : State :=
  {| page := page s; vars := vars s; conversation := c;
     composer := composer s; panel := panel s; sleep_busy := sleep_busy s;
     net := net s |}.
Definition set_composer (c : Composer) (s : State) : State :=
  {| page := page s; vars := vars s; conversation := conversation s;
     composer := c; panel := panel s; sleep_busy := sleep_busy s;
     net := net s |}.
Definition set_panel (p : ToolPanel) (s : State) : State :=
  {| page := page s; vars := vars s; conversation := conversation s;
     composer := composer s; panel := p; sleep_busy := sleep_busy s;
     net := net s |}.
Definition set_sleep_busy (b : bool) (s : State) : State :=
  {| page := page s; vars := vars s; conversation := conversation s;
     composer := composer s; panel := panel s; sleep_busy := b;
     net := net s |}.
Definition set_net (n : Net) (s : State) : State :=
  {| page := page s; vars := vars s; conversation := conversation s;
     composer := composer s; panel := panel s; sleep_busy := sleep_busy s;
     net := n |}.

Definition set_isSending (b : bool) (s : State) : State :=
  set_vars {| isSending := b; showToolOutput := showToolOutput (vars s);
              expandAllTools := expandAllTools (vars s);
              selectedModel := selectedModel (vars s) |} s.
Definition set_selectedModel (m : jsstring) (s : State) : State :=
  set_vars {| isSending := isSending (vars s);
              showToolOutput := showToolOutput (vars s);
              expandAllTools := expandAllTools (vars s);
              selectedModel := m |} s.

(** Issue a request and leave its continuation suspended. *)
Definition fetch (r : Request) (k : Pending) (s : State) : State :=
  set_net {| requests := requests (net s) ++ [r];
             pending := pending (net s) ++ [k] |} s.

(** Outbound chat requests whose continuation has not run yet. *)
Definition chat_in_flight (s : State) : nat :=
  length (filter is_chat (pending (net s))).

(* ===================================================================== *)
(** ** Conversation view *)
(* ===================================================================== *)

Definition is_typing (n : Node) : bool :=
  match n with TypingNode => true | _ => false end.

(** How many nodes carry the id [typingIndicator]. *)
Definition typing_nodes (s : State) : nat :=
  length (filter is_typing (messagesContent (conversation s))).

Definition append_node (n : Node) (s : State) : State :=
  set_conversation
    {| messagesContent := messagesContent (conversation s) ++ [n];
       welcome_display := welcome_display (conversation s) |} s.

Definition set_welcome_display (d : display) (s : State) : State :=
  set_conversation
    {| messagesContent := messagesContent (conversation s);
       welcome_display := d |} s.

(** The bubble [appendMessage] builds. *)
Definition bubble_of (role content : jsstring) (time : TimeSource) : Bubble :=
  {| bubble_role := role;
     bubble_avatar :=
       if streq role (js "user") then js "S"
       else if streq role (js "assistant") then js "P" else js "!";
     bubble_who :=
       if streq role (js "user") then js "You"
       else if streq role (js "assistant") then js "PEN" else js "System";
     bubble_time := time;
     bubble_body := AsMarkup (renderMarkup content);
     bubble_copy := content |}.

(** [appendMessage(role, content, {timestamp})].  The scroll position is
    not part of the state. *)
Definition appendMessage (role content : jsstring) (time : TimeSource)
           (s : State) : State :=
  let s1 :=
    if streq role (js "user") && has_welcomeMessage (page s)
    then set_welcome_display DisplayNone s else s in
  append_node (BubbleNode (bubble_of role content time)) s1.

(** The bubble of the older [web/script.js]: the names are "Sen" and
    "Sistem", and the body takes the content as text. *)
Definition bubble_of_base (role content : jsstring) (time : TimeSource)
  : Bubble :=
  {| bubble_role := role;
     bubble_avatar :=
       if streq role (js "user") then js "S"
       else if streq role (js "assistant") then js "P" else js "!";
     bubble_who :=
       if streq role (js "user") then js "Sen"
       else if streq role (js "assistant") then js "PEN" else js "Sistem";
     bubble_time := time;
     bubble_body := AsText content;
     bubble_copy := content |}.

(** [appendMessage] of the older [web/script.js]. *)
Definition appendMessage_base (role content : jsstring) (time : TimeSource)
           (s : State) : State :=
  let s1 :=
    if streq role (js "user") && has_welcomeMessage (page s)
    then set_welcome_display DisplayNone s else s in
  append_node (BubbleNode (bubble_of_base role content time)) s1.

(** [showTyping()] *)
Definition showTyping (s : State) : State :=
  if existsb is_typing (messagesContent (conversation s)) then s
  else append_node TypingNode s.

(** [el.remove()] for the first node with the id. *)
Fixpoint remove_typing (l : list Node) : list Node :=
  match l with
  | [] => []
  | TypingNode :: rest => rest
  | n :: rest => n :: remove_typing rest
  end.

(** [hideTyping()] *)
Definition hideTyping (s : State) : State :=
  if existsb is_typing (messagesContent (conversation s)) then
    set_conversation
      {| messagesContent := remove_typing (messagesContent (conversation s));
         welcome_display := welcome_display (conversation s) |} s
  else s.

(** [resetChatUI()] *)
Definition resetChatUI (s : State) : State :=
  let s1 :=
    set_conversation
      (if has_welcomeMessage (page s)
       then {| messagesContent := [WelcomeNode];
               welcome_display := DisplayUnset |}
       else {| messagesContent := [];
               welcome_display := welcome_display (conversation s) |}) s in
  if has_toolsBody (page s1) then
    set_panel
      (if has_toolsEmpty (page s1)
       then {| toolsBody := [EmptyNode];
               toolsEmpty_display := DisplayBlock;
               toggle_active := toggle_active (panel s1);
               toggle_title := toggle_title (panel s1) |}
       else {| toolsBody := [];
               toolsEmpty_display := toolsEmpty_display (panel s1);
               toggle_active := toggle_active (panel s1);
               toggle_title := toggle_title (panel s1) |}) s1
  else s1.

(* ===================================================================== *)
(** ** Tool trace panel *)
(* ===================================================================== *)

(** How a block of statements ends. An exception is known to its handlers
    by [err.message] alone. *)
Inductive Completion : Type :=
| Normal
| Throw (message : jsstring).

(** [(tool.status || tool.tool_status ||
      (tool.error ? "failed" : "completed") || "").toLowerCase()] *)
Definition tool_st (t : ToolRecord) : jsstring :=
  toLowerCase
    (or_str (status t)
       (or_str (tool_status t)
          (or_str (Some (if truthy_json (error t)
                         then js "failed" else js "completed"))
                  (js "")))).

(** [st === "completed" ? "Completed" : st === "failed" ? "Failed" : "Running"] *)
Definition status_label (st : jsstring) : jsstring :=
  if streq st (js "completed") then js "Completed"
  else if streq st (js "failed") then js "Failed"
  else js "Running".

(** The same choice with the texts of the older [web/script.js]:
    "Tamamland\u0131", "Hata", "\u00C7al\u0131\u015F\u0131yor". *)
Definition status_label_base (st : jsstring) : jsstring :=
  if streq st (js "completed") then js "Tamamland" ++ [305%N]
  else if streq st (js "failed") then js "Hata"
  else [199%N] ++ js "al" ++ [305%N; 351%N; 305%N] ++ js "yor".

(** [st || "running"], the token handed to [classList.add]. *)
Definition status_token (st : jsstring) : jsstring :=
  or_str (Some st) (js "running").

(** [classList.add] raises on a token that holds ASCII whitespace. *)
Definition is_ascii_whitespace (c : N) : bool :=
  ((c =? 9) || (c =? 10) || (c =? 12) || (c =? 13) || (c =? 32))%N.

Definition valid_token (token : jsstring) : bool :=
  nonempty token && negb (existsb is_ascii_whitespace token).

(** [tool.name || tool.tool_name || tool.tool || "tool"] *)
Definition tool_display_name (t : ToolRecord) : jsstring :=
  or_str (name t) (or_str (tool_name t) (or_str (tool t) (js "tool"))).

(** The [parts] array of the metadata line. *)
Definition meta_parts (t : ToolRecord) : list jsstring :=
  let duration := nullish (duration_ms t) (execution_time_ms t) in
  (match duration with
   | Some d => [string_of_Z (Math_round d) ++ js " ms"]
   | None => []
   end)
  ++
  (match started_at t with
   | Some (c :: r) => [c :: r]
   | _ =>
       match timestamp t with
       | Some (c :: r) => [c :: r]
       | _ => []
       end
   end).

Definition meta_separator : jsstring := [32%N; middle_dot; 32%N].

(** The metadata line, when one is appended to the card. *)
Definition tool_meta (t : ToolRecord) : option jsstring :=
  match meta_parts t with
  | [] => None
  | parts => Some (join meta_separator parts)
  end.

(** One detail block, when the value is not [null]. *)
Definition detail_block (title : jsstring) (v : option json)
  : list (jsstring * PreText) :=
  match v with
  | None | Some JNull => []
  | Some (JStr s) => [(title, Verbatim s)]
  | Some v => [(title, Stringified v)]
  end.

(** The body of the [forEach] callback up to the final [appendChild]: the
    card, or the exception of [classList.add]. *)
Definition renderTool (p : Page) (expandAll : bool) (t : ToolRecord)
  : Card + jsstring :=
  let st := tool_st t in
  if valid_token (status_token st) then
    inl {| card_name := tool_display_name t;
           card_status_class := status_token st;
           card_status_label := status_label st;
           card_meta := tool_meta t;
           card_details_display :=
             if expandAll then DisplayBlock else DisplayNone;
           card_details :=
             detail_block (js "Parameters")
               (nullish_json (parameters t) (tool_input t))
             ++ detail_block (js "Result")
                  (nullish_json (result t) (tool_output t)) |}
  else inr (token_error_message p (status_token st)).

Definition set_toolsBody (l : list PanelNode) (s : State) : State :=
  set_panel {| toolsBody := l;
               toolsEmpty_display := toolsEmpty_display (panel s);
               toggle_active := toggle_active (panel s);
               toggle_title := toggle_title (panel s) |} s.

Definition set_toolsEmpty_display (d : display) (s : State) : State :=
  set_panel {| toolsBody := toolsBody (panel s);
               toolsEmpty_display := d;
               toggle_active := toggle_active (panel s);
               toggle_title := toggle_title (panel s) |} s.

(** [tools.forEach(...)]: cards are appended in order; an exception leaves
    the cards appended so far and ends the loop. *)
Fixpoint forEach_tool (tools : list ToolRecord) (s : State)
  : State * Completion :=
  match tools with
  | [] => (s, Normal)
  | t :: rest =>
      match renderTool (page s) (expandAllTools (vars s)) t with
      | inl card =>
          forEach_tool rest
            (set_toolsBody (toolsBody (panel s) ++ [CardNode card]) s)
      | inr message => (s, Throw message)
      end
  end.

(** [updateTools(tools)] on an array. *)
Definition updateTools (tools : list ToolRecord) (s : State)
  : State * Completion :=
  if negb (has_toolsBody (page s)) then (s, Normal)
  else
    let s0 := set_toolsBody [] s in
    match tools with
    | [] =>
        (if has_toolsEmpty (page s0)
         then set_toolsBody [EmptyNode]
                (set_toolsEmpty_display DisplayBlock s0)
         else s0, Normal)
    | _ :: _ =>
        forEach_tool tools
          (if has_toolsEmpty (page s0)
           then set_toolsEmpty_display DisplayNone s0 else s0)
    end.

(** The cards currently in the panel. *)
Fixpoint cards (l : list PanelNode) : list Card :=
  match l with
  | [] => []
  | CardNode c :: rest => c :: cards rest
  | EmptyNode :: rest => cards rest
  end.

Definition rendered_cards (s : State) : list Card :=
  cards (toolsBody (panel s)).

Definition with_details_display (d : display) (c : Card) : Card :=
  {| card_name := card_name c; card_status_class := card_status_class c;
     card_status_label := card_status_label c; card_meta := card_meta c;
     card_details_display := d; card_details := card_details c |}.

Definition on_card (f : Card -> Card) (n : PanelNode) : PanelNode :=
  match n with CardNode c => CardNode (f c) | EmptyNode => EmptyNode end.

(** The click listener of one card. *)
Definition flip_details (c : Card) : Card :=
  with_details_display
    (match card_details_display c with
     | DisplayNone => DisplayBlock
     | _ => DisplayNone
     end) c.

Fixpoint on_nth {A} (f : A -> A) (i : nat) (l : list A) : list A :=
  match l, i with
  | [], _ => []
  | x :: rest, O => f x :: rest
  | x :: rest, S j => x :: on_nth f j rest
  end.

Definition card_click (i : nat) (s : State) : State :=
  set_toolsBody (on_nth (on_card flip_details) i (toolsBody (panel s))) s.

(** The click listener of the tool-output toggle. *)
Definition toggle_click (s : State) : State :=
  let show := negb (showToolOutput (vars s)) in
  let expand := show in
  let s1 :=
    set_vars {| isSending := isSending (vars s);
                showToolOutput := show;
                expandAllTools := expand;
                selectedModel := selectedModel (vars s) |} s in
  set_panel
    {| toolsBody :=
         if has_toolsBody (page s1)
         then List.map
                (on_card (with_details_display
                            (if expand then DisplayBlock else DisplayNone)))
                (toolsBody (panel s1))
         else toolsBody (panel s1);
       toolsEmpty_display := toolsEmpty_display (panel s1);
       toggle_active := expand;
       toggle_title :=
         if expand then js "Hide details" else js "Show details" |} s1.

(* ===================================================================== *)
(** ** Session controller *)
(* ===================================================================== *)

(** Disabling the input takes the focus from it; [focus()] gives it back. *)
Definition set_sending_controls (sending : bool) (value : jsstring)
           (s : State) : State :=
  set_composer {| input_value := value;
                  input_disabled := sending;
                  send_disabled := sending;
                  input_focused := negb sending |} s.

(** [sendMessage()] up to the first [await]. *)
Definition sendMessage (s : State) : State :=
  if isSending (vars s) then s
  else
    let text := trim (input_value (composer s)) in
    if negb (nonempty text) then s
    else
      let s1 := set_isSending true s in
      let s2 := set_sending_controls true [] s1 in
      let s3 := showTyping (appendMessage (js "user") text Now s2) in
      fetch (ChatRequest (showToolOutput (vars s3)) (selectedModel (vars s3))
                         text)
            ChatPending s3.

Definition is_assistant_role (r : option jsstring) : bool :=
  match r with
  | Some r => streq r (js "assistant") || streq r (js "model")
  | None => false
  end.

(** [data.messages.forEach(...)] *)
Definition append_assistant_messages (ms : list ChatMessage) (s : State)
  : State :=
  fold_left
    (fun acc m =>
       if is_assistant_role (cm_role m)
       then appendMessage (js "assistant") (or_str (cm_content m) (js "")) Now acc
       else acc)
    ms s.

(** The [try] block from the point where the awaited response settles. *)
Definition chat_try (o : Settled ChatResponse) (s : State)
  : State * Completion :=
  match o with
  | NetworkFailure message => (s, Throw message)
  | HttpFailure code => (s, Throw (js "Server error: " ++ string_of_Z code))
  | ParseFailure message => (s, Throw message)
  | Body data =>
      let s1 := hideTyping s in
      match cr_error data with
      | Some (c :: r) => (appendMessage (js "system") (c :: r) Now s1, Normal)
      | _ =>
          let s2 :=
            match cr_messages data with
            | Some ms => append_assistant_messages ms s1
            | None =>
                match cr_reply data with
                | Some (c :: r) => appendMessage (js "assistant") (c :: r) Now s1
                | _ => s1
                end
            end in
          match cr_tools data with
          | Some tools => updateTools tools s2
          | None => (s2, Normal)
          end
      end
  end.

(** The [catch] block. *)
Definition chat_catch (r : State * Completion) : State :=
  match r with
  | (s, Normal) => s
  | (s, Throw message) =>
      appendMessage (js "system") (js "Connection error: " ++ message) Now
        (hideTyping s)
  end.

(** The [finally] block. *)
Definition chat_finally (s : State) : State :=
  set_sending_controls false (input_value (composer s))
    (set_isSending false s).

(** [sendMessage()] from the first [await] to its end. *)
Definition sendMessage_settled (o : Settled ChatResponse) (s : State) : State :=
  chat_finally (chat_catch (chat_try o s)).

(** [loadChatHistory()] up to the first [await]. *)
Definition loadChatHistory (s : State) : State :=
  fetch HistoryRequest HistoryPending s.

(** The [forEach] over the history messages. *)
Definition replay_messages (ms : list HistoryMessage) (s : State) : State :=
  fold_left
    (fun acc m =>
       appendMessage (or_str (hm_role m) (js "user"))
         (or_str (hm_content m) (js ""))
         (match hm_timestamp m with
          | Some (c :: r) => At (c :: r)
          | _ => Now
          end) acc)
    ms s.

(** [loadChatHistory()] from the first [await] to its end. Failures are
    logged and dropped, and so is an exception of [updateTools]. *)
Definition loadChatHistory_settled (o : Settled HistoryResponse) (s : State)
  : State :=
  match o with
  | Body data =>
      let messages :=
        match hr_messages data with Some ms => ms | None => [] end in
      match messages with
      | [] => s
      | _ :: _ =>
          let s1 :=
            if has_welcomeMessage (page s)
            then set_welcome_display DisplayNone s else s in
          let s2 := replay_messages messages s1 in
          let tools :=
            match hr_tool_interactions data with
            | Some ts => ts
            | None => []
            end in
          match tools with
          | [] => s2
          | _ :: _ => fst (updateTools tools s2)
          end
      end
  | _ => s
  end.

(** The order of [Array.prototype.sort] without a comparator: strings by
    their code units, a proper prefix first. *)
Fixpoint str_leb (a b : jsstring) : bool :=
  match a, b with
  | [], _ => true
  | _ :: _, [] => false
  | x :: a', y :: b' =>
      if N.ltb x y then true
      else if N.eqb x y then str_leb a' b' else false
  end.

Fixpoint insert_key (k : jsstring) (l : list jsstring) : list jsstring :=
  match l with
  | [] => [k]
  | x :: rest => if str_leb k x then k :: l else x :: insert_key k rest
  end.

(** [keys.sort()].  The keys of an object are distinct, so the result does
    not depend on how the engine sorts. *)
Definition sort_keys (l : list jsstring) : list jsstring :=
  fold_right insert_key [] l.

(** The property names an object literal inherits; read through [grouped]
    each of them is a value that is truthy and has no [push]. *)
Definition inherited_keys : list jsstring :=
  [js "constructor"; js "__defineGetter__"; js "__defineSetter__";
   js "hasOwnProperty"; js "__lookupGetter__"; js "__lookupSetter__";
   js "isPrototypeOf"; js "propertyIsEnumerable"; js "toString";
   js "valueOf"; js "__proto__"; js "toLocaleString"].

Definition is_inherited_key (k : jsstring) : bool :=
  existsb (streq k) inherited_keys.

(** The own properties of [grouped], in insertion order. *)
Definition Groups : Type := list (jsstring * list ModelEntry).

(** [grouped[k]] for an own property, the empty list when there is none. *)
Fixpoint lookup_group (k : jsstring) (g : Groups) : list ModelEntry :=
  match g with
  | [] => []
  | (k', ms) :: rest => if streq k k' then ms else lookup_group k rest
  end.

(** [if (!grouped[p]) grouped[p] = []; grouped[p].push(model)] for a
    provider that is not an inherited name. *)
Fixpoint group_push (m : ModelEntry) (g : Groups) : Groups :=
  match g with
  | [] => [(me_provider m, [m])]
  | (k, ms) :: rest =>
      if streq (me_provider m) k then (k, ms ++ [m]) :: rest
      else (k, ms) :: group_push m rest
  end.

(** [models.forEach(...)] filling [grouped]; [None] when a provider is an
    inherited name and [push] raises a TypeError. *)
Definition group_models (models : list ModelEntry) : option Groups :=
  fold_left
    (fun acc m =>
       match acc with
       | None => None
       | Some g =>
           if is_inherited_key (me_provider m) then None
           else Some (group_push m g)
       end)
    models (Some []).

(** Whether the loop that fills [grouped] runs to its end. *)
Definition grouping_completes (models : list ModelEntry) : bool :=
  match group_models models with Some _ => true | None => false end.

(** [loadAvailableModels()] from its [await] on, as far as the script's
    variables go: [selectedModel] takes the declared default when there is
    a selector element, the grouping runs to its end and the catalogue
    lists the default; an exception of the grouping is caught before any
    option is built.  The option elements are not part of the state. *)
Definition loadAvailableModels_settled
           (o : Settled (list ModelEntry * option jsstring)) (s : State)
  : State :=
  match o with
  | Body (models, default) =>
      let defaultModel := or_str default (js "gemini-2.5-flash") in
      if has_modelSelector (page s)
         && grouping_completes models
         && existsb (fun m => streq (me_id m) defaultModel) models
      then set_selectedModel defaultModel s
      else s
  | _ => s
  end.

(** The [change] listener of the model selector. *)
Definition model_change (value text : jsstring) (s : State) : State :=
  appendMessage (js "system") (js "Model changed to: " ++ text) Now
    (set_selectedModel value s).

(** The click listener of the reset button, after [confirm]. *)
Definition reset_click (confirmed : bool) (s : State) : State :=
  if confirmed then fetch ResetRequest ResetPending (resetChatUI s) else s.

(** The click listener of the sleep button up to its [await]. *)
Definition sleep_click (confirmed : bool) (s : State) : State :=
  if confirmed then
    fetch SleepRequest SleepPending
      (appendMessage (js "system") (js "Starting sleep cycle...") Now
         (set_sleep_busy true s))
  else s.

(** The sleep listener from its [await] on; the body carries [status] and
    [message]. *)
Definition sleep_settled (o : Settled (option jsstring * option jsstring))
           (s : State) : State :=
  let failed message :=
    appendMessage (js "system") (js "Failed to start sleep: " ++ message) Now s in
  set_sleep_busy false
    (match o with
     | NetworkFailure message => failed message
     | HttpFailure code =>
         failed (js "Failed to start sleep: " ++ string_of_Z code)
     | ParseFailure message => failed message
     | Body (st, message) =>
         if match st with Some st => streq st (js "success") | None => false end
         then
           let s1 :=
             appendMessage (js "system")
               (js "Sleep cycle completed successfully! Memory updates have been made.")
               Now s in
           set_net {| requests := requests (net s1);
                      pending := pending (net s1) ++ [SleepReloadTimer] |} s1
         else
           appendMessage (js "system")
             (js "Sleep error: " ++ or_str message (js "Unknown error")) Now s
     end).

(** What can happen to the page. *)
Inductive Event : Type :=
| SendClick                          (* click on the send button *)
| EnterKey                           (* Enter without Shift in the input *)
| ChipClick (text : jsstring)        (* click on a suggestion chip *)
| UserTypes (text : jsstring)        (* the user edits the input *)
| ToggleClick
| CardClick (i : nat)
| ResetClick (confirmed : bool)
| SleepClick (confirmed : bool)
| ModelChange (value text : jsstring)
| StartupDelayElapsed
| ModelsSettled (o : Settled (list ModelEntry * option jsstring))
| HistorySettled (o : Settled HistoryResponse)
| ChatSettled (o : Settled ChatResponse)
| ResetSettled
| SleepSettled (o : Settled (option jsstring * option jsstring))
| SleepReloadTimerFires.

Definition set_pending (l : list Pending) (s : State) : State :=
  set_net {| requests := requests (net s); pending := l |} s.

(** Run the continuation [k] if one is suspended. *)
Definition resuming (p : Pending) (k : State -> State) (s : State)
  : option State :=
  match resume p (pending (net s)) with
  | Some rest => Some (k (set_pending rest s))
  | None => None
  end.

(** One turn of the event loop; [None] when the event cannot occur in [s]
    (a disabled control, no such continuation). *)
Definition step (e : Event) (s : State) : option State :=
  match e with
  | SendClick =>
      if send_disabled (composer s) then None else Some (sendMessage s)
  | EnterKey =>
      if input_disabled (composer s) then None else Some (sendMessage s)
  | ChipClick text =>
      Some (sendMessage
              (set_composer {| input_value := text;
                               input_disabled := input_disabled (composer s);
                               send_disabled := send_disabled (composer s);
                               input_focused := input_focused (composer s) |} s))
  | UserTypes text =>
      if input_disabled (composer s) then None
      else Some (set_composer
                   {| input_value := text;
                      input_disabled := input_disabled (composer s);
                      send_disabled := send_disabled (composer s);
                      input_focused := input_focused (composer s) |} s)
  | ToggleClick => Some (toggle_click s)
  | CardClick i => Some (card_click i s)
  | ResetClick confirmed => Some (reset_click confirmed s)
  | SleepClick confirmed =>
      if sleep_busy s then None else Some (sleep_click confirmed s)
  | ModelChange value text => Some (model_change value text s)
  | StartupDelayElapsed =>
      resuming StartupDelay (fetch ModelsRequest ModelsPending) s
  | ModelsSettled o =>
      resuming ModelsPending
        (fun s => loadChatHistory (loadAvailableModels_settled o s)) s
  | HistorySettled o => resuming HistoryPending (loadChatHistory_settled o) s
  | ChatSettled o => resuming ChatPending (sendMessage_settled o) s
  | ResetSettled => resuming ResetPending (fun s => s) s
  | SleepSettled o => resuming SleepPending (sleep_settled o) s
  | SleepReloadTimerFires =>
      resuming SleepReloadTimer (fun s => loadChatHistory (resetChatUI s)) s
  end.

(** Run a sequence of events, stopping at one that cannot occur. *)
Fixpoint run (es : list Event) (s : State) : option State :=
  match es with
  | [] => Some s
  | e :: rest =>
      match step e s with
      | Some s' => run rest s'
      | None => None
      end
  end.

(** The state when [initializeApp] reaches its first [await]: the document
    as loaded, the variables at their declared values, nothing requested. *)
Definition initial_state (doc : State) : State :=
  {| page := page doc;
     vars := {| isSending := false;
                showToolOutput := true;
                expandAllTools := false;
                selectedModel := js "gemini-2.5-flash" |};
     conversation := conversation doc;
     composer := composer doc;
     panel := panel doc;
     sleep_busy := sleep_busy doc;
     net := {| requests := []; pending := [StartupDelay] |} |}.

Inductive reachable (doc : State) : State -> Prop :=
| reach_initial : reachable doc (initial_state doc)
| reach_step e s s' :
    reachable doc s -> step e s = Some s' -> reachable doc s'.

(** The operations of the two views, for sequences of calls. *)
Inductive ViewOp : Type :=
| OpAppend (role content : jsstring) (time : TimeSource)
| OpShowTyping
| OpHideTyping
| OpUpdateTools (tools : list ToolRecord)
| OpReset.

Definition apply_op (op : ViewOp) (s : State) : State :=
  match op with
  | OpAppend role content time => appendMessage role content time s
  | OpShowTyping => showTyping s
  | OpHideTyping => hideTyping s
  | OpUpdateTools tools => fst (updateTools tools s)
  | OpReset => resetChatUI s
  end.

Definition apply_ops (ops : list ViewOp) (s : State) : State :=
  fold_left (fun acc op => apply_op op acc) ops s.

Definition is_reset (op : ViewOp) : bool :=
  match op with OpReset => true | _ => false end.

(** A page with every optional element, as the shipped markup has it, and
    an empty document around it. *)
Definition full_page : Page :=
  {| has_welcomeMessage := true; has_toolsBody := true;
     has_toolsEmpty := true; has_modelSelector := true;
     token_error_message := fun token =>
       js "The token provided ('" ++ token ++ js "') contains HTML space characters, which are not valid in tokens." |}.

Definition blank_document : State :=
  {| page := full_page;
     vars := {| isSending := false; showToolOutput := true;
                expandAllTools := false;
                selectedModel := js "gemini-2.5-flash" |};
     conversation := {| messagesContent := [WelcomeNode];
                        welcome_display := DisplayUnset |};
     composer := {| input_value := []; input_disabled := false;
                    send_disabled := false; input_focused := false |};
     panel := {| toolsBody := [EmptyNode];
                 toolsEmpty_display := DisplayUnset;
                 toggle_active := false; toggle_title := [] |};
     sleep_busy := false;
     net := {| requests := []; pending := [] |} |}.

Definition with_input (text : jsstring) (s : State) : State :=
  set_composer {| input_value := text;
                  input_disabled := input_disabled (composer s);
                  send_disabled := send_disabled (composer s);
                  input_focused := input_focused (composer s) |} s.

(** What an operation of one component leaves alone. *)
Definition outside_conversation (s : State) :=
  (page s, vars s, composer s, panel s, sleep_busy s, net s).

Definition outside_panel (s : State) :=
  (page s, vars s, conversation s, composer s, sleep_busy s, net s).

Definition outside_views (s : State) :=
  (page s, vars s, composer s, sleep_busy s, net s).

(** The two coupled switches. *)
Definition output_flags (s : State) : bool * bool :=
  (showToolOutput (vars s), expandAllTools (vars s)).

Definition is_toggle (e : Event) : bool :=
  match e with ToggleClick => true | _ => false end.

Definition is_chat_settled (e : Event) : bool :=
  match e with ChatSettled _ => true | _ => false end.

Definition is_chat_request (r : Request) : bool :=
  match r with ChatRequest _ _ _ => true | _ => false end.

(** Chat requests issued so far. *)
Definition chat_requests (s : State) : nat :=
  length (filter is_chat_request (requests (net s))).

(** The placeholder is hidden by its [display] style. *)
Definition welcome_hidden (s : State) : Prop :=
  welcome_display (conversation s) = DisplayNone.

(** Examples for the tool panel. *)
Definition failed_by_status : ToolRecord :=
  {| name := Some (js "search"); tool_name := None; tool := None;
     status := Some (js "failed"); tool_status := None; error := None;
     duration_ms := None; execution_time_ms := None; started_at := None;
     timestamp := None; parameters := None; tool_input := None;
     result := None; tool_output := None |}.

Definition failed_by_error : ToolRecord :=
  {| name := Some (js "fetch"); tool_name := None; tool := None;
     status := None; tool_status := None;
     error := Some (JStr (js "timeout"));
     duration_ms := None; execution_time_ms := None; started_at := None;
     timestamp := None; parameters := None; tool_input := None;
     result := None; tool_output := None |}.

Definition timed_tool : ToolRecord :=
  {| name := None; tool_name := Some (js "read_file"); tool := None;
     status := None; tool_status := None; error := None;
     duration_ms := None; execution_time_ms := Some (25 # 2)%Q;
     started_at := None; timestamp := Some (js "2025-01-01T10:00:00");
     parameters := None; tool_input := Some (JStr (js "a.txt"));
     result := None; tool_output := None |}.

Definition measured_tool : ToolRecord :=
  {| name := Some (js "read_file"); tool_name := None; tool := None;
     status := None; tool_status := None; error := None;
     duration_ms := Some (25 # 2)%Q; execution_time_ms := Some (99 # 1)%Q;
     started_at := Some (js "2025-01-01T09:59:59");
     timestamp := Some (js "2025-01-01T10:00:00");
     parameters := None; tool_input := None;
     result := None; tool_output := None |}.

Definition instant_tool : ToolRecord :=
  {| name := Some (js "noop"); tool_name := None; tool := None;
     status := None; tool_status := None; error := None;
     duration_ms := Some (0 # 1)%Q; execution_time_ms := Some (7 # 1)%Q;
     started_at := Some []; timestamp := None;
     parameters := None; tool_input := None;
     result := None; tool_output := None |}.

Definition skewed_tool : ToolRecord :=
  {| name := Some (js "undo"); tool_name := None; tool := None;
     status := None; tool_status := None; error := None;
     duration_ms := None; execution_time_ms := Some (- 5 # 2)%Q;
     started_at := None; timestamp := None;
     parameters := None; tool_input := None;
     result := None; tool_output := None |}.

(** The single-flight guard: a chat request is outstanding exactly while
    [isSending] is set, and while it is set both controls are disabled. *)
Definition single_flight (s : State) : Prop :=
  chat_in_flight s = (if isSending (vars s) then 1 else 0) /\
  (isSending (vars s) = true ->
   input_disabled (composer s) = true /\ send_disabled (composer s) = true).

(** What the session controller's guard and switches look like from
    outside. *)
Definition session_view (s : State) :=
  (isSending (vars s), output_flags s,
   input_disabled (composer s), send_disabled (composer s),
   chat_in_flight s, chat_requests s).




Definition reply_response : ChatResponse :=
  {| cr_error := None; cr_messages := None;
     cr_reply := Some (js "hello"); cr_tools := Some [timed_tool] |}.




Definition tools_only_history : HistoryResponse :=
  {| hr_messages := Some [];
     hr_tool_interactions := Some [failed_by_status; timed_tool] |}.

(** The code units the four patterns begin and end with. *)
Definition is_delimiter (c : N) : bool :=
  (N.eqb c backtick || N.eqb c star || N.eqb c underscore
   || N.eqb c CR || N.eqb c LF).

(** The shape of a match of the four patterns: an opening delimiter, the
    captured text, a closing delimiter. *)
Definition delimited (m : matcher) : Prop :=
  forall s g n, m s = Some (g, n) ->
    exists d1 d2 after,
      s = d1 ++ g ++ d2 ++ after /\ n = length (d1 ++ g ++ d2) /\
      d1 <> [] /\ Forall (fun c => is_delimiter c = true) d1 /\
      Forall (fun c => is_delimiter c = true) d2 /\
      (d2 = [] -> g = []).

(** A substitution template that wraps the capture in the renderer's tags. *)
Definition tagging (template : jsstring -> jsstring) : Prop :=
  forall g, only_renderer_tags g -> only_renderer_tags (template g).

(** How often a code unit occurs in a string. *)
Definition occurrences (d : N) (s : jsstring) : nat :=
  length (filter (N.eqb d) s).

(** The bubble a history entry is replayed as: the role defaults to
    "user", the content to the empty string, the time to the clock. *)
Definition history_bubble (m : HistoryMessage) : Bubble :=
  bubble_of (or_str (hm_role m) (js "user")) (or_str (hm_content m) (js ""))
    (match hm_timestamp m with
     | Some (c :: r) => At (c :: r)
     | _ => Now
     end).

(** A record whose status text [classList.add] accepts. *)
Definition tool_renders (t : ToolRecord) : bool :=
  valid_token (status_token (tool_st t)).

Definition is_sleep (p : Pending) : bool :=
  match p with SleepPending => true | _ => false end.

(** Sleep requests whose continuation has not run yet. *)
Definition sleep_in_flight (s : State) : nat :=
  length (filter is_sleep (pending (net s))).

(** A string with no white space at either end. *)
Definition trimmed (s : jsstring) : Prop :=
  match s with
  | [] => True
  | c :: _ => is_trim_space c = false /\ is_trim_space (last s c) = false
  end.

(** The notice the sleep handler appends when its request settles. *)
Definition sleep_notice (o : Settled (option jsstring * option jsstring))
  : jsstring :=
  match o with
  | NetworkFailure message => js "Failed to start sleep: " ++ message
  | HttpFailure code =>
      js "Failed to start sleep: Failed to start sleep: " ++ string_of_Z code
  | ParseFailure message => js "Failed to start sleep: " ++ message
  | Body (Some st, message) =>
      if streq st (js "success")
      then js "Sleep cycle completed successfully! Memory updates have been made."
      else js "Sleep error: " ++ or_str message (js "Unknown error")
  | Body (None, message) =>
      js "Sleep error: " ++ or_str message (js "Unknown error")
  end.

(** The sleep response declares success. *)
Definition sleep_succeeded (o : Settled (option jsstring * option jsstring))
  : bool :=
  match o with
  | Body (Some st, _) => streq st (js "success")
  | _ => false
  end.

(** The sleep button and its request, seen from outside. *)
Definition sleep_view (s : State) : bool * nat :=
  (sleep_busy s, sleep_in_flight s).

(* ===================================================================== *)
(** ** The model selector *)
(* ===================================================================== *)

(** What [loadAvailableModels] leaves in the selector.  A group stands for
    an [optgroup] whose label is its provider with the first letter in
    upper case; its entries are the options, value [id] and text
    [display_name]. *)
Inductive Selector : Type :=
| Untouched                      (* there is no selector element *)
| NoModelsOption                 (* one option "No models available", disabled *)
| OptionGroups (groups : Groups)
| FallbackOption.                (* one option for the built-in default *)

Definition selector_after (p : Page)
           (o : Settled (list ModelEntry * option jsstring)) : Selector :=
  if has_modelSelector p then
    match o with
    | Body ([], _) => NoModelsOption
    | Body (models, _) =>
        match group_models models with
        | Some g =>
            OptionGroups
              (List.map (fun k => (k, lookup_group k g))
                        (sort_keys (List.map fst g)))
        | None => FallbackOption
        end
    | _ => FallbackOption
    end
  else Untouched.

Definition example_catalogue : list ModelEntry :=
  [ {| me_id := js "gpt-4o"; me_provider := js "openai";
       me_display_name := js "GPT-4o" |};
    {| me_id := js "gemini-2.5-flash"; me_provider := js "google";
       me_display_name := js "Gemini 2.5 Flash" |};
    {| me_id := js "gpt-4o-mini"; me_provider := js "openai";
       me_display_name := js "GPT-4o mini" |};
    {| me_id := js "claude"; me_provider := js "anthropic";
       me_display_name := js "Claude" |} ].

(* ===================================================================== *)
(** ** Facts about strings *)
(* ===================================================================== *)

Lemma streq_eq (a b : jsstring) : streq a b = true <-> a = b.
Proof.
  revert b; induction a as [|x a IH]; intros [|y b]; simpl; split;
    try congruence; try reflexivity.
  - intros H. apply andb_true_iff in H as [Hx Hs].
    apply N.eqb_eq in Hx. apply IH in Hs. congruence.
  - intros H. injection H as -> ->. rewrite N.eqb_refl. simpl. now apply IH.
Qed.

Lemma streq_refl (a : jsstring) : streq a a = true.
Proof. now apply streq_eq. Qed.

Lemma starts_with_app (p s : jsstring) : starts_with p (p ++ s) = true.
Proof. induction p as [|x p IH]; simpl; [reflexivity|]. now rewrite N.eqb_refl. Qed.

Lemma starts_with_split (p s : jsstring) :
  starts_with p s = true -> s = p ++ skipn (length p) s.
Proof.
  revert s; induction p as [|x p IH]; intros s H; [reflexivity|].
  destruct s as [|y s]; simpl in H; [discriminate|].
  apply andb_true_iff in H as [Hx Hs]. apply N.eqb_eq in Hx. subst y.
  simpl. f_equal. now apply IH.
Qed.

(* ===================================================================== *)
(** ** Facts about the global replacement *)
(* ===================================================================== *)

Section Replace.

Variable m : matcher.
Variable template : jsstring -> jsstring.

Lemma replace_from_skipn (k : nat) (s : jsstring) :
  replace_from m template k s = replace_global m template (skipn k s).
Proof.
  revert k; induction s as [|c s IH]; intros [|k]; try reflexivity.
  simpl. apply IH.
Qed.

Lemma replace_global_nil : replace_global m template [] = [].
Proof. reflexivity. Qed.

Lemma replace_global_copy (c : N) (rest : jsstring) :
  m (c :: rest) = None ->
  replace_global m template (c :: rest) = c :: replace_global m template rest.
Proof. intros H. unfold replace_global. simpl. now rewrite H. Qed.

Lemma replace_global_match (c : N) (rest g : jsstring) (n : nat) :
  m (c :: rest) = Some (g, n) ->
  replace_global m template (c :: rest)
  = template g ++ replace_global m template (skipn (pred n) rest).
Proof.
  intros H. unfold replace_global at 1. simpl. rewrite H.
  now rewrite replace_from_skipn.
Qed.

(** [starter] holds of every code unit a match can begin with. *)
Variable starter : N -> bool.
Hypothesis m_starter :
  forall c rest, starter c = false -> m (c :: rest) = None.

Lemma replace_global_inert (p s : jsstring) :
  Forall (fun c => starter c = false) p ->
  replace_global m template (p ++ s) = p ++ replace_global m template s.
Proof.
  induction 1 as [|c p Hc _ IH]; [reflexivity|].
  simpl. rewrite replace_global_copy by now apply m_starter.
  now rewrite IH.
Qed.

Lemma replace_global_id (s : jsstring) :
  Forall (fun c => starter c = false) s ->
  replace_global m template s = s.
Proof.
  intros H. rewrite <- (app_nil_r s) at 1.
  rewrite replace_global_inert by assumption.
  now rewrite replace_global_nil, app_nil_r.
Qed.

End Replace.

Lemma span_not_spec (d : N) (s run after : jsstring) :
  span_not d s = (run, after) ->
  s = run ++ after /\ (forall c rest, after = c :: rest -> c = d).
Proof.
  revert run after; induction s as [|c s IH]; intros run after H; simpl in H.
  - injection H as <- <-. split; [reflexivity | discriminate].
  - destruct (N.eqb c d) eqn:E.
    + injection H as <- <-. apply N.eqb_eq in E. split; [reflexivity|].
      intros c' rest [= <- _]. exact E.
    + destruct (span_not d s) as [run' after'] eqn:Es.
      injection H as <- <-. destruct (IH _ _ eq_refl) as [-> Hd].
      split; [reflexivity | exact Hd].
Qed.

Lemma dot_plus_lazy_spec (closer s g : jsstring) :
  dot_plus_lazy closer s = Some g ->
  g <> [] /\ exists after, s = g ++ closer ++ after.
Proof.
  revert g; induction s as [|c s IH]; intros g H; simpl in H; [discriminate|].
  destruct (is_line_terminator c); [discriminate|].
  destruct (starts_with closer s) eqn:E.
  - injection H as <-. split; [discriminate|].
    exists (skipn (length closer) s). simpl. f_equal.
    now apply starts_with_split.
  - destruct (dot_plus_lazy closer s) as [g'|]; [|discriminate].
    injection H as <-. destruct (IH _ eq_refl) as [_ [after ->]].
    split; [discriminate|]. now exists after.
Qed.

Lemma match_code_delimited : delimited match_code.
Proof.
  intros s g n H. destruct s as [|c rest]; [discriminate|]. simpl in H.
  destruct (N.eqb c backtick) eqn:E; [|discriminate].
  apply N.eqb_eq in E. subst c.
  destruct (span_not backtick rest) as [run after] eqn:Es.
  destruct run as [|x run]; [discriminate|].
  destruct after as [|b after]; [discriminate|].
  injection H as <- <-.
  destruct (span_not_spec _ _ _ _ Es) as [-> Hb].
  rewrite (Hb b after eq_refl).
  exists [backtick], [backtick], after. repeat split.
  - simpl. rewrite length_app. simpl. f_equal. lia.
  - discriminate.
  - repeat constructor.
  - repeat constructor.
  - discriminate.
Qed.

Lemma match_delimited_delimited (opener closer : jsstring) :
  opener <> [] -> closer <> [] ->
  Forall (fun c => is_delimiter c = true) opener ->
  Forall (fun c => is_delimiter c = true) closer ->
  delimited (match_delimited opener closer).
Proof.
  intros Ho Hc Fo Fc s g n H. unfold match_delimited in H.
  destruct (starts_with opener s) eqn:E; [|discriminate].
  destruct (dot_plus_lazy closer (skipn (length opener) s)) as [g'|] eqn:Eg;
    [|discriminate].
  injection H as <- <-.
  destruct (dot_plus_lazy_spec _ _ _ Eg) as [_ [after Ha]].
  exists opener, closer, after. repeat split; try assumption.
  - rewrite (starts_with_split _ _ E), Ha. reflexivity.
  - rewrite !length_app. lia.
  - intros ->. contradiction.
Qed.

Lemma match_newline_delimited : delimited match_newline.
Proof.
  intros s g n H. destruct s as [|c rest]; [discriminate|]. simpl in H.
  destruct (N.eqb c LF) eqn:E.
  - apply N.eqb_eq in E. subst c. injection H as <- <-.
    exists [LF], [], rest. repeat split; try discriminate; repeat constructor.
  - destruct (N.eqb c CR) eqn:E'; [|discriminate].
    apply N.eqb_eq in E'. subst c.
    destruct rest as [|d rest]; [discriminate|].
    destruct (N.eqb d LF) eqn:E''; [|discriminate].
    apply N.eqb_eq in E''. subst d. injection H as <- <-.
    exists [CR; LF], [], rest. repeat split; try discriminate; repeat constructor.
Qed.

Lemma match_code_starter c rest :
  N.eqb c backtick = false -> match_code (c :: rest) = None.
Proof. intros H. simpl. now rewrite H. Qed.

Lemma match_delimited_starter (o : N) (opener closer : jsstring) c rest :
  N.eqb c o = false -> match_delimited (o :: opener) closer (c :: rest) = None.
Proof.
  intros H. unfold match_delimited. simpl. rewrite N.eqb_sym in H.
  now rewrite H.
Qed.

Lemma match_newline_starter c rest :
  N.eqb c CR || N.eqb c LF = false -> match_newline (c :: rest) = None.
Proof.
  intros H. apply orb_false_iff in H as [H1 H2]. simpl. now rewrite H2, H1.
Qed.

(* ===================================================================== *)
(** ** The renderer writes no tag but its own *)
(* ===================================================================== *)

Lemma tag_units_inert (t : jsstring) :
  In t renderer_tags -> Forall (fun c => is_delimiter c = false) t.
Proof.
  unfold renderer_tags. simpl.
  intros [<-|[<-|[<-|[<-|[<-|[<-|[<-|[]]]]]]]]; repeat constructor.
Qed.

Lemma tag_nonempty (t : jsstring) : In t renderer_tags -> t <> [].
Proof.
  unfold renderer_tags. simpl.
  intros [<-|[<-|[<-|[<-|[<-|[<-|[<-|[]]]]]]]]; discriminate.
Qed.

Lemma ort_app (a b : jsstring) :
  only_renderer_tags a -> only_renderer_tags b -> only_renderer_tags (a ++ b).
Proof.
  intros Ha Hb. induction Ha as [|c s Hl Hg _ IH|t s Ht _ IH].
  - exact Hb.
  - simpl. now constructor.
  - rewrite <- app_assoc. now constructor.
Qed.

Lemma ort_tag_alone (t : jsstring) :
  In t renderer_tags -> only_renderer_tags t.
Proof.
  intros H. rewrite <- (app_nil_r t). constructor; [assumption | constructor].
Qed.

Lemma ort_no_angle (s : jsstring) :
  Forall (fun c => c <> lt /\ c <> gt) s -> only_renderer_tags s.
Proof. induction 1 as [|c s [Hl Hg] _ IH]; constructor; assumption. Qed.

(** A delimiter is never inside a tag, so the markup splits at it. *)
Lemma ort_split (g : jsstring) (d : N) (y : jsstring) :
  is_delimiter d = true ->
  only_renderer_tags (g ++ d :: y) ->
  only_renderer_tags g /\ only_renderer_tags y.
Proof.
  intros Hd H. remember (g ++ d :: y) as x eqn:Ex.
  revert g Ex. induction H as [|c s Hl Hg Hs IH|t s Ht Hs IH]; intros g Ex.
  - destruct g; discriminate.
  - destruct g as [|c' g]; simpl in Ex.
    + injection Ex as -> ->. split; [constructor | assumption].
    + injection Ex as -> ->. destruct (IH g eq_refl) as [H1 H2].
      split; [now constructor | assumption].
  - symmetry in Ex. apply app_eq_app in Ex as [l [[-> E]|[-> E]]].
    + destruct (IH l E) as [H1 H2].
      split; [now constructor | assumption].
    + destruct l as [|c l].
      * rewrite app_nil_r in Ht. simpl in E. subst s.
        destruct (IH [] eq_refl) as [_ H2].
        split; [now apply ort_tag_alone | assumption].
      * simpl in E. injection E as <- _.
        pose proof (tag_units_inert _ Ht) as F.
        apply Forall_app in F as [_ F]. inversion F; congruence.
Qed.

Lemma ort_strip (d : jsstring) (x : jsstring) :
  Forall (fun c => is_delimiter c = true) d ->
  only_renderer_tags (d ++ x) -> only_renderer_tags x.
Proof.
  induction 1 as [|c d Hc _ IH]; intros H; [exact H|].
  apply IH. now apply (ort_split [] c (d ++ x)).
Qed.

Lemma wrap_tagging (o c : jsstring) :
  In o renderer_tags -> In c renderer_tags ->
  tagging (fun g => o ++ g ++ c).
Proof.
  intros Ho Hc g Hg. constructor; [assumption|].
  apply ort_app; [assumption | now apply ort_tag_alone].
Qed.

Lemma code_template_tagging : tagging code_template.
Proof. apply wrap_tagging; unfold renderer_tags; simpl; tauto. Qed.

Lemma bold_template_tagging : tagging bold_template.
Proof. apply wrap_tagging; unfold renderer_tags; simpl; tauto. Qed.

Lemma italic_template_tagging : tagging italic_template.
Proof. apply wrap_tagging; unfold renderer_tags; simpl; tauto. Qed.

Lemma br_template_tagging : tagging br_template.
Proof. intros g _. apply ort_tag_alone. unfold renderer_tags; simpl; tauto. Qed.

Section ReplaceKeepsTags.

Variable m : matcher.
Variable template : jsstring -> jsstring.
Hypothesis m_delimited : delimited m.
Hypothesis m_starter :
  forall c rest, is_delimiter c = false -> m (c :: rest) = None.
Hypothesis template_tagging : tagging template.

Lemma replace_global_ort_len (k : nat) :
  forall s, length s <= k -> only_renderer_tags s ->
            only_renderer_tags (replace_global m template s).
Proof.
  induction k as [|k IH]; intros s Hlen Hs.
  - destruct s; [constructor | simpl in Hlen; lia].
  - destruct Hs as [|c s Hl Hg Hs|t s Ht Hs].
    + constructor.
    + simpl in Hlen. destruct (m (c :: s)) as [[g n]|] eqn:E.
      * rewrite (replace_global_match _ _ _ _ _ _ E).
        destruct (m_delimited _ _ _ E)
          as (d1 & d2 & after & Es & -> & Hne & F1 & F2 & Hg2).
        destruct d1 as [|c1 d1]; [contradiction|].
        simpl in Es. injection Es as <- ->.
        assert (Hskip :
                  skipn (pred (length ((c :: d1) ++ g ++ d2)))
                        (d1 ++ g ++ d2 ++ after) = after).
        { simpl. rewrite !app_assoc, <- (app_assoc d1 g d2).
          rewrite skipn_app, skipn_all, Nat.sub_diag. reflexivity. }
        rewrite Hskip.
        assert (Hrest : only_renderer_tags (g ++ d2 ++ after)).
        { apply (ort_strip d1); [now inversion F1 | assumption]. }
        assert (Hga : only_renderer_tags g /\ only_renderer_tags after).
        { destruct d2 as [|c2 d2].
          - rewrite (Hg2 eq_refl) in *. split; [constructor | exact Hrest].
          - simpl in Hrest. inversion F2; subst.
            destruct (ort_split _ _ _ H1 Hrest) as [Hg' Ha].
            split; [assumption | now apply (ort_strip d2)]. }
        destruct Hga as [Hg' Ha].
        apply ort_app; [now apply template_tagging|].
        apply IH; [|assumption].
        rewrite !length_app in Hlen. lia.
      * rewrite replace_global_copy by assumption.
        constructor; try assumption. apply IH; [lia | assumption].
    + rewrite (replace_global_inert m template is_delimiter m_starter)
        by now apply tag_units_inert.
      constructor; [assumption|]. apply IH; [|assumption].
      rewrite length_app in Hlen. pose proof (tag_nonempty _ Ht).
      destruct t; [contradiction | simpl in Hlen; lia].
Qed.

Lemma replace_global_ort (s : jsstring) :
  only_renderer_tags s -> only_renderer_tags (replace_global m template s).
Proof. apply (replace_global_ort_len (length s)). lia. Qed.

End ReplaceKeepsTags.

(* ===================================================================== *)
(** ** Escaping *)
(* ===================================================================== *)

(** What the three chained replacements make of one code unit. *)
Lemma escapeHtml_cons (c : N) (s : jsstring) :
  escapeHtml (c :: s) = escapeHtml [c] ++ escapeHtml s.
Proof.
  unfold escapeHtml, replace_char. change (c :: s) with ([c] ++ s).
  now rewrite !flat_map_app.
Qed.

Lemma escapeHtml_app (a b : jsstring) :
  escapeHtml (a ++ b) = escapeHtml a ++ escapeHtml b.
Proof. unfold escapeHtml, replace_char. now rewrite !flat_map_app. Qed.

Lemma escapeHtml_unit (c : N) :
  (c = amp /\ escapeHtml [c] = js "&amp;") \/
  (c = lt /\ escapeHtml [c] = js "&lt;") \/
  (c = gt /\ escapeHtml [c] = js "&gt;") \/
  (c <> amp /\ c <> lt /\ c <> gt /\ escapeHtml [c] = [c]).
Proof.
  unfold escapeHtml, replace_char. simpl.
  destruct (N.eqb c amp) eqn:Ea.
  - apply N.eqb_eq in Ea. subst c. left. split; reflexivity.
  - simpl. destruct (N.eqb c lt) eqn:El.
    + apply N.eqb_eq in El. subst c. right; left. split; reflexivity.
    + simpl. destruct (N.eqb c gt) eqn:Eg.
      * apply N.eqb_eq in Eg. subst c. right; right; left. split; reflexivity.
      * apply N.eqb_neq in Ea, El, Eg. right; right; right. now repeat split.
Qed.

(** A property of code units that the escaping keeps: it holds of the
    units of the three character references. *)
Lemma escapeHtml_Forall (P : N -> Prop) (s : jsstring) :
  Forall P (js "&amp;") -> Forall P (js "&lt;") -> Forall P (js "&gt;") ->
  Forall P s -> Forall P (escapeHtml s).
Proof.
  intros Pa Pl Pg. induction 1 as [|c s Hc _ IH]; [constructor|].
  rewrite escapeHtml_cons. apply Forall_app. split; [|exact IH].
  destruct (escapeHtml_unit c) as [[_ ->]|[[_ ->]|[[_ ->]|(_ & _ & _ & ->)]]];
    try assumption.
  now constructor.
Qed.

Lemma escapeHtml_no_angle (s : jsstring) :
  Forall (fun c => c <> lt /\ c <> gt) (escapeHtml s).
Proof.
  induction s as [|c s IH]; [constructor|].
  rewrite escapeHtml_cons. apply Forall_app. split; [|exact IH].
  destruct (escapeHtml_unit c) as [[_ ->]|[[_ ->]|[[_ ->]|(_ & Hl & Hg & ->)]]].
  - repeat constructor; discriminate.
  - repeat constructor; discriminate.
  - repeat constructor; discriminate.
  - repeat constructor; assumption.
Qed.

Lemma escapeHtml_nonempty (s : jsstring) : s <> [] -> escapeHtml s <> [].
Proof.
  destruct s as [|c s]; [contradiction|]. intros _.
  rewrite escapeHtml_cons.
  destruct (escapeHtml_unit c) as [[_ ->]|[[_ ->]|[[_ ->]|(_ & _ & _ & ->)]]];
    discriminate.
Qed.

Lemma decode_text_plain (fuel : nat) (c : N) (rest : jsstring) :
  c <> amp ->
  decode_text (S fuel) (c :: rest) = c :: decode_text fuel rest.
Proof.
  intros H. apply N.eqb_neq in H. rewrite N.eqb_sym in H.
  cbn -[N.eqb]. fold amp. rewrite H. reflexivity.
Qed.

(** Reading the escaped text back gives the original. *)
Lemma decode_escapeHtml (s : jsstring) :
  forall fuel, length (escapeHtml s) <= fuel ->
               decode_text fuel (escapeHtml s) = s.
Proof.
  induction s as [|c s IH]; intros fuel Hf.
  - destruct fuel; reflexivity.
  - rewrite escapeHtml_cons in *. rewrite length_app in Hf.
    destruct (escapeHtml_unit c)
      as [[-> E]|[[-> E]|[[-> E]|(Ha & Hl & Hg & E)]]];
      rewrite E in *; simpl in Hf;
      (destruct fuel as [|fuel]; [lia|]).
    + simpl. f_equal. apply IH. lia.
    + simpl. f_equal. apply IH. lia.
    + simpl. f_equal. apply IH. lia.
    + cbn [app]. rewrite decode_text_plain by assumption.
      f_equal. apply IH. simpl in Hf. lia.
Qed.

(** The escaping writes no line end of its own, so it commutes with the
    normalization of the input stream. *)
Lemma normalize_escapeHtml (s : jsstring) :
  forall b, normalize_newlines_from b (escapeHtml s)
            = escapeHtml (normalize_newlines_from b s).
Proof.
  induction s as [|c s IH]; intros b; [reflexivity|].
  rewrite escapeHtml_cons.
  destruct (escapeHtml_unit c)
    as [[-> E]|[[-> E]|[[-> E]|(Ha & Hl & Hg & E)]]]; rewrite E.
  - cbn. rewrite IH. now destruct b.
  - cbn. rewrite IH. now destruct b.
  - cbn. rewrite IH. now destruct b.
  - cbn [app normalize_newlines_from].
    destruct (N.eqb c CR).
    + rewrite (escapeHtml_cons LF). cbn [app]. now rewrite IH.
    + destruct (N.eqb c LF && b).
      * apply IH.
      * rewrite (escapeHtml_cons c), E. cbn [app]. now rewrite IH.
Qed.

(** Read back by the parser, the escaped text is the text, up to what the
    parser does to any character data. *)
Lemma parsed_text_escapeHtml (s : jsstring) :
  parsed_text (escapeHtml s) = character_data s.
Proof.
  unfold parsed_text, character_data, normalize_newlines.
  rewrite normalize_escapeHtml. now rewrite decode_escapeHtml.
Qed.

Lemma normalize_newlines_plain (s : jsstring) :
  Forall (fun c => c <> CR) s -> normalize_newlines s = s.
Proof.
  unfold normalize_newlines.
  induction 1 as [|c s Hc _ IH]; [reflexivity|].
  cbn [normalize_newlines_from]. apply N.eqb_neq in Hc.
  rewrite Hc, andb_false_r. f_equal. exact IH.
Qed.

Lemma drop_nul_plain (s : jsstring) :
  Forall (fun c => c <> NUL) s -> drop_nul s = s.
Proof.
  induction 1 as [|c s Hc _ IH]; [reflexivity|].
  cbn [drop_nul filter]. apply N.eqb_neq in Hc. rewrite Hc. cbn [negb].
  f_equal. exact IH.
Qed.

(** Without a carriage return and without U+0000 the parser keeps the
    text as it is. *)
Lemma character_data_plain (s : jsstring) :
  Forall (fun c => c <> CR) s -> Forall (fun c => c <> NUL) s ->
  character_data s = s.
Proof.
  intros Hc Hn. unfold character_data.
  rewrite (normalize_newlines_plain s Hc). now apply drop_nul_plain.
Qed.

Lemma delimiter_free_no_CR (s : jsstring) :
  Forall (fun c => is_delimiter c = false) s -> Forall (fun c => c <> CR) s.
Proof.
  apply Forall_impl. intros c H ->. discriminate.
Qed.

(* ===================================================================== *)
(** ** renderMarkup: order of the stages, tags, plain text, bold *)
(* ===================================================================== *)

Lemma not_delimiter (c : N) :
  is_delimiter c = false ->
  N.eqb c backtick = false /\ N.eqb c star = false /\
  N.eqb c underscore = false /\ N.eqb c CR || N.eqb c LF = false.
Proof.
  unfold is_delimiter. intros H.
  repeat (apply orb_false_iff in H; destruct H as [H ?]).
  repeat split; try assumption. apply orb_false_iff. now split.
Qed.

Lemma code_starter c rest :
  is_delimiter c = false -> match_code (c :: rest) = None.
Proof. intros H. apply match_code_starter. now apply not_delimiter. Qed.

Lemma bold_starter c rest :
  is_delimiter c = false -> match_bold (c :: rest) = None.
Proof. intros H. apply match_delimited_starter. now apply not_delimiter. Qed.

Lemma italic_starter c rest :
  is_delimiter c = false -> match_italic (c :: rest) = None.
Proof. intros H. apply match_delimited_starter. now apply not_delimiter. Qed.

Lemma newline_starter c rest :
  is_delimiter c = false -> match_newline (c :: rest) = None.
Proof. intros H. apply match_newline_starter. now apply not_delimiter. Qed.

Lemma match_bold_delimited : delimited match_bold.
Proof.
  apply match_delimited_delimited; try discriminate; repeat constructor.
Qed.

Lemma match_italic_delimited : delimited match_italic.
Proof.
  apply match_delimited_delimited; try discriminate; repeat constructor.
Qed.

Lemma renderMarkup_stages (text : jsstring) :
  renderMarkup text = inlineFormat (escapeHtml text).
Proof. destruct text; reflexivity. Qed.

Lemma inlineFormat_ort (s : jsstring) :
  only_renderer_tags s -> only_renderer_tags (inlineFormat s).
Proof.
  intros H. unfold inlineFormat.
  apply replace_global_ort;
    [exact match_newline_delimited | exact newline_starter
     | exact br_template_tagging |].
  apply replace_global_ort;
    [exact match_italic_delimited | exact italic_starter
     | exact italic_template_tagging |].
  apply replace_global_ort;
    [exact match_bold_delimited | exact bold_starter
     | exact bold_template_tagging |].
  apply replace_global_ort;
    [exact match_code_delimited | exact code_starter
     | exact code_template_tagging |].
  exact H.
Qed.

Lemma renderMarkup_ort (text : jsstring) :
  only_renderer_tags (renderMarkup text).
Proof.
  rewrite renderMarkup_stages. apply inlineFormat_ort, ort_no_angle.
  apply escapeHtml_no_angle.
Qed.

Lemma inlineFormat_inert (s : jsstring) :
  Forall (fun c => is_delimiter c = false) s -> inlineFormat s = s.
Proof.
  intros H. unfold inlineFormat.
  rewrite (replace_global_id match_code _ is_delimiter code_starter) by exact H.
  rewrite (replace_global_id match_bold _ is_delimiter bold_starter) by exact H.
  rewrite (replace_global_id match_italic _ is_delimiter italic_starter)
    by exact H.
  now rewrite (replace_global_id match_newline _ is_delimiter newline_starter).
Qed.

Lemma escapeHtml_inert (s : jsstring) :
  Forall (fun c => is_delimiter c = false) s ->
  Forall (fun c => is_delimiter c = false) (escapeHtml s).
Proof. apply escapeHtml_Forall; repeat constructor. Qed.

(** Text without a formatting character comes out escaped and nothing
    else: no tag at all, and the reader sees the text as it was written. *)
Lemma renderMarkup_plain (text : jsstring) :
  Forall (fun c => is_delimiter c = false) text ->
  renderMarkup text = escapeHtml text /\
  Forall (fun c => c <> lt /\ c <> gt) (renderMarkup text) /\
  parsed_text (renderMarkup text) = drop_nul text /\
  (Forall (fun c => c <> NUL) text -> parsed_text (renderMarkup text) = text).
Proof.
  intros H.
  assert (E : renderMarkup text = escapeHtml text).
  { rewrite renderMarkup_stages. now apply inlineFormat_inert, escapeHtml_inert. }
  assert (P : parsed_text (escapeHtml text) = drop_nul text).
  { rewrite parsed_text_escapeHtml. unfold character_data.
    now rewrite (normalize_newlines_plain text (delimiter_free_no_CR text H)). }
  rewrite E. split; [reflexivity|]. split; [apply escapeHtml_no_angle|].
  split; [exact P|].
  intros Hn. rewrite P. now apply drop_nul_plain.
Qed.

Lemma dot_plus_lazy_bold (x after : jsstring) :
  x <> [] ->
  Forall (fun c => is_line_terminator c = false /\ N.eqb c star = false) x ->
  dot_plus_lazy [star; star] (x ++ star :: star :: after) = Some x.
Proof.
  intros Hne H. induction H as [|c x [Hc Hs] Hx IH]; [contradiction|].
  cbn [app dot_plus_lazy]. rewrite Hc. destruct x as [|c' x].
  - cbn [app]. change (star :: star :: after) with ([star; star] ++ after).
    now rewrite starts_with_app.
  - inversion Hx as [|? ? [_ Hs'] _]; subst.
    cbn [app starts_with]. rewrite N.eqb_sym in Hs'. rewrite Hs'.
    cbn [andb]. cbn [app] in IH. rewrite IH by discriminate. reflexivity.
Qed.

Lemma inlineFormat_bold (p x q : jsstring) :
  Forall (fun c => is_delimiter c = false) p ->
  Forall (fun c => is_delimiter c = false) x ->
  Forall (fun c => is_delimiter c = false) q ->
  Forall (fun c => is_line_terminator c = false) x ->
  x <> [] ->
  inlineFormat (p ++ [star; star] ++ x ++ [star; star] ++ q)
  = p ++ js "<b>" ++ x ++ js "</b>" ++ q.
Proof.
  intros Hp Hx Hq Hlt Hne. unfold inlineFormat.
  assert (nb : forall l, Forall (fun c => is_delimiter c = false) l ->
                         Forall (fun c => N.eqb c backtick = false) l).
  { intros l. apply Forall_impl. intros c Hc. now apply not_delimiter. }
  assert (ns : forall l, Forall (fun c => is_delimiter c = false) l ->
                         Forall (fun c => N.eqb c star = false) l).
  { intros l. apply Forall_impl. intros c Hc. now apply not_delimiter. }
  (* inline code: no backtick anywhere *)
  rewrite (replace_global_id match_code _ (fun c => N.eqb c backtick)
             match_code_starter).
  2:{ repeat (apply Forall_app; split); auto; repeat constructor. }
  (* bold: the prefix is copied, the pair of stars matches *)
  rewrite (replace_global_inert match_bold _ (fun c => N.eqb c star)
             (match_delimited_starter star [star] [star; star])) by auto.
  assert (Em : match_bold ([star; star] ++ x ++ [star; star] ++ q)
               = Some (x, 2 + length x + 2)).
  { unfold match_bold, match_delimited. cbn [app starts_with skipn length].
    rewrite !N.eqb_refl. cbn [andb].
    rewrite dot_plus_lazy_bold; [reflexivity | assumption |].
    rewrite Forall_forall in *. intros c Hc. split; [now apply Hlt|].
    now apply not_delimiter, Hx. }
  cbn [app] in Em |- *. rewrite (replace_global_match _ _ _ _ _ _ Em).
  assert (Es : skipn (pred (2 + length x + 2))
                     (star :: x ++ star :: star :: q) = q).
  { replace (pred (2 + length x + 2)) with (length (star :: x ++ [star; star]))
      by (simpl; rewrite length_app; simpl; lia).
    change (star :: x ++ star :: star :: q)
      with ((star :: x) ++ [star; star] ++ q).
    rewrite app_assoc. change ((star :: x) ++ [star; star])
      with (star :: x ++ [star; star]).
    now rewrite skipn_app, skipn_all, Nat.sub_diag. }
  rewrite Es.
  rewrite (replace_global_id match_bold _ (fun c => N.eqb c star)
             (match_delimited_starter star [star] [star; star])) by auto.
  (* italic and line breaks: nothing left to match *)
  assert (F : Forall (fun c => is_delimiter c = false)
                     (p ++ bold_template x ++ q)).
  { unfold bold_template. repeat (apply Forall_app; split); auto;
      repeat constructor. }
  rewrite (replace_global_id match_italic _ is_delimiter italic_starter)
    by exact F.
  rewrite (replace_global_id match_newline _ is_delimiter newline_starter)
    by exact F.
  unfold bold_template. now rewrite <- !app_assoc.
Qed.

(** Bold emphasis: a pair of double asterisks around text, among text free
    of other formatting characters, becomes a [b] element around the
    escaped text, and the asterisks are gone. *)
Lemma renderMarkup_bold (p x q : jsstring) :
  Forall (fun c => is_delimiter c = false) p ->
  Forall (fun c => is_delimiter c = false) x ->
  Forall (fun c => is_delimiter c = false) q ->
  Forall (fun c => is_line_terminator c = false) x ->
  x <> [] ->
  renderMarkup (p ++ js "**" ++ x ++ js "**" ++ q)
  = escapeHtml p ++ js "<b>" ++ escapeHtml x ++ js "</b>" ++ escapeHtml q.
Proof.
  intros Hp Hx Hq Hlt Hne. rewrite renderMarkup_stages.
  rewrite !escapeHtml_app.
  change (escapeHtml (js "**")) with [star; star].
  apply inlineFormat_bold; try now apply escapeHtml_inert.
  - apply escapeHtml_Forall; try assumption; repeat constructor.
  - now apply escapeHtml_nonempty.
Qed.

(* ===================================================================== *)
(** ** Tool trace panel: status and metadata *)
(* ===================================================================== *)

Lemma renderTool_card (p : Page) (e : bool) (t : ToolRecord) (card : Card) :
  renderTool p e t = inl card ->
  card_status_label card = status_label (tool_st t) /\
  card_meta card = tool_meta t /\
  card_name card = tool_display_name t /\
  card_details_display card = (if e then DisplayBlock else DisplayNone).
Proof.
  unfold renderTool. destruct (valid_token _); [|discriminate].
  intros [= <-]. repeat split.
Qed.

(** The status text before the comparison, by the three sources in order. *)
Lemma tool_st_sources (t : ToolRecord) :
  tool_st t =
  toLowerCase
    (match status t with
     | Some (c :: r) => c :: r
     | _ =>
         match tool_status t with
         | Some (c :: r) => c :: r
         | _ => if truthy_json (error t) then js "failed" else js "completed"
         end
     end).
Proof.
  unfold tool_st, or_str.
  destruct (status t) as [[|c r]|]; destruct (tool_status t) as [[|c' r']|];
    destruct (truthy_json (error t)); reflexivity.
Qed.

Lemma Math_round_nearest (d : Q) :
  (inject_Z (Math_round d) - (1 # 2) <= d /\
   d < inject_Z (Math_round d) + (1 # 2))%Q.
Proof.
  unfold Math_round.
  pose proof (Qfloor_le (d + (1 # 2))) as Hl.
  pose proof (Qlt_floor (d + (1 # 2))) as Hu.
  rewrite inject_Z_plus in Hu.
  set (n := inject_Z (Qfloor (d + (1 # 2)))) in *.
  change (inject_Z 1) with 1%Q in Hu.
  split; lra.
Qed.

(** C1, as stated, at a record with neither status nor error: the
    specification asks for the running label, the card shows "Completed". *)
Lemma C1_default_is_completed :
  status bare_tool = None /\ tool_status bare_tool = None /\
  error bare_tool = None /\
  exists card,
    renderTool full_page false bare_tool = inl card /\
    card_status_label card = js "Completed" /\
    card_status_class card = js "completed" /\
    card_status_label card <> js "Running".
Proof.
  repeat split. eexists. split; [reflexivity|].
  repeat split. discriminate.
Qed.

(** C1 (amended): the status shown on a rendered card comes from the
    explicit status text when there is one ([status], else [tool_status]),
    compared in lower case; without one the card shows "Failed" when the
    error field is truthy and "Completed" otherwise.  The label is
    "Running" exactly for a status text other than "completed" and
    "failed"; the older script makes the same choice with its own texts.
    A batch of a record with status "failed" and a record with no status
    and an error renders two cards, both "Failed", none "Completed". *)
Theorem C1_status_label :
  (forall p e t card,
     renderTool p e t = inl card ->
     card_status_label card =
       (match status t with
        | Some (c :: r) => status_label (toLowerCase (c :: r))
        | _ =>
            match tool_status t with
            | Some (c :: r) => status_label (toLowerCase (c :: r))
            | _ => if truthy_json (error t) then js "Failed" else js "Completed"
            end
        end) /\
     (card_status_label card = js "Running" <->
      tool_st t <> js "completed" /\ tool_st t <> js "failed")) /\
  (forall p e t,
     In (tool_st t) [js "running"; js "completed"; js "failed"] ->
     exists card, renderTool p e t = inl card) /\
  (forall st,
     status_label_base st =
       if streq (status_label st) (js "Completed")
       then js "Tamamland" ++ [305%N]
       else if streq (status_label st) (js "Failed") then js "Hata"
       else [199%N] ++ js "al" ++ [305%N; 351%N; 305%N] ++ js "yor") /\
  (forall s t1 t2,
     has_toolsBody (page s) = true ->
     status t1 = Some (js "failed") ->
     status t2 = None -> tool_status t2 = None ->
     truthy_json (error t2) = true ->
     snd (updateTools [t1; t2] s) = Normal /\
     List.map card_status_label (rendered_cards (fst (updateTools [t1; t2] s)))
     = [js "Failed"; js "Failed"]).
Proof.
  split; [|split; [|split]].
  - intros p e t card Hc.
    destruct (renderTool_card _ _ _ _ Hc) as (Hl & _). rewrite Hl. split.
    + rewrite tool_st_sources.
      destruct (status t) as [[|c r]|]; try reflexivity;
        destruct (tool_status t) as [[|c' r']|]; try reflexivity;
        destruct (truthy_json (error t)); reflexivity.
    + unfold status_label.
      destruct (streq (tool_st t) (js "completed")) eqn:E1.
      { apply streq_eq in E1. split; [discriminate | tauto]. }
      destruct (streq (tool_st t) (js "failed")) eqn:E2.
      { apply streq_eq in E2. split; [discriminate | tauto]. }
      split; [|reflexivity]. intros _. split; intros E.
      * apply streq_eq in E. congruence.
      * apply streq_eq in E. congruence.
  - intros p e t Hin. unfold renderTool.
    destruct Hin as [<-|[<-|[<-|[]]]]; eexists; reflexivity.
  - intros st. unfold status_label_base, status_label.
    destruct (streq st (js "completed")); [reflexivity|].
    destruct (streq st (js "failed")); reflexivity.
  - intros s t1 t2 Hb H1 H2 H2' H2e.
    assert (S1 : tool_st t1 = js "failed").
    { rewrite tool_st_sources, H1. reflexivity. }
    assert (S2 : tool_st t2 = js "failed").
    { rewrite tool_st_sources, H2, H2', H2e. reflexivity. }
    unfold updateTools. rewrite Hb. cbn [negb forEach_tool].
    assert (R : forall s0 t0, tool_st t0 = js "failed" ->
                exists c0, renderTool (page s0) (expandAllTools (vars s0)) t0
                           = inl c0 /\ card_status_label c0 = js "Failed").
    { intros s0 t0 E0. unfold renderTool. rewrite E0.
      eexists. split; reflexivity. }
    match goal with
    | |- context [renderTool (page ?s0) _ t1] =>
        destruct (R s0 t1 S1) as (c1 & -> & L1)
    end.
    match goal with
    | |- context [renderTool (page ?s0) _ t2] =>
        destruct (R s0 t2 S2) as (c2 & -> & L2)
    end.
    split; [reflexivity|].
    unfold rendered_cards. cbn [fst].
    destruct (has_toolsEmpty (page (set_toolsBody [] s)));
      cbn; now rewrite L1, L2.
Qed.

Lemma C1_status_label_witness :
  List.map card_status_label
    (rendered_cards
       (fst (updateTools [failed_by_status; failed_by_error] blank_document)))
  = [js "Failed"; js "Failed"].
Proof.
  apply (proj2 (proj2 (proj2 (proj2 C1_status_label))
                  blank_document failed_by_status failed_by_error
                  eq_refl eq_refl eq_refl eq_refl eq_refl)).
Defined.

Lemma digits_value_acc (u : Decimal.uint) :
  forall acc : positive,
    digits_value (Z.pos acc) (js (DecimalString.NilEmpty.string_of_uint u))
    = Some (Z.pos (Pos.of_uint_acc u acc)).
Proof.
  induction u; intros acc; [reflexivity| ..];
    cbn [DecimalString.NilEmpty.string_of_uint Pos.of_uint_acc];
    change (js (String ?a ?r)) with (N_of_ascii a :: js r);
    cbn [digits_value];
    match goal with
    | |- context [digit_value ?c] =>
        let v := eval vm_compute in (digit_value c) in
        change (digit_value c) with v
    end;
    cbv beta iota; rewrite <- IHu; f_equal; lia.
Qed.

Lemma digits_value_uint (u : Decimal.uint) :
  digits_value 0 (js (DecimalString.NilEmpty.string_of_uint u))
  = Some (Z.of_N (Pos.of_uint u)).
Proof.
  induction u; [reflexivity| ..];
    cbn [DecimalString.NilEmpty.string_of_uint Pos.of_uint];
    change (js (String ?a ?r)) with (N_of_ascii a :: js r);
    cbn [digits_value];
    match goal with
    | |- context [digit_value ?c] =>
        let v := eval vm_compute in (digit_value c) in
        change (digit_value c) with v
    end;
    cbv beta iota; try exact IHu;
    cbn [Z.of_N]; rewrite <- digits_value_acc; f_equal.
Qed.

Lemma to_uint_head (p : positive) :
  exists c rest,
    js (DecimalString.NilEmpty.string_of_uint (Pos.to_uint p)) = c :: rest /\
    N.eqb c 48 = false /\ N.eqb c 45 = false.
Proof.
  assert (Hn : forall d', Pos.to_uint p <> Decimal.D0 d').
  { intros d' E.
    pose proof (DecimalPos.Unsigned.to_of (Pos.to_uint p)) as H.
    rewrite DecimalPos.Unsigned.of_to in H. cbn [N.to_uint] in H.
    destruct (Decimal.nzhead (Pos.to_uint p)) eqn:Ez;
      [ unfold Decimal.unorm in H; rewrite Ez in H;
        now apply (DecimalPos.Unsigned.to_uint_nonzero p)
      | rewrite DecimalFacts.unorm_nzhead in H by (rewrite Ez; discriminate);
        rewrite E in H;
        now apply (DecimalFacts.nzhead_nonzero _ _ (eq_sym H)) .. ]. }
  pose proof (DecimalPos.Unsigned.to_uint_nonnil p) as Hnil.
  destruct (Pos.to_uint p) as [|u|u|u|u|u|u|u|u|u|u];
    [contradiction | exfalso; now apply (Hn u) | ..];
    eexists; eexists; (split; [reflexivity | split; reflexivity]).
Qed.

Lemma string_of_Z_numeral (z : Z) : decimal_numeral (string_of_Z z) z = true.
Proof.
  destruct z as [|p|p].
  - reflexivity.
  - unfold string_of_Z. cbn [Z.to_int DecimalString.NilEmpty.string_of_int].
    destruct (to_uint_head p) as (c & rest & E & H0 & Hm).
    pose proof (digits_value_uint (Pos.to_uint p)) as Hv.
    rewrite DecimalPos.Unsigned.of_to in Hv. rewrite E in *.
    unfold decimal_numeral, unsigned_numeral. rewrite Hm, H0, Hv.
    cbn [negb orb andb Z.of_N]. rewrite Z.eqb_refl. reflexivity.
  - unfold string_of_Z. cbn [Z.to_int DecimalString.NilEmpty.string_of_int].
    change (js (String ?a ?r)) with (N_of_ascii a :: js r).
    destruct (to_uint_head p) as (c & rest & E & H0 & Hm).
    pose proof (digits_value_uint (Pos.to_uint p)) as Hv.
    rewrite DecimalPos.Unsigned.of_to in Hv. rewrite E in *.
    unfold decimal_numeral, unsigned_numeral.
    change (N.eqb (N_of_ascii "-") 45) with true. cbv iota.
    rewrite H0, Hv. cbn [negb orb andb Z.of_N Z.opp Z.ltb Z.compare].
    rewrite Z.eqb_refl. reflexivity.
Qed.

Lemma Math_round_unique (d : Q) (n : Z) :
  (inject_Z n - (1 # 2) <= d /\ d < inject_Z n + (1 # 2))%Q ->
  Math_round d = n.
Proof.
  intros [Hl Hu]. unfold Math_round.
  assert (H1 : (n <= Qfloor (d + (1 # 2)))%Z).
  { rewrite <- (Qfloor_Z n). apply Qfloor_resp_le. lra. }
  assert (H2 : (Qfloor (d + (1 # 2)) < n + 1)%Z).
  { rewrite Zlt_Qlt, inject_Z_plus.
    pose proof (Qfloor_le (d + (1 # 2))) as H.
    change (inject_Z 1) with 1%Q. lra. }
  lia.
Qed.

(** C9: a rendered card carries a metadata line exactly when a duration
    ([duration_ms], even when it is zero, else [execution_time_ms]) or a
    non-empty [started_at] or [timestamp] is there.  With a duration the
    line begins with the decimal numeral of the integer nearest to it, a
    tie going up, followed by " ms"; then comes the start time if there is
    one and the generic timestamp otherwise, after " · ".  The numeral is
    the exact one for durations that round to at most 2^53 in magnitude,
    the range in which a Number holds every integer. *)
Theorem C9_metadata_line (p : Page) (e : bool) (t : ToolRecord) (card : Card) :
  renderTool p e t = inl card ->
  let duration :=
    match duration_ms t with
    | Some d => Some d
    | None => execution_time_ms t
    end in
  let stamp :=
    match started_at t with
    | Some (c :: r) => Some (c :: r)
    | _ =>
        match timestamp t with
        | Some (c :: r) => Some (c :: r)
        | _ => None
        end
    end in
  (card_meta card = None <-> duration = None /\ stamp = None) /\
  (duration = None -> card_meta card = stamp) /\
  (forall d n,
     duration = Some d ->
     (inject_Z n - (1 # 2) <= d /\ d < inject_Z n + (1 # 2))%Q ->
     (Z.abs n <= max_exact_integer)%Z ->
     exists digits,
       decimal_numeral digits n = true /\
       card_meta card
       = Some (digits ++ js " ms"
               ++ match stamp with
                  | Some ts => [32%N; middle_dot; 32%N] ++ ts
                  | None => []
                  end)).
Proof.
  intros Hc duration stamp.
  destruct (renderTool_card _ _ _ _ Hc) as (_ & Hm & _). rewrite Hm.
  assert (E : tool_meta t =
              match duration, stamp with
              | Some d, Some ts =>
                  Some (string_of_Z (Math_round d) ++ js " ms"
                        ++ [32%N; middle_dot; 32%N] ++ ts)
              | Some d, None => Some (string_of_Z (Math_round d) ++ js " ms")
              | None, Some ts => Some ts
              | None, None => None
              end).
  { unfold tool_meta, meta_parts, stamp, duration, nullish.
    destruct (duration_ms t) as [d|]; [|destruct (execution_time_ms t) as [d|]];
      destruct (started_at t) as [[|c r]|];
      destruct (timestamp t) as [[|c' r']|]; cbn [app join];
      rewrite <- ?app_assoc; reflexivity. }
  rewrite E. split; [|split].
  - destruct duration as [d|]; destruct stamp as [ts|]; split;
      (discriminate || tauto || (intros [A B]; discriminate)).
  - intros ->. now destruct stamp.
  - intros d n -> Hn _. exists (string_of_Z n).
    split; [apply string_of_Z_numeral|].
    rewrite (Math_round_unique d n Hn).
    destruct stamp as [ts|]; [reflexivity|]. now rewrite app_nil_r.
Qed.

Lemma C9_metadata_line_witness :
  (exists card digits,
     renderTool full_page false measured_tool = inl card /\
     decimal_numeral digits 13 = true /\
     card_meta card
     = Some (digits ++ js " ms" ++ [32%N; 183%N; 32%N]
             ++ js "2025-01-01T09:59:59") /\
     card_meta card
     = Some (js "13 ms" ++ [32%N; 183%N; 32%N] ++ js "2025-01-01T09:59:59")) /\
  (exists card digits,
     renderTool full_page false instant_tool = inl card /\
     decimal_numeral digits 0 = true /\
     card_meta card = Some (digits ++ js " ms") /\
     card_meta card = Some (js "0 ms")) /\
  (exists card digits,
     renderTool full_page false skewed_tool = inl card /\
     decimal_numeral digits (-2) = true /\
     card_meta card = Some (digits ++ js " ms") /\
     card_meta card = Some (js "-2 ms")).
Proof.
  split; [|split].
  - destruct (proj2 (proj2 (C9_metadata_line full_page false measured_tool _
                              eq_refl))
                (25 # 2)%Q 13%Z eq_refl
                ltac:(split; [unfold Qle | unfold Qlt]; cbn; lia)
                ltac:(unfold max_exact_integer; cbn; lia))
      as (digits & Hd & Hm).
    eexists. exists digits. split; [reflexivity|].
    split; [exact Hd|]. split; [exact Hm | reflexivity].
  - destruct (proj2 (proj2 (C9_metadata_line full_page false instant_tool _
                              eq_refl))
                (0 # 1)%Q 0%Z eq_refl
                ltac:(split; [unfold Qle | unfold Qlt]; cbn; lia)
                ltac:(unfold max_exact_integer; cbn; lia))
      as (digits & Hd & Hm).
    eexists. exists digits. split; [reflexivity|].
    split; [exact Hd|]. split; [|reflexivity].
    rewrite Hm. now rewrite app_nil_r.
  - destruct (proj2 (proj2 (C9_metadata_line full_page false skewed_tool _
                              eq_refl))
                (- 5 # 2)%Q (-2)%Z eq_refl
                ltac:(split; [unfold Qle | unfold Qlt]; cbn; lia)
                ltac:(unfold max_exact_integer; cbn; lia))
      as (digits & Hd & Hm).
    eexists. exists digits. split; [reflexivity|].
    split; [exact Hd|]. split; [|reflexivity].
    rewrite Hm. now rewrite app_nil_r.
Defined.

(* ===================================================================== *)
(** ** What the view operations leave alone *)
(* ===================================================================== *)

Lemma appendMessage_nodes role content time s :
  messagesContent (conversation (appendMessage role content time s))
  = messagesContent (conversation s) ++ [BubbleNode (bubble_of role content time)].
Proof.
  unfold appendMessage.
  destruct (streq role (js "user") && has_welcomeMessage (page s)); reflexivity.
Qed.

Lemma appendMessage_welcome role content time s :
  welcome_display (conversation (appendMessage role content time s))
  = if streq role (js "user") && has_welcomeMessage (page s)
    then DisplayNone else welcome_display (conversation s).
Proof.
  unfold appendMessage.
  destruct (streq role (js "user") && has_welcomeMessage (page s)); reflexivity.
Qed.

Lemma appendMessage_outside role content time s :
  outside_conversation (appendMessage role content time s)
  = outside_conversation s.
Proof.
  unfold appendMessage.
  destruct (streq role (js "user") && has_welcomeMessage (page s)); reflexivity.
Qed.

Lemma showTyping_outside s :
  outside_conversation (showTyping s) = outside_conversation s.
Proof.
  unfold showTyping.
  destruct (existsb is_typing (messagesContent (conversation s))); reflexivity.
Qed.

Lemma showTyping_welcome s :
  welcome_display (conversation (showTyping s)) = welcome_display (conversation s).
Proof.
  unfold showTyping.
  destruct (existsb is_typing (messagesContent (conversation s))); reflexivity.
Qed.

Lemma hideTyping_outside s :
  outside_conversation (hideTyping s) = outside_conversation s.
Proof.
  unfold hideTyping.
  destruct (existsb is_typing (messagesContent (conversation s))); reflexivity.
Qed.

Lemma hideTyping_welcome s :
  welcome_display (conversation (hideTyping s)) = welcome_display (conversation s).
Proof.
  unfold hideTyping.
  destruct (existsb is_typing (messagesContent (conversation s))); reflexivity.
Qed.

Lemma resetChatUI_outside s : outside_views (resetChatUI s) = outside_views s.
Proof.
  unfold resetChatUI.
  destruct (has_welcomeMessage (page s)); cbn;
    destruct (has_toolsBody (page s)); cbn;
    destruct (has_toolsEmpty (page s)); reflexivity.
Qed.

Lemma forEach_tool_outside tools s :
  outside_panel (fst (forEach_tool tools s)) = outside_panel s.
Proof.
  revert s; induction tools as [|t tools IH]; intros s; [reflexivity|].
  cbn [forEach_tool].
  destruct (renderTool (page s) (expandAllTools (vars s)) t); [|reflexivity].
  now rewrite IH.
Qed.

Lemma updateTools_outside tools s :
  outside_panel (fst (updateTools tools s)) = outside_panel s.
Proof.
  unfold updateTools. destruct (has_toolsBody (page s)); [|reflexivity].
  cbn [negb]. destruct tools as [|t tools].
  - cbn. destruct (has_toolsEmpty (page s)); reflexivity.
  - rewrite forEach_tool_outside. cbn.
    destruct (has_toolsEmpty (page s)); reflexivity.
Qed.

Lemma outside_conversation_views s s' :
  outside_conversation s' = outside_conversation s ->
  outside_views s' = outside_views s.
Proof. unfold outside_conversation, outside_views. congruence. Qed.

Lemma outside_panel_views s s' :
  outside_panel s' = outside_panel s -> outside_views s' = outside_views s.
Proof. unfold outside_panel, outside_views. congruence. Qed.

Lemma append_assistant_messages_outside ms s :
  outside_conversation (append_assistant_messages ms s) = outside_conversation s.
Proof.
  unfold append_assistant_messages.
  revert s; induction ms as [|m ms IH]; intros s; [reflexivity|].
  cbn [fold_left]. rewrite IH.
  destruct (is_assistant_role (cm_role m)); [|reflexivity].
  apply appendMessage_outside.
Qed.

Lemma replay_messages_outside ms s :
  outside_conversation (replay_messages ms s) = outside_conversation s.
Proof.
  unfold replay_messages.
  revert s; induction ms as [|m ms IH]; intros s; [reflexivity|].
  cbn [fold_left]. rewrite IH. apply appendMessage_outside.
Qed.

Ltac solve_outside :=
  cbn [fst];
  repeat first
    [ rewrite (outside_panel_views _ _ (updateTools_outside _ _))
    | rewrite (outside_conversation_views _ _
                 (append_assistant_messages_outside _ _))
    | rewrite (outside_conversation_views _ _ (replay_messages_outside _ _))
    | rewrite (outside_conversation_views _ _ (appendMessage_outside _ _ _ _))
    | rewrite (outside_conversation_views _ _ (showTyping_outside _))
    | rewrite (outside_conversation_views _ _ (hideTyping_outside _))
    | rewrite resetChatUI_outside ];
  try reflexivity.

Lemma chat_try_outside o s :
  outside_views (fst (chat_try o s)) = outside_views s.
Proof.
  destruct o as [m|code|m|data]; try reflexivity. cbn [chat_try].
  destruct (cr_error data) as [[|c r]|];
    destruct (cr_tools data) as [tools|];
    destruct (cr_messages data) as [ms|];
    destruct (cr_reply data) as [[|c' r']|];
    solve_outside.
Qed.

Lemma chat_catch_outside r :
  outside_views (chat_catch r) = outside_views (fst r).
Proof.
  destruct r as [s [|m]]; [reflexivity|]. cbn [chat_catch fst].
  rewrite (outside_conversation_views _ _ (appendMessage_outside _ _ _ _)).
  apply outside_conversation_views, hideTyping_outside.
Qed.

Lemma loadChatHistory_settled_outside o s :
  outside_views (loadChatHistory_settled o s) = outside_views s.
Proof.
  destruct o as [m|code|m|data]; try reflexivity. cbn [loadChatHistory_settled].
  destruct (hr_messages data) as [[|m ms]|]; try reflexivity.
  assert (E : forall s0, outside_views s0 = outside_views s ->
                outside_views (replay_messages (m :: ms) s0) = outside_views s).
  { intros s0 <-. apply outside_conversation_views, replay_messages_outside. }
  assert (E' : outside_views
                 (replay_messages (m :: ms)
                    (if has_welcomeMessage (page s)
                     then set_welcome_display DisplayNone s else s))
               = outside_views s).
  { apply E. destruct (has_welcomeMessage (page s)); reflexivity. }
  destruct (hr_tool_interactions data) as [[|t ts]|]; try exact E'.
  rewrite (outside_panel_views _ _ (updateTools_outside _ _)). exact E'.
Qed.

(** Reading the parts of the state a view operation does not reach. *)
Lemma outside_views_parts s s' :
  outside_views s' = outside_views s ->
  page s' = page s /\ vars s' = vars s /\ composer s' = composer s /\
  sleep_busy s' = sleep_busy s /\ net s' = net s.
Proof. unfold outside_views. intros [= -> -> -> -> ->]. repeat split. Qed.

Ltac use_frame H :=
  let Hp := fresh in let Hv := fresh in let Hc := fresh in
  let Hb := fresh in let Hn := fresh in
  destruct (outside_views_parts _ _ H) as (Hp & Hv & Hc & Hb & Hn);
  rewrite ?Hp, ?Hv, ?Hc, ?Hb, ?Hn in *; clear Hp Hv Hc Hb Hn.

Ltac frames :=
  repeat match goal with
    | |- context [appendMessage ?r ?c ?t ?s] =>
        progress use_frame
          (outside_conversation_views _ _ (appendMessage_outside r c t s))
    | |- context [showTyping ?s] =>
        progress use_frame (outside_conversation_views _ _ (showTyping_outside s))
    | |- context [hideTyping ?s] =>
        progress use_frame (outside_conversation_views _ _ (hideTyping_outside s))
    | |- context [resetChatUI ?s] =>
        progress use_frame (resetChatUI_outside s)
    | |- context [fst (updateTools ?ts ?s)] =>
        progress use_frame (outside_panel_views _ _ (updateTools_outside ts s))
    | |- context [chat_catch ?r] => progress use_frame (chat_catch_outside r)
    | |- context [fst (chat_try ?o ?s)] =>
        progress use_frame (chat_try_outside o s)
    | |- context [loadChatHistory_settled ?o ?s] =>
        progress use_frame (loadChatHistory_settled_outside o s)
    end.

(* ===================================================================== *)
(** ** The single-flight guard *)
(* ===================================================================== *)

Lemma pending_eqb_eq p x : pending_eqb p x = true -> p = x.
Proof. destruct p, x; simpl; congruence. Qed.

Lemma chat_count_app l k :
  length (filter is_chat (l ++ [k]))
  = length (filter is_chat l) + (if is_chat k then 1 else 0).
Proof.
  rewrite filter_app, length_app. simpl. destruct (is_chat k); reflexivity.
Qed.

Lemma resume_count p l rest :
  resume p l = Some rest ->
  length (filter is_chat l)
  = length (filter is_chat rest) + (if is_chat p then 1 else 0).
Proof.
  revert rest; induction l as [|x l IH]; intros rest H; [discriminate|].
  simpl in H. destruct (pending_eqb p x) eqn:E.
  - injection H as <-. apply pending_eqb_eq in E. subst x.
    simpl. destruct (is_chat p); simpl; lia.
  - destruct (resume p l) as [rest'|]; [|discriminate].
    injection H as <-. specialize (IH _ eq_refl).
    simpl. destruct (is_chat x); simpl; lia.
Qed.

Lemma sendMessage_guarded s :
  isSending (vars s) = true -> sendMessage s = s.
Proof. intros H. unfold sendMessage. now rewrite H. Qed.

Lemma sendMessage_blank s :
  trim (input_value (composer s)) = [] -> sendMessage s = s.
Proof.
  intros H. unfold sendMessage. rewrite H.
  destruct (isSending (vars s)); reflexivity.
Qed.

(** What a call that passes both guards does to the session. *)
Lemma sendMessage_issues s :
  isSending (vars s) = false ->
  trim (input_value (composer s)) <> [] ->
  isSending (vars (sendMessage s)) = true /\
  output_flags (sendMessage s) = output_flags s /\
  composer (sendMessage s)
  = {| input_value := []; input_disabled := true; send_disabled := true;
       input_focused := false |} /\
  requests (net (sendMessage s))
  = requests (net s)
    ++ [ChatRequest (showToolOutput (vars s)) (selectedModel (vars s))
                    (trim (input_value (composer s)))] /\
  pending (net (sendMessage s)) = pending (net s) ++ [ChatPending].
Proof.
  intros Hs Ht. unfold sendMessage. rewrite Hs.
  destruct (trim (input_value (composer s))) as [|c r] eqn:E; [contradiction|].
  cbn [nonempty negb]. unfold fetch, output_flags. cbn [net vars set_net requests pending composer].
  frames. repeat split.
Qed.

Lemma sendMessage_single_flight s :
  single_flight s -> single_flight (sendMessage s).
Proof.
  intros Hsf. destruct (isSending (vars s)) eqn:Hs.
  - now rewrite sendMessage_guarded.
  - destruct (trim (input_value (composer s))) as [|c r] eqn:Ht.
    + now rewrite sendMessage_blank.
    + destruct (sendMessage_issues s Hs) as (H1 & _ & H3 & _ & H5);
        [rewrite Ht; discriminate|].
      destruct Hsf as [Hc _]. rewrite Hs in Hc.
      unfold single_flight, chat_in_flight in *. rewrite H1, H3, H5.
      rewrite chat_count_app, Hc. split; [reflexivity | now split].
Qed.

Lemma sendMessage_settled_session o s :
  isSending (vars (sendMessage_settled o s)) = false /\
  output_flags (sendMessage_settled o s) = output_flags s /\
  input_disabled (composer (sendMessage_settled o s)) = false /\
  send_disabled (composer (sendMessage_settled o s)) = false /\
  input_focused (composer (sendMessage_settled o s)) = true /\
  net (sendMessage_settled o s) = net s /\
  page (sendMessage_settled o s) = page s.
Proof.
  unfold sendMessage_settled, chat_finally, set_sending_controls,
    set_isSending, output_flags.
  cbn [vars composer net page set_composer set_vars isSending
       showToolOutput expandAllTools input_disabled send_disabled
       input_focused].
  frames. repeat split.
Qed.

Lemma chat_requests_app l r :
  length (filter is_chat_request (l ++ [r]))
  = length (filter is_chat_request l) + (if is_chat_request r then 1 else 0).
Proof.
  rewrite filter_app, length_app. simpl.
  destruct (is_chat_request r); reflexivity.
Qed.

Ltac resume_case H Er :=
  unfold resuming in H;
  match type of H with
  | context [resume ?p ?l] =>
      destruct (resume p l) eqn:Er; [|discriminate]; injection H as <-;
      apply resume_count in Er; cbn [is_chat] in Er;
      rewrite ?Nat.add_0_r in Er
  end.

Ltac session_crush :=
  unfold session_view, output_flags, chat_in_flight, chat_requests,
    fetch, set_pending, reset_click, sleep_click, sleep_settled, model_change,
    card_click, loadChatHistory, loadAvailableModels_settled,
    set_selectedModel, set_toolsBody, fetch;
  repeat match goal with
    | |- context [if ?b then _ else _] => destruct b
    | |- context [match ?o with NetworkFailure _ => _ | _ => _ end] => destruct o
    | |- context [match ?o with (_, _) => _ end] => destruct o
    end;
  cbn [vars composer net page set_net set_vars set_composer set_panel
       set_sleep_busy requests pending isSending showToolOutput
       expandAllTools input_disabled send_disabled];
  frames;
  cbn [vars composer net page set_net set_vars set_composer set_panel
       set_sleep_busy requests pending isSending showToolOutput
       expandAllTools input_disabled send_disabled];
  rewrite ?chat_count_app, ?chat_requests_app; cbn [is_chat is_chat_request];
  rewrite ?Nat.add_0_r;
  try congruence.

(** One turn of the event loop, seen from the guard: only the send
    attempts, the settlement of a chat request and the toggle touch it. *)
Lemma step_session e s s' :
  step e s = Some s' ->
  match e with
  | SendClick | EnterKey => s' = sendMessage s
  | ChipClick text => s' = sendMessage (with_input text s)
  | ToggleClick => s' = toggle_click s
  | ChatSettled o =>
      exists rest,
        resume ChatPending (pending (net s)) = Some rest /\
        s' = sendMessage_settled o (set_pending rest s)
  | _ => session_view s' = session_view s
  end.
Proof.
  intros H. destruct e; cbn [step] in H.
  - destruct (send_disabled (composer s)); congruence.
  - destruct (input_disabled (composer s)); congruence.
  - injection H as <-. reflexivity.
  - destruct (input_disabled (composer s)) eqn:E; [discriminate|].
    injection H as <-. unfold session_view. cbn. now rewrite E.
  - congruence.
  - injection H as <-. session_crush.
  - injection H as <-. session_crush.
  - destruct (sleep_busy s); [discriminate|]. injection H as <-. session_crush.
  - injection H as <-. session_crush.
  - resume_case H Er. session_crush.
  - resume_case H Er. session_crush.
  - resume_case H Er. session_crush.
  - unfold resuming in H.
    destruct (resume ChatPending (pending (net s))) as [rest|] eqn:Er;
      [|discriminate].
    injection H as <-. now exists rest.
  - resume_case H Er. session_crush.
  - resume_case H Er. session_crush.
  - resume_case H Er. session_crush.
Qed.

Lemma with_input_session text s :
  session_view (with_input text s) = session_view s.
Proof. reflexivity. Qed.

Lemma toggle_click_session s :
  isSending (vars (toggle_click s)) = isSending (vars s) /\
  composer (toggle_click s) = composer s /\
  net (toggle_click s) = net s /\
  output_flags (toggle_click s)
  = (negb (showToolOutput (vars s)), negb (showToolOutput (vars s))).
Proof. repeat split. Qed.

Lemma session_view_parts s s' :
  session_view s' = session_view s ->
  isSending (vars s') = isSending (vars s) /\
  output_flags s' = output_flags s /\
  input_disabled (composer s') = input_disabled (composer s) /\
  send_disabled (composer s') = send_disabled (composer s) /\
  chat_in_flight s' = chat_in_flight s /\
  chat_requests s' = chat_requests s.
Proof.
  unfold session_view.
  generalize (output_flags s) (output_flags s').
  intros f f' [= -> -> -> -> -> ->]. repeat split.
Qed.

Lemma single_flight_view s s' :
  session_view s' = session_view s -> single_flight s -> single_flight s'.
Proof.
  intros E. destruct (session_view_parts _ _ E) as (E1 & _ & E3 & E4 & E5 & _).
  unfold single_flight. now rewrite E1, E3, E4, E5.
Qed.

Lemma step_single_flight e s s' :
  step e s = Some s' -> single_flight s -> single_flight s'.
Proof.
  intros H Hsf. apply step_session in H. destruct e;
    try (now apply (single_flight_view _ _ H)).
  - subst s'. now apply sendMessage_single_flight.
  - subst s'. now apply sendMessage_single_flight.
  - subst s'. apply sendMessage_single_flight.
    now apply (single_flight_view s).
  - subst s'. destruct (toggle_click_session s) as (E1 & E2 & E3 & _).
    unfold single_flight, chat_in_flight in *. now rewrite E1, E2, E3.
  - destruct H as (rest & Er & ->).
    destruct (sendMessage_settled_session o (set_pending rest s))
      as (E1 & _ & E3 & E4 & _ & E6 & _).
    apply resume_count in Er. cbn [is_chat] in Er.
    destruct Hsf as [Hc _]. unfold single_flight, chat_in_flight in *.
    rewrite E1, E3, E4, E6. cbn [set_pending set_net net pending].
    split; [|discriminate].
    destruct (isSending (vars s)); lia.
Qed.

Lemma initial_single_flight doc : single_flight (initial_state doc).
Proof. split; [reflexivity | discriminate]. Qed.

Lemma reachable_single_flight doc s : reachable doc s -> single_flight s.
Proof.
  induction 1 as [|e s s' _ IH Hstep]; [apply initial_single_flight|].
  now apply (step_single_flight e s).
Qed.

(** While no chat request settles, a request once issued stays the only
    one, and the controls stay disabled. *)
Lemma run_while_sending es :
  forall s s',
    forallb (fun e => negb (is_chat_settled e)) es = true ->
    isSending (vars s) = true ->
    input_disabled (composer s) = true ->
    send_disabled (composer s) = true ->
    run es s = Some s' ->
    isSending (vars s') = true /\ input_disabled (composer s') = true /\
    send_disabled (composer s') = true /\ chat_requests s' = chat_requests s.
Proof.
  induction es as [|e es IH]; intros s s' Hes Hs Hi Hd Hrun.
  - injection Hrun as <-. now repeat split.
  - cbn [forallb] in Hes. apply andb_true_iff in Hes as [He Hes].
    cbn [run] in Hrun. destruct (step e s) as [s1|] eqn:Hstep; [|discriminate].
    assert (K : isSending (vars s1) = true /\
                input_disabled (composer s1) = true /\
                send_disabled (composer s1) = true /\
                chat_requests s1 = chat_requests s).
    { apply step_session in Hstep. destruct e; try discriminate He;
        try (destruct (session_view_parts _ _ Hstep)
               as (E1 & _ & E3 & E4 & _ & E6); now rewrite E1, E3, E4, E6).
      - subst s1. now rewrite sendMessage_guarded.
      - subst s1. now rewrite sendMessage_guarded.
      - subst s1. now rewrite sendMessage_guarded.
      - subst s1. now repeat split. }
    destruct K as (K1 & K2 & K3 & K4).
    destruct (IH s1 s' Hes K1 K2 K3 Hrun) as (R1 & R2 & R3 & R4).
    repeat split; try assumption. congruence.
Qed.

(** C3: [sendMessage] does nothing while [isSending] is set or when the
    trimmed input is empty.  In every reachable state at most one chat
    request is in flight, and while one is, the guard is set and the input
    and the send button are disabled.  After a call that issues a request,
    whatever happens before that request settles, further send attempts
    included, exactly one request has been issued and the controls are
    still disabled. *)
Theorem C3_single_flight :
  (forall s, isSending (vars s) = true -> sendMessage s = s) /\
  (forall s, trim (input_value (composer s)) = [] -> sendMessage s = s) /\
  (forall doc s,
     reachable doc s ->
     chat_in_flight s <= 1 /\
     (chat_in_flight s = 1 ->
      isSending (vars s) = true /\ input_disabled (composer s) = true /\
      send_disabled (composer s) = true)) /\
  (forall s es s',
     isSending (vars s) = false ->
     trim (input_value (composer s)) <> [] ->
     forallb (fun e => negb (is_chat_settled e)) es = true ->
     run es (sendMessage s) = Some s' ->
     sendMessage (sendMessage s) = sendMessage s /\
     chat_requests s' = S (chat_requests s) /\
     isSending (vars s') = true /\ input_disabled (composer s') = true /\
     send_disabled (composer s') = true).
Proof.
  split; [exact sendMessage_guarded|]. split; [exact sendMessage_blank|]. split.
  - intros doc s Hr. destruct (reachable_single_flight _ _ Hr) as [Hc Hd].
    destruct (isSending (vars s)); rewrite Hc.
    + split; [lia|]. intros _. destruct (Hd eq_refl). now repeat split.
    + split; [lia | discriminate].
  - intros s es s' Hs Ht Hes Hrun.
    destruct (sendMessage_issues s Hs Ht) as (H1 & _ & H3 & H4 & _).
    split; [now apply sendMessage_guarded|].
    destruct (run_while_sending es (sendMessage s) s' Hes H1) as (R1 & R2 & R3 & R4);
      try assumption; try (now rewrite H3).
    repeat split; try assumption.
    rewrite R4. unfold chat_requests. rewrite H4, chat_requests_app.
    cbn [is_chat_request]. lia.
Qed.

Lemma C3_single_flight_witness :
  exists s',
    run [ChipClick (js "again"); ToggleClick]
        (sendMessage (with_input (js " hello ") (initial_state blank_document)))
    = Some s' /\
    chat_requests s' = 1 /\ input_disabled (composer s') = true.
Proof.
  eexists. split; [reflexivity|].
  destruct (proj2 (proj2 (proj2 C3_single_flight))
              (with_input (js " hello ") (initial_state blank_document))
              [ChipClick (js "again"); ToggleClick] _
              eq_refl ltac:(discriminate) eq_refl eq_refl)
    as (_ & Hn & _ & Hi & _).
  split; [exact Hn | exact Hi].
Defined.

(* ===================================================================== *)
(** ** Cleanup after a send *)
(* ===================================================================== *)

(** C4: however the awaited response ends (success, HTTP status failure,
    network failure, parse failure), when [sendMessage] is done the guard
    is clear, the input and the send button are enabled and the input has
    the focus; a following send with non-blank input issues a request. *)
Theorem C4_cleanup_on_every_exit (o : Settled ChatResponse) (s : State) :
  let s' := sendMessage_settled o s in
  isSending (vars s') = false /\
  input_disabled (composer s') = false /\
  send_disabled (composer s') = false /\
  input_focused (composer s') = true /\
  (forall s0 s1, step (ChatSettled o) s0 = Some s1 ->
     isSending (vars s1) = false /\ input_disabled (composer s1) = false /\
     send_disabled (composer s1) = false /\
     input_focused (composer s1) = true) /\
  (forall text, trim text <> [] ->
     requests (net (sendMessage (with_input text s')))
     = requests (net s)
       ++ [ChatRequest (showToolOutput (vars s)) (selectedModel (vars s'))
                       (trim text)]).
Proof.
  intros s'. subst s'.
  destruct (sendMessage_settled_session o s) as (E1 & E2 & E3 & E4 & E5 & E6 & _).
  repeat split; try assumption.
  - apply step_session in H. destruct H as (rest & _ & ->).
    apply sendMessage_settled_session.
  - apply step_session in H. destruct H as (rest & _ & ->).
    apply sendMessage_settled_session.
  - apply step_session in H. destruct H as (rest & _ & ->).
    apply sendMessage_settled_session.
  - apply step_session in H. destruct H as (rest & _ & ->).
    apply sendMessage_settled_session.
  - intros text Ht.
    destruct (sendMessage_issues (with_input text (sendMessage_settled o s)))
      as (_ & _ & _ & H4 & _); [exact E1 | exact Ht |].
    rewrite H4. cbn [with_input set_composer composer input_value net vars].
    rewrite E6.
    assert (Ef : showToolOutput (vars (sendMessage_settled o s))
                 = showToolOutput (vars s)) by exact (f_equal fst E2).
    now rewrite Ef.
Qed.

Lemma C4_cleanup_on_every_exit_witness :
  requests
    (net (sendMessage
            (with_input (js "next")
               (sendMessage_settled (HttpFailure 500)
                  (sendMessage (with_input (js "hello") blank_document))))))
  = [ChatRequest true (js "gemini-2.5-flash") (js "hello");
     ChatRequest true (js "gemini-2.5-flash") (js "next")].
Proof.
  apply (C4_cleanup_on_every_exit (HttpFailure 500)
           (sendMessage (with_input (js "hello") blank_document))).
  discriminate.
Defined.

(* ===================================================================== *)
(** ** The tool-output toggle *)
(* ===================================================================== *)

Lemma cards_map f l : cards (List.map (on_card f) l) = List.map f (cards l).
Proof.
  induction l as [|[|c] l IH]; simpl; [reflexivity | exact IH | now rewrite IH].
Qed.

Lemma sendMessage_flags s : output_flags (sendMessage s) = output_flags s.
Proof.
  destruct (isSending (vars s)) eqn:Hs; [now rewrite sendMessage_guarded|].
  destruct (trim (input_value (composer s))) as [|c r] eqn:Ht;
    [now rewrite sendMessage_blank|].
  apply sendMessage_issues; [assumption | rewrite Ht; discriminate].
Qed.

Lemma step_flags e s s' :
  step e s = Some s' -> is_toggle e = false -> output_flags s' = output_flags s.
Proof.
  intros H He. apply step_session in H. destruct e; try discriminate He;
    try (now apply session_view_parts in H).
  - subst s'. apply sendMessage_flags.
  - subst s'. apply sendMessage_flags.
  - subst s'. now rewrite sendMessage_flags.
  - destruct H as (rest & _ & ->).
    now destruct (sendMessage_settled_session o (set_pending rest s))
      as (_ & -> & _).
Qed.

Lemma step_flags_coupled e s s' :
  step e s = Some s' ->
  is_toggle e = true \/ showToolOutput (vars s) = expandAllTools (vars s) ->
  showToolOutput (vars s') = expandAllTools (vars s').
Proof.
  intros H [He|Heq].
  - destruct e; try discriminate He. cbn [step] in H. injection H as <-.
    reflexivity.
  - destruct (is_toggle e) eqn:He.
    + destruct e; try discriminate He. cbn [step] in H. injection H as <-.
      reflexivity.
    + pose proof (step_flags _ _ _ H He) as E. unfold output_flags in E.
      injection E as -> ->. exact Heq.
Qed.

Lemma run_coupled es :
  forall s s', run es s = Some s' ->
    showToolOutput (vars s) = expandAllTools (vars s) ->
    showToolOutput (vars s') = expandAllTools (vars s').
Proof.
  induction es as [|e es IH]; intros s s' Hrun Hc.
  - now injection Hrun as <-.
  - cbn [run] in Hrun. destruct (step e s) as [s1|] eqn:Hstep; [|discriminate].
    apply (IH s1 s' Hrun). apply (step_flags_coupled e s); auto.
Qed.

Lemma run_flags es :
  forall s s', run es s = Some s' ->
    if existsb is_toggle es
    then showToolOutput (vars s') = expandAllTools (vars s')
    else output_flags s' = output_flags s.
Proof.
  induction es as [|e es IH]; intros s s' Hrun.
  - injection Hrun as <-. reflexivity.
  - cbn [run] in Hrun. destruct (step e s) as [s1|] eqn:Hstep; [|discriminate].
    specialize (IH s1 s' Hrun). cbn [existsb].
    destruct (is_toggle e) eqn:He; cbn [orb].
    + apply (run_coupled es s1 s' Hrun).
      apply (step_flags_coupled e s); auto.
    + destruct (existsb is_toggle es); [exact IH|].
      rewrite IH. now apply (step_flags e).
Qed.

(** C6, as stated, at the initial state: the two flags start apart, and the
    first click leaves [expandAllTools] as it was. *)
Lemma C6_flags_start_apart :
  reachable blank_document (initial_state blank_document) /\
  showToolOutput (vars (initial_state blank_document)) = true /\
  expandAllTools (vars (initial_state blank_document)) = false /\
  showToolOutput (vars (initial_state blank_document))
  <> expandAllTools (vars (initial_state blank_document)) /\
  expandAllTools (vars (toggle_click (initial_state blank_document)))
  = expandAllTools (vars (initial_state blank_document)).
Proof.
  split; [constructor|]. repeat split. discriminate.
Qed.

(** C6 (amended): the script starts with [showToolOutput] set and
    [expandAllTools] clear.  A click on the toggle negates [showToolOutput]
    and gives [expandAllTools] the new value, so the two flags are equal in
    every state reached after at least one click, and keep their initial
    values until the first.  The same click sets the detail container of
    every rendered card to the new flag value, changes nothing else on the
    cards and issues no request. *)
Theorem C6_toggle_coupling :
  (forall doc, output_flags (initial_state doc) = (true, false)) /\
  (forall s,
     showToolOutput (vars (toggle_click s)) = negb (showToolOutput (vars s)) /\
     expandAllTools (vars (toggle_click s))
     = showToolOutput (vars (toggle_click s)) /\
     requests (net (toggle_click s)) = requests (net s) /\
     pending (net (toggle_click s)) = pending (net s)) /\
  (forall s,
     has_toolsBody (page s) = true ->
     rendered_cards (toggle_click s)
     = List.map (with_details_display
                   (if expandAllTools (vars (toggle_click s))
                    then DisplayBlock else DisplayNone))
         (rendered_cards s) /\
     Forall (fun c =>
               card_details_display c
               = if expandAllTools (vars (toggle_click s))
                 then DisplayBlock else DisplayNone)
            (rendered_cards (toggle_click s))) /\
  (forall doc es s,
     run es (initial_state doc) = Some s ->
     if existsb is_toggle es
     then showToolOutput (vars s) = expandAllTools (vars s)
     else output_flags s = (true, false)).
Proof.
  split; [reflexivity|]. split; [now repeat split|]. split.
  - intros s Hb. unfold rendered_cards, toggle_click.
    cbn [panel set_panel toolsBody set_vars page vars expandAllTools].
    rewrite Hb, cards_map. split; [reflexivity|].
    apply Forall_forall. intros c Hc. apply in_map_iff in Hc as (c0 & <- & _).
    reflexivity.
  - intros doc es s Hrun. exact (run_flags es _ _ Hrun).
Qed.

Lemma C6_toggle_coupling_witness :
  rendered_cards
    (toggle_click
       (toggle_click
          (fst (updateTools [failed_by_status; timed_tool]
                            (initial_state blank_document)))))
  = List.map (with_details_display DisplayBlock)
      (rendered_cards
         (toggle_click
            (fst (updateTools [failed_by_status; timed_tool]
                              (initial_state blank_document))))).
Proof.
  exact (proj1 (proj1 (proj2 (proj2 C6_toggle_coupling))
                  (toggle_click
                     (fst (updateTools [failed_by_status; timed_tool]
                                       (initial_state blank_document))))
                  eq_refl)).
Defined.

(* ===================================================================== *)
(** ** Handling a chat response *)
(* ===================================================================== *)

Lemma outside_conversation_parts s s' :
  outside_conversation s' = outside_conversation s ->
  page s' = page s /\ vars s' = vars s /\ panel s' = panel s.
Proof. unfold outside_conversation. intros [= -> -> _ -> _ _]. repeat split. Qed.

Lemma set_toolsBody_outside l s s2 :
  outside_conversation s2 = outside_conversation s ->
  outside_conversation (set_toolsBody l s2)
  = outside_conversation (set_toolsBody l s).
Proof.
  unfold outside_conversation, set_toolsBody. cbn.
  intros [= -> -> -> -> -> ->]. reflexivity.
Qed.

Lemma set_toolsEmpty_display_outside d s s2 :
  outside_conversation s2 = outside_conversation s ->
  outside_conversation (set_toolsEmpty_display d s2)
  = outside_conversation (set_toolsEmpty_display d s).
Proof.
  unfold outside_conversation, set_toolsEmpty_display. cbn.
  intros [= -> -> -> -> -> ->]. reflexivity.
Qed.

(** The panel is rendered from the page, the flags and the panel alone. *)
Lemma forEach_tool_independent tools :
  forall s s2,
    outside_conversation s2 = outside_conversation s ->
    panel (fst (forEach_tool tools s2)) = panel (fst (forEach_tool tools s)) /\
    snd (forEach_tool tools s2) = snd (forEach_tool tools s).
Proof.
  induction tools as [|t tools IH]; intros s s2 E;
    destruct (outside_conversation_parts _ _ E) as (Ep & Ev & Epn).
  - cbn. split; [exact Epn | reflexivity].
  - cbn [forEach_tool]. rewrite Ep, Ev, Epn.
    destruct (renderTool (page s) (expandAllTools (vars s)) t) as [card|m].
    + apply IH. now apply set_toolsBody_outside.
    + cbn. split; [exact Epn | reflexivity].
Qed.

Lemma updateTools_independent tools s s2 :
  outside_conversation s2 = outside_conversation s ->
  panel (fst (updateTools tools s2)) = panel (fst (updateTools tools s)) /\
  snd (updateTools tools s2) = snd (updateTools tools s).
Proof.
  intros E. unfold updateTools.
  destruct (outside_conversation_parts _ _ E) as (Ep & Ev & Epn).
  rewrite Ep. destruct (has_toolsBody (page s)); cbn [negb].
  2:{ cbn. split; [exact Epn | reflexivity]. }
  destruct tools as [|t tools].
  - cbn [page set_toolsBody set_panel]. rewrite Ep.
    destruct (has_toolsEmpty (page s)); cbn; rewrite Epn; split; reflexivity.
  - apply forEach_tool_independent.
    cbn [page set_toolsBody set_panel]. rewrite Ep.
    destruct (has_toolsEmpty (page s)).
    + now apply set_toolsEmpty_display_outside, set_toolsBody_outside.
    + now apply set_toolsBody_outside.
Qed.

Lemma updateTools_conversation tools s :
  conversation (fst (updateTools tools s)) = conversation s.
Proof.
  pose proof (updateTools_outside tools s) as E. unfold outside_panel in E.
  now injection E.
Qed.

Lemma append_assistant_messages_nodes ms :
  forall s,
    messagesContent (conversation (append_assistant_messages ms s))
    = messagesContent (conversation s)
      ++ List.map (fun c => BubbleNode (bubble_of (js "assistant") c Now))
           (List.map (fun m => or_str (cm_content m) (js ""))
              (filter (fun m => is_assistant_role (cm_role m)) ms)).
Proof.
  unfold append_assistant_messages.
  induction ms as [|m ms IH]; intros s; cbn [fold_left filter].
  - now rewrite app_nil_r.
  - rewrite IH. destruct (is_assistant_role (cm_role m)); [|reflexivity].
    rewrite appendMessage_nodes. cbn [List.map]. now rewrite <- app_assoc.
Qed.

Lemma chat_finally_views s :
  conversation (chat_finally s) = conversation s /\
  panel (chat_finally s) = panel s.
Proof. split; reflexivity. Qed.







(* ===================================================================== *)
(** ** The welcome placeholder *)
(* ===================================================================== *)

Lemma appendMessage_hidden r c t s :
  welcome_hidden s -> welcome_hidden (appendMessage r c t s).
Proof.
  unfold welcome_hidden. rewrite appendMessage_welcome.
  now destruct (streq r (js "user") && has_welcomeMessage (page s)).
Qed.

Lemma showTyping_hidden s : welcome_hidden s -> welcome_hidden (showTyping s).
Proof. unfold welcome_hidden. now rewrite showTyping_welcome. Qed.

Lemma hideTyping_hidden s : welcome_hidden s -> welcome_hidden (hideTyping s).
Proof. unfold welcome_hidden. now rewrite hideTyping_welcome. Qed.

Lemma updateTools_hidden tools s :
  welcome_hidden s -> welcome_hidden (fst (updateTools tools s)).
Proof. unfold welcome_hidden. now rewrite updateTools_conversation. Qed.

Lemma append_assistant_messages_hidden ms s :
  welcome_hidden s -> welcome_hidden (append_assistant_messages ms s).
Proof.
  unfold append_assistant_messages.
  revert s; induction ms as [|m ms IH]; intros s H; [exact H|].
  cbn [fold_left]. apply IH.
  destruct (is_assistant_role (cm_role m)); [|exact H].
  now apply appendMessage_hidden.
Qed.

Lemma replay_messages_hidden ms s :
  welcome_hidden s -> welcome_hidden (replay_messages ms s).
Proof.
  unfold replay_messages.
  revert s; induction ms as [|m ms IH]; intros s H; [exact H|].
  cbn [fold_left]. apply IH. now apply appendMessage_hidden.
Qed.

Lemma chat_try_hidden o s :
  welcome_hidden s -> welcome_hidden (fst (chat_try o s)).
Proof.
  intros H. destruct o as [m|code|m|data]; try exact H. cbn [chat_try].
  apply hideTyping_hidden in H.
  destruct (cr_error data) as [[|c r]|];
    destruct (cr_tools data) as [tools|];
    destruct (cr_messages data) as [ms|];
    destruct (cr_reply data) as [[|c' r']|];
    cbn [fst];
    repeat first [ assumption
                 | apply updateTools_hidden
                 | apply append_assistant_messages_hidden
                 | apply appendMessage_hidden ].
Qed.

Lemma chat_catch_hidden r :
  welcome_hidden (fst r) -> welcome_hidden (chat_catch r).
Proof.
  destruct r as [s [|m]]; intros H; [exact H|].
  now apply appendMessage_hidden, hideTyping_hidden.
Qed.

Lemma sendMessage_settled_hidden o s :
  welcome_hidden s -> welcome_hidden (sendMessage_settled o s).
Proof.
  intros H. unfold sendMessage_settled.
  change (welcome_hidden (chat_catch (chat_try o s))).
  now apply chat_catch_hidden, chat_try_hidden.
Qed.

Lemma sendMessage_hidden s : welcome_hidden s -> welcome_hidden (sendMessage s).
Proof.
  intros H. unfold sendMessage. destruct (isSending (vars s)); [exact H|].
  destruct (negb (nonempty (trim (input_value (composer s))))); [exact H|].
  match goal with
  | |- welcome_hidden (fetch _ _ ?x) => change (welcome_hidden x)
  end.
  apply showTyping_hidden, appendMessage_hidden. exact H.
Qed.

Lemma loadChatHistory_settled_hidden o s :
  welcome_hidden s -> welcome_hidden (loadChatHistory_settled o s).
Proof.
  intros H. destruct o as [m|code|m|data]; try exact H.
  cbn [loadChatHistory_settled].
  destruct (hr_messages data) as [[|m ms]|]; try exact H.
  assert (H1 : welcome_hidden
                 (if has_welcomeMessage (page s)
                  then set_welcome_display DisplayNone s else s))
    by (destruct (has_welcomeMessage (page s)); [reflexivity | exact H]).
  destruct (hr_tool_interactions data) as [[|t ts]|];
    repeat first [ apply updateTools_hidden | apply replay_messages_hidden ];
    exact H1.
Qed.

(** Every turn of the event loop but the two that call [resetChatUI] keeps
    a hidden placeholder hidden. *)
Lemma step_hidden e s s' :
  step e s = Some s' -> welcome_hidden s ->
  welcome_hidden s' \/ e = ResetClick true \/ e = SleepReloadTimerFires.
Proof.
  intros H Hh. destruct e; cbn [step] in H; unfold resuming in H.
  - destruct (send_disabled (composer s)); [discriminate|].
    injection H as <-. left. now apply sendMessage_hidden.
  - destruct (input_disabled (composer s)); [discriminate|].
    injection H as <-. left. now apply sendMessage_hidden.
  - injection H as <-. left. apply sendMessage_hidden. exact Hh.
  - destruct (input_disabled (composer s)); [discriminate|].
    injection H as <-. left. exact Hh.
  - injection H as <-. left. exact Hh.
  - injection H as <-. left. exact Hh.
  - injection H as <-. destruct confirmed.
    + right; left; reflexivity.
    + left. exact Hh.
  - destruct (sleep_busy s); [discriminate|]. injection H as <-. left.
    destruct confirmed; [|exact Hh]. unfold sleep_click.
    change (welcome_hidden
              (appendMessage (js "system") (js "Starting sleep cycle...") Now
                 (set_sleep_busy true s))).
    now apply appendMessage_hidden.
  - injection H as <-. left. unfold model_change. now apply appendMessage_hidden.
  - destruct (resume _ _); [|discriminate]. injection H as <-. left. exact Hh.
  - destruct (resume _ _) as [l|]; [|discriminate]. injection H as <-. left.
    unfold loadChatHistory.
    change (welcome_hidden (loadAvailableModels_settled o (set_pending l s))).
    unfold loadAvailableModels_settled.
    destruct o as [m|code|m|[models default]]; try exact Hh.
    match goal with |- context [if ?b then _ else _] => destruct b end;
      exact Hh.
  - destruct (resume _ _); [|discriminate]. injection H as <-. left.
    now apply loadChatHistory_settled_hidden.
  - destruct (resume _ _); [|discriminate]. injection H as <-. left.
    now apply sendMessage_settled_hidden.
  - destruct (resume _ _); [|discriminate]. injection H as <-. left. exact Hh.
  - destruct (resume _ _) as [l|]; [|discriminate]. injection H as <-. left.
    unfold sleep_settled.
    match goal with
    | |- welcome_hidden (set_sleep_busy _ ?x) => change (welcome_hidden x)
    end.
    destruct o as [m|code|m|[st message]];
      try (now apply appendMessage_hidden).
    match goal with |- context [if ?b then _ else _] => destruct b end.
    + match goal with
      | |- welcome_hidden (set_net _ ?x) => change (welcome_hidden x)
      end.
      now apply appendMessage_hidden.
    + now apply appendMessage_hidden.
  - right; right; reflexivity.
Qed.

Lemma apply_ops_hidden ops :
  forall s, forallb (fun op => negb (is_reset op)) ops = true ->
            welcome_hidden s -> welcome_hidden (apply_ops ops s).
Proof.
  unfold apply_ops.
  induction ops as [|op ops IH]; intros s Hops H; [exact H|].
  cbn [forallb] in Hops. apply andb_true_iff in Hops as [Hop Hops].
  cbn [fold_left]. apply IH; [exact Hops|].
  destruct op; try discriminate Hop; cbn [apply_op].
  - now apply appendMessage_hidden.
  - now apply showTyping_hidden.
  - now apply hideTyping_hidden.
  - now apply updateTools_hidden.
Qed.

(** C7: an append with role "user" hides the welcome placeholder; no
    sequence of appends, [showTyping], [hideTyping] and tool renders shows
    it again; [resetChatUI] shows it, and with that clears the bubbles and
    puts the empty-state indicator back into the tool panel; and of all the
    events of the page only the two that run [resetChatUI] can end with the
    placeholder shown once it is hidden. *)
Theorem C7_welcome_one_way :
  (forall content time s,
     has_welcomeMessage (page s) = true ->
     welcome_hidden (appendMessage (js "user") content time s)) /\
  (forall ops s,
     forallb (fun op => negb (is_reset op)) ops = true ->
     welcome_hidden s -> welcome_hidden (apply_ops ops s)) /\
  (forall s,
     has_welcomeMessage (page s) = true ->
     has_toolsBody (page s) = true -> has_toolsEmpty (page s) = true ->
     welcome_display (conversation (resetChatUI s)) = DisplayUnset /\
     messagesContent (conversation (resetChatUI s)) = [WelcomeNode] /\
     toolsBody (panel (resetChatUI s)) = [EmptyNode] /\
     toolsEmpty_display (panel (resetChatUI s)) = DisplayBlock) /\
  (forall e s s',
     step e s = Some s' -> welcome_hidden s -> ~ welcome_hidden s' ->
     e = ResetClick true \/ e = SleepReloadTimerFires).
Proof.
  split; [|split; [|split]].
  - intros content time s Hw. unfold welcome_hidden.
    rewrite appendMessage_welcome, Hw. reflexivity.
  - exact apply_ops_hidden.
  - intros s Hw Hb He. unfold resetChatUI. rewrite Hw. cbn [page set_conversation].
    rewrite Hb, He. repeat split.
  - intros e s s' Hstep Hh Hn.
    destruct (step_hidden e s s' Hstep Hh) as [H|H]; [contradiction | exact H].
Qed.

Lemma C7_welcome_one_way_witness :
  welcome_hidden
    (apply_ops [OpShowTyping; OpAppend (js "assistant") (js "hi") Now;
                OpHideTyping; OpUpdateTools [timed_tool]]
       (appendMessage (js "user") (js "hello") Now blank_document)) /\
  welcome_display
    (conversation
       (resetChatUI (appendMessage (js "user") (js "hello") Now blank_document)))
  = DisplayUnset.
Proof.
  split.
  - apply (proj1 (proj2 C7_welcome_one_way)); [reflexivity|].
    apply (proj1 C7_welcome_one_way). reflexivity.
  - apply (proj1 (proj2 (proj2 C7_welcome_one_way))); reflexivity.
Defined.

(* ===================================================================== *)
(** ** The typing indicator *)
(* ===================================================================== *)

Lemma existsb_typing_count l :
  existsb is_typing l = negb (length (filter is_typing l) =? 0).
Proof.
  induction l as [|n l IH]; [reflexivity|].
  cbn [existsb filter]. destruct (is_typing n); [reflexivity | exact IH].
Qed.

Lemma remove_typing_count l :
  length (filter is_typing (remove_typing l))
  = pred (length (filter is_typing l)).
Proof.
  induction l as [|n l IH]; [reflexivity|].
  destruct n; cbn [remove_typing filter is_typing]; try exact IH.
  reflexivity.
Qed.

Lemma showTyping_count s :
  typing_nodes (showTyping s)
  = if typing_nodes s =? 0 then 1 else typing_nodes s.
Proof.
  unfold showTyping, typing_nodes. rewrite existsb_typing_count.
  destruct (length (filter is_typing (messagesContent (conversation s))) =? 0)
    eqn:E; cbn [negb]; [|reflexivity].
  apply Nat.eqb_eq in E.
  cbn [append_node set_conversation conversation messagesContent].
  rewrite filter_app, length_app, E. reflexivity.
Qed.

Lemma hideTyping_count s : typing_nodes (hideTyping s) = pred (typing_nodes s).
Proof.
  unfold hideTyping, typing_nodes. rewrite existsb_typing_count.
  destruct (length (filter is_typing (messagesContent (conversation s))) =? 0)
    eqn:E; cbn [negb].
  - apply Nat.eqb_eq in E. now rewrite E.
  - cbn [set_conversation conversation messagesContent].
    apply remove_typing_count.
Qed.

Lemma appendMessage_count r c t s :
  typing_nodes (appendMessage r c t s) = typing_nodes s.
Proof.
  unfold typing_nodes. rewrite appendMessage_nodes, filter_app, length_app.
  cbn. lia.
Qed.

Lemma updateTools_count tools s :
  typing_nodes (fst (updateTools tools s)) = typing_nodes s.
Proof. unfold typing_nodes. now rewrite updateTools_conversation. Qed.

Lemma resetChatUI_count s : typing_nodes (resetChatUI s) = 0.
Proof.
  unfold resetChatUI, typing_nodes.
  destruct (has_welcomeMessage (page s)); cbn;
    destruct (has_toolsBody (page s)); cbn;
    destruct (has_toolsEmpty (page s)); reflexivity.
Qed.

Lemma apply_ops_count ops :
  forall s, typing_nodes s <= 1 -> typing_nodes (apply_ops ops s) <= 1.
Proof.
  unfold apply_ops.
  induction ops as [|op ops IH]; intros s H; [exact H|].
  cbn [fold_left]. apply IH. destruct op; cbn [apply_op].
  - now rewrite appendMessage_count.
  - rewrite showTyping_count. destruct (typing_nodes s =? 0); [lia | exact H].
  - rewrite hideTyping_count. lia.
  - now rewrite updateTools_count.
  - rewrite resetChatUI_count. lia.
Qed.

Lemma showTyping_idempotent s : showTyping (showTyping s) = showTyping s.
Proof.
  unfold showTyping at 2.
  destruct (existsb is_typing (messagesContent (conversation s))) eqn:E.
  - reflexivity.
  - unfold showTyping.
    cbn [append_node set_conversation conversation messagesContent].
    rewrite existsb_app, E. reflexivity.
Qed.

Lemma hideTyping_absent s : typing_nodes s = 0 -> hideTyping s = s.
Proof.
  unfold typing_nodes, hideTyping. intros H.
  now rewrite existsb_typing_count, H.
Qed.

(** C8: [showTyping] is idempotent and [hideTyping] does nothing when no
    placeholder exists; after any sequence of view operations on a
    conversation that began with at most one placeholder, two calls of
    [showTyping] in a row leave exactly one. *)
Theorem C8_typing_placeholder :
  (forall s, showTyping (showTyping s) = showTyping s) /\
  (forall s, typing_nodes s = 0 -> hideTyping s = s) /\
  (forall ops s,
     typing_nodes s <= 1 ->
     typing_nodes (apply_ops ops s) <= 1 /\
     typing_nodes (showTyping (showTyping (apply_ops ops s))) = 1 /\
     typing_nodes (hideTyping (showTyping (apply_ops ops s))) = 0).
Proof.
  split; [exact showTyping_idempotent|]. split; [exact hideTyping_absent|].
  intros ops s H. pose proof (apply_ops_count ops s H) as Hc.
  split; [exact Hc|].
  rewrite showTyping_idempotent, hideTyping_count, showTyping_count.
  destruct (typing_nodes (apply_ops ops s)) as [|[|n]] eqn:E; cbn; try lia.
Qed.

Lemma C8_typing_placeholder_witness :
  typing_nodes
    (showTyping
       (showTyping
          (apply_ops [OpShowTyping; OpAppend (js "user") (js "hi") Now;
                      OpHideTyping; OpHideTyping]
                     blank_document))) = 1 /\
  hideTyping blank_document = blank_document.
Proof.
  split.
  - apply (proj2 (proj2 C8_typing_placeholder)). cbn. lia.
  - apply (proj1 (proj2 C8_typing_placeholder)). reflexivity.
Defined.

(* ===================================================================== *)
(** ** Loading the history *)
(* ===================================================================== *)

(** C10: a history response whose [messages] is absent or empty changes
    nothing, whatever its [tool_interactions] hold: no bubble, the welcome
    placeholder as it was, the tool panel as it was. *)
Theorem C10_empty_history_is_inert (data : HistoryResponse) (s : State) :
  hr_messages data = None \/ hr_messages data = Some [] ->
  loadChatHistory_settled (Body data) s = s /\
  (forall s',
     step (HistorySettled (Body data)) s = Some s' ->
     conversation s' = conversation s /\ panel s' = panel s /\
     vars s' = vars s /\ composer s' = composer s /\
     requests (net s') = requests (net s)).
Proof.
  intros H.
  assert (E : forall s0, loadChatHistory_settled (Body data) s0 = s0).
  { intros s0. cbn [loadChatHistory_settled]. now destruct H as [-> | ->]. }
  split; [apply E|].
  intros s' Hstep. cbn [step] in Hstep. unfold resuming in Hstep.
  destruct (resume HistoryPending (pending (net s))) as [rest|]; [|discriminate].
  rewrite E in Hstep. injection Hstep as <-. repeat split.
Qed.

Lemma C10_empty_history_is_inert_witness :
  hr_tool_interactions tools_only_history
  = Some [failed_by_status; timed_tool] /\
  loadChatHistory_settled (Body tools_only_history) blank_document
  = blank_document.
Proof.
  split; [reflexivity|].
  apply (C10_empty_history_is_inert tools_only_history blank_document).
  right. reflexivity.
Defined.

(* ===================================================================== *)
(** ** Rendering a bubble *)
(* ===================================================================== *)

(** C2, as stated, at the older script: [web/script.js] assigns the
    content as text, so the asterisks of ["**bold**"] stay and nothing is
    emphasised. *)
Lemma C2_base_variant_keeps_asterisks :
  messagesContent
    (conversation
       (appendMessage_base (js "assistant") (js "**bold**") Now blank_document))
  = [WelcomeNode;
     BubbleNode (bubble_of_base (js "assistant") (js "**bold**") Now)] /\
  bubble_body (bubble_of_base (js "assistant") (js "**bold**") Now)
  = AsText (js "**bold**") /\
  bubble_body (bubble_of_base (js "assistant") (js "**bold**") Now)
  <> AsMarkup (js "<b>bold</b>").
Proof. repeat split. discriminate. Qed.

(** C2 (amended): in [V1.1/web/script.js] the body of every appended
    bubble is the inline formatting applied to the escaped content, in that
    order.  Whatever the content, every [<] and [>] of the body belongs to
    a tag the formatter wrote; content without formatting characters comes
    out as escaped text, which the parser reads back as the content less
    its U+0000 code units, so as the content itself when it has none:
    [<b>] is shown and not interpreted; and a pair of double asterisks
    around text becomes a [b] element with the asterisks gone.  In the
    older [web/script.js] the body takes the content as text: markup in it
    is shown as written as well, and no formatting is applied. *)
Theorem C2_escape_then_format :
  (forall role content time s,
     messagesContent (conversation (appendMessage role content time s))
     = messagesContent (conversation s)
       ++ [BubbleNode (bubble_of role content time)] /\
     bubble_body (bubble_of role content time)
     = AsMarkup (inlineFormat (escapeHtml content)) /\
     only_renderer_tags (inlineFormat (escapeHtml content))) /\
  (forall content,
     Forall (fun c => is_delimiter c = false) content ->
     renderMarkup content = escapeHtml content /\
     Forall (fun c => c <> lt /\ c <> gt) (renderMarkup content) /\
     parsed_text (renderMarkup content) = drop_nul content /\
     (Forall (fun c => c <> NUL) content ->
      parsed_text (renderMarkup content) = content)) /\
  renderMarkup (js "<b>") = js "&lt;b&gt;" /\
  (forall p x q,
     Forall (fun c => is_delimiter c = false) p ->
     Forall (fun c => is_delimiter c = false) x ->
     Forall (fun c => is_delimiter c = false) q ->
     Forall (fun c => is_line_terminator c = false) x ->
     x <> [] ->
     renderMarkup (p ++ js "**" ++ x ++ js "**" ++ q)
     = escapeHtml p ++ js "<b>" ++ escapeHtml x ++ js "</b>" ++ escapeHtml q) /\
  renderMarkup (js "**bold**") = js "<b>bold</b>" /\
  (forall role content time s,
     messagesContent (conversation (appendMessage_base role content time s))
     = messagesContent (conversation s)
       ++ [BubbleNode (bubble_of_base role content time)] /\
     bubble_body (bubble_of_base role content time) = AsText content).
Proof.
  split; [|split; [|split; [|split; [|split]]]].
  - intros role content time s. split; [apply appendMessage_nodes|].
    split.
    + cbn [bubble_of bubble_body]. now rewrite renderMarkup_stages.
    + rewrite <- renderMarkup_stages. apply renderMarkup_ort.
  - exact renderMarkup_plain.
  - reflexivity.
  - exact renderMarkup_bold.
  - reflexivity.
  - intros role content time s. split; [|reflexivity].
    unfold appendMessage_base.
    destruct (streq role (js "user") && has_welcomeMessage (page s));
      reflexivity.
Qed.

Lemma C2_escape_then_format_witness :
  renderMarkup (js "a <i> tag and **1 < 2** & more")
  = js "a &lt;i&gt; tag and <b>1 &lt; 2</b> &amp; more" /\
  parsed_text (renderMarkup (js "<script>alert(1)</script>"))
  = js "<script>alert(1)</script>" /\
  parsed_text (renderMarkup (js "a&lt;" ++ [NUL] ++ js "b")) = js "a&lt;b".
Proof.
  split; [|split].
  - apply (proj1 (proj2 (proj2 (proj2 C2_escape_then_format)))
             (js "a <i> tag and ") (js "1 < 2") (js " & more"));
      try discriminate; repeat constructor.
  - apply (proj1 (proj2 C2_escape_then_format)
             (js "<script>alert(1)</script>"));
      repeat constructor; discriminate.
  - apply (proj1 (proj2 (proj2 (proj1 (proj2 C2_escape_then_format)
                                  (js "a&lt;" ++ [NUL] ++ js "b")
                                  ltac:(repeat constructor))))).
Defined.

(* ===================================================================== *)
(** ** More on renderMarkup: the other substitutions and their edges *)
(* ===================================================================== *)

Lemma span_not_stop (d : N) (x q : jsstring) :
  Forall (fun c => N.eqb c d = false) x ->
  span_not d (x ++ d :: q) = (x, d :: q).
Proof.
  induction 1 as [|c x Hc _ IH]; simpl.
  - now rewrite N.eqb_refl.
  - now rewrite Hc, IH.
Qed.

Lemma dot_plus_lazy_stop (d : N) (closer x after : jsstring) :
  x <> [] ->
  Forall (fun c => is_line_terminator c = false /\ N.eqb c d = false) x ->
  dot_plus_lazy (d :: closer) (x ++ (d :: closer) ++ after) = Some x.
Proof.
  intros Hne H. induction H as [|c x [Hc Hs] Hx IH]; [contradiction|].
  cbn [app dot_plus_lazy]. rewrite Hc. destruct x as [|c' x].
  - cbn [app]. change (d :: closer ++ after) with ((d :: closer) ++ after).
    now rewrite starts_with_app.
  - inversion Hx as [|? ? [_ Hs'] _]; subst.
    cbn [app starts_with]. rewrite N.eqb_sym in Hs'. rewrite Hs'.
    cbn [andb]. cbn [app] in IH. rewrite IH by discriminate. reflexivity.
Qed.

Lemma delimiter_free_units (l : jsstring) :
  Forall (fun c => is_delimiter c = false) l ->
  Forall (fun c => N.eqb c backtick = false) l /\
  Forall (fun c => N.eqb c star = false) l /\
  Forall (fun c => N.eqb c underscore = false) l /\
  Forall (fun c => N.eqb c CR || N.eqb c LF = false) l.
Proof.
  intros H. repeat split; revert H; apply Forall_impl; intros c Hc;
    now apply not_delimiter.
Qed.

Lemma delimiter_free_no_terminator (l : jsstring) :
  Forall (fun c => is_delimiter c = false) l ->
  Forall (fun c => is_line_terminator c = false) l ->
  forall d, is_delimiter d = true ->
  Forall (fun c => is_line_terminator c = false /\ N.eqb c d = false) l.
Proof.
  intros H1 H2 d Hd. rewrite Forall_forall in *. intros c Hc.
  split; [now apply H2|]. destruct (N.eqb c d) eqn:E; [|reflexivity].
  apply N.eqb_eq in E. subst c. rewrite (H1 d Hc) in Hd. discriminate.
Qed.

Lemma skipn_past (a b : jsstring) (n : nat) :
  n = length a -> skipn n (a ++ b) = b.
Proof. intros ->. now rewrite skipn_app, skipn_all, Nat.sub_diag. Qed.

(** The inline-code pass on one pair of backticks. *)
Lemma code_pass_pair (p x q : jsstring) :
  Forall (fun c => N.eqb c backtick = false) p ->
  Forall (fun c => N.eqb c backtick = false) x ->
  Forall (fun c => N.eqb c backtick = false) q ->
  x <> [] ->
  replace_global match_code code_template (p ++ backtick :: x ++ backtick :: q)
  = p ++ code_template x ++ q.
Proof.
  intros Hp Hx Hq Hne.
  rewrite (replace_global_inert match_code _ (fun c => N.eqb c backtick)
             match_code_starter) by exact Hp.
  assert (Em : match_code (backtick :: x ++ backtick :: q)
               = Some (x, length x + 2)).
  { cbn [match_code]. rewrite N.eqb_refl, span_not_stop by exact Hx.
    destruct x as [|c x]; [contradiction|].
    replace (length (c :: x) + 2) with (length x + 3) by (cbn [length]; lia).
    reflexivity. }
  rewrite (replace_global_match _ _ _ _ _ _ Em).
  replace (pred (length x + 2)) with (length (x ++ [backtick]))
    by (rewrite length_app; simpl; lia).
  replace (x ++ backtick :: q) with ((x ++ [backtick]) ++ q)
    by (rewrite <- app_assoc; reflexivity).
  rewrite (skipn_past (x ++ [backtick]) q) by reflexivity.
  now rewrite (replace_global_id match_code _ (fun c => N.eqb c backtick)
                 match_code_starter).
Qed.

(** A pass [opener (.+?) closer] on one delimited run. *)
Lemma delimited_pass_pair (o : N) (opener : jsstring) (template : jsstring -> jsstring)
      (p x q : jsstring) :
  Forall (fun c => N.eqb c o = false) p ->
  Forall (fun c => is_line_terminator c = false /\ N.eqb c o = false) x ->
  Forall (fun c => N.eqb c o = false) q ->
  x <> [] ->
  replace_global (match_delimited (o :: opener) (o :: opener)) template
    (p ++ (o :: opener) ++ x ++ (o :: opener) ++ q)
  = p ++ template x ++ q.
Proof.
  intros Hp Hx Hq Hne.
  rewrite (replace_global_inert _ _ (fun c => N.eqb c o)
             (match_delimited_starter o opener (o :: opener))) by exact Hp.
  assert (Em : match_delimited (o :: opener) (o :: opener)
                 ((o :: opener) ++ x ++ (o :: opener) ++ q)
               = Some (x, length (o :: opener) + length x
                          + length (o :: opener))).
  { unfold match_delimited. rewrite starts_with_app.
    rewrite skipn_past by reflexivity.
    now rewrite dot_plus_lazy_stop. }
  cbn [app] in Em |- *. rewrite (replace_global_match _ _ _ _ _ _ Em).
  replace (pred (length (o :: opener) + length x + length (o :: opener)))
    with (length (opener ++ x ++ o :: opener))
    by (cbn [length]; rewrite !length_app; cbn [length]; lia).
  replace (opener ++ x ++ o :: opener ++ q)
    with ((opener ++ x ++ o :: opener) ++ q)
    by (rewrite <- !app_assoc; reflexivity).
  rewrite (skipn_past (opener ++ x ++ o :: opener) q) by reflexivity.
  now rewrite (replace_global_id _ _ (fun c => N.eqb c o)
                 (match_delimited_starter o opener (o :: opener))).
Qed.

Lemma later_passes_inert (s : jsstring) :
  Forall (fun c => is_delimiter c = false) s ->
  replace_global match_newline br_template
    (replace_global match_italic italic_template
       (replace_global match_bold bold_template s)) = s.
Proof.
  intros H.
  rewrite (replace_global_id match_bold _ is_delimiter bold_starter) by exact H.
  rewrite (replace_global_id match_italic _ is_delimiter italic_starter)
    by exact H.
  now rewrite (replace_global_id match_newline _ is_delimiter newline_starter).
Qed.

Lemma tags_delimiter_free (t : jsstring) :
  In t renderer_tags -> Forall (fun c => is_delimiter c = false) t.
Proof. apply tag_units_inert. Qed.

(** X1: a pair of backticks around text, among text free of other
    formatting characters, becomes a [code] element around the escaped
    text, and the backticks are gone. *)
Theorem X1_inline_code (p x q : jsstring) :
  Forall (fun c => is_delimiter c = false) p ->
  Forall (fun c => is_delimiter c = false) x ->
  Forall (fun c => is_delimiter c = false) q ->
  x <> [] ->
  renderMarkup (p ++ [backtick] ++ x ++ [backtick] ++ q)
  = escapeHtml p ++ js "<code>" ++ escapeHtml x ++ js "</code>" ++ escapeHtml q.
Proof.
  intros Hp Hx Hq Hne. rewrite renderMarkup_stages, !escapeHtml_app.
  change (escapeHtml [backtick]) with [backtick].
  apply escapeHtml_inert in Hp, Hx, Hq.
  apply escapeHtml_nonempty in Hne.
  set (P := escapeHtml p) in *. set (X := escapeHtml x) in *.
  set (Q := escapeHtml q) in *.
  unfold inlineFormat. cbn [app].
  rewrite code_pass_pair; try assumption;
    try (now apply delimiter_free_units).
  rewrite later_passes_inert.
  - unfold code_template. now rewrite <- !app_assoc.
  - unfold code_template. repeat (apply Forall_app; split); auto;
      repeat constructor.
Qed.

Lemma X1_inline_code_witness :
  renderMarkup (js "run `ls -l <dir>` now")
  = js "run <code>ls -l &lt;dir&gt;</code> now".
Proof.
  apply (X1_inline_code (js "run ") (js "ls -l <dir>") (js " now"));
    try discriminate; repeat constructor.
Defined.

(** X2: a pair of underscores around text on one line, among text free of
    other formatting characters, becomes an [i] element around the escaped
    text, and the underscores are gone. *)
Theorem X2_italic (p x q : jsstring) :
  Forall (fun c => is_delimiter c = false) p ->
  Forall (fun c => is_delimiter c = false) x ->
  Forall (fun c => is_delimiter c = false) q ->
  Forall (fun c => is_line_terminator c = false) x ->
  x <> [] ->
  renderMarkup (p ++ [underscore] ++ x ++ [underscore] ++ q)
  = escapeHtml p ++ js "<i>" ++ escapeHtml x ++ js "</i>" ++ escapeHtml q.
Proof.
  intros Hp Hx Hq Hlt Hne. rewrite renderMarkup_stages, !escapeHtml_app.
  change (escapeHtml [underscore]) with [underscore].
  assert (Hlt' : Forall (fun c => is_line_terminator c = false) (escapeHtml x))
    by (apply escapeHtml_Forall; try assumption; repeat constructor).
  apply escapeHtml_inert in Hp, Hx, Hq.
  apply escapeHtml_nonempty in Hne.
  set (P := escapeHtml p) in *. set (X := escapeHtml x) in *.
  set (Q := escapeHtml q) in *.
  assert (F : Forall (fun c => N.eqb c backtick = false /\ N.eqb c star = false)
                     (P ++ [underscore] ++ X ++ [underscore] ++ Q)).
  { repeat (apply Forall_app; split);
      try (repeat constructor; fail);
      match goal with
      | |- Forall _ ?l =>
          let H := fresh in
          assert (H : Forall (fun c => is_delimiter c = false) l) by assumption;
          revert H; apply Forall_impl; intros c Hc; split;
          now apply not_delimiter
      end. }
  unfold inlineFormat.
  rewrite (replace_global_id match_code _ (fun c => N.eqb c backtick)
             match_code_starter)
    by (revert F; apply Forall_impl; tauto).
  rewrite (replace_global_id match_bold _ (fun c => N.eqb c star)
             (match_delimited_starter star [star] [star; star]))
    by (revert F; apply Forall_impl; tauto).
  unfold match_italic.
  rewrite (delimited_pass_pair underscore [] italic_template P X Q);
    try (now apply delimiter_free_units);
    try (now apply delimiter_free_no_terminator); try assumption.
  rewrite (replace_global_id match_newline _ is_delimiter newline_starter).
  - unfold italic_template. now rewrite <- !app_assoc.
  - unfold italic_template. repeat (apply Forall_app; split); auto;
      repeat constructor.
Qed.

Lemma X2_italic_witness :
  renderMarkup (js "an _important & new_ note")
  = js "an <i>important &amp; new</i> note".
Proof.
  apply (X2_italic (js "an ") (js "important & new") (js " note"));
    try discriminate; repeat constructor.
Defined.

Lemma escapeHtml_join (sep : jsstring) (lines : list jsstring) :
  escapeHtml sep = sep ->
  escapeHtml (join sep lines) = join sep (List.map escapeHtml lines).
Proof.
  intros Hs. induction lines as [|l lines IH]; [reflexivity|].
  destruct lines as [|l2 lines]; [reflexivity|].
  change (join sep (l :: l2 :: lines)) with (l ++ sep ++ join sep (l2 :: lines)).
  rewrite !escapeHtml_app, Hs, IH. reflexivity.
Qed.

Lemma Forall_join (P : N -> Prop) (sep : jsstring) (lines : list jsstring) :
  Forall P sep -> Forall (Forall P) lines -> Forall P (join sep lines).
Proof.
  intros Hs. induction 1 as [|l lines Hl Hls IH]; [constructor|].
  destruct lines as [|l2 lines]; [exact Hl|].
  change (join sep (l :: l2 :: lines)) with (l ++ sep ++ join sep (l2 :: lines)).
  repeat (apply Forall_app; split); assumption.
Qed.

Lemma newline_pass_join (sep : jsstring) (lines : list jsstring) :
  sep = [LF] \/ sep = [CR; LF] ->
  Forall (Forall (fun c => is_delimiter c = false)) lines ->
  replace_global match_newline br_template (join sep lines)
  = join (js "<br>") lines.
Proof.
  intros Hs. induction 1 as [|l lines Hl Hls IH]; [reflexivity|].
  destruct lines as [|l2 lines].
  - cbn [join].
    now rewrite (replace_global_id match_newline _ is_delimiter newline_starter).
  - change (join sep (l :: l2 :: lines))
      with (l ++ sep ++ join sep (l2 :: lines)).
    change (join (js "<br>") (l :: l2 :: lines))
      with (l ++ js "<br>" ++ join (js "<br>") (l2 :: lines)).
    rewrite (replace_global_inert match_newline _ is_delimiter newline_starter)
      by exact Hl.
    f_equal. rewrite <- IH.
    destruct Hs as [-> | ->]; cbn [app].
    + now rewrite (replace_global_match match_newline br_template LF _ [] 1).
    + now rewrite (replace_global_match match_newline br_template CR _ [] 2).
Qed.

(** X3: text of several lines, each free of formatting characters and
    joined by line feeds or by carriage return and line feed, renders as
    the escaped lines joined by [<br>]; a carriage return that no line feed
    follows is kept as it is. *)
Theorem X3_line_breaks :
  (forall sep lines,
     sep = [LF] \/ sep = [CR; LF] ->
     Forall (Forall (fun c => is_delimiter c = false)) lines ->
     renderMarkup (join sep lines)
     = join (js "<br>") (List.map escapeHtml lines)) /\
  (forall p q,
     Forall (fun c => is_delimiter c = false) p ->
     Forall (fun c => is_delimiter c = false) q ->
     renderMarkup (p ++ [CR] ++ q) = escapeHtml p ++ [CR] ++ escapeHtml q).
Proof.
  split.
  - intros sep lines Hs Hl. rewrite renderMarkup_stages.
    rewrite escapeHtml_join by (destruct Hs as [-> | ->]; reflexivity).
    assert (Hl' : Forall (Forall (fun c => is_delimiter c = false))
                         (List.map escapeHtml lines)).
    { apply Forall_map. revert Hl. apply Forall_impl. intros l.
      apply escapeHtml_inert. }
    set (L := List.map escapeHtml lines) in *.
    assert (F : Forall (fun c => N.eqb c backtick = false /\
                                 N.eqb c star = false /\
                                 N.eqb c underscore = false) (join sep L)).
    { apply Forall_join.
      - destruct Hs as [-> | ->]; repeat constructor.
      - revert Hl'. apply Forall_impl. intros l. apply Forall_impl.
        intros c Hc. apply not_delimiter in Hc. tauto. }
    unfold inlineFormat.
    rewrite (replace_global_id match_code _ (fun c => N.eqb c backtick)
               match_code_starter)
      by (revert F; apply Forall_impl; tauto).
    rewrite (replace_global_id match_bold _ (fun c => N.eqb c star)
               (match_delimited_starter star [star] [star; star]))
      by (revert F; apply Forall_impl; tauto).
    rewrite (replace_global_id match_italic _ (fun c => N.eqb c underscore)
               (match_delimited_starter underscore [] [underscore]))
      by (revert F; apply Forall_impl; tauto).
    now apply newline_pass_join.
  - intros p q Hp Hq. rewrite renderMarkup_stages, !escapeHtml_app.
    change (escapeHtml [CR]) with [CR].
    apply escapeHtml_inert in Hp, Hq.
    set (P := escapeHtml p) in *. set (Q := escapeHtml q) in *.
    assert (F : Forall (fun c => N.eqb c backtick = false /\
                                 N.eqb c star = false /\
                                 N.eqb c underscore = false /\
                                 N.eqb c LF = false) (P ++ [CR] ++ Q)).
    { repeat (apply Forall_app; split); try (repeat constructor; fail);
        match goal with
        | H : Forall _ ?l |- Forall _ ?l =>
            revert H; apply Forall_impl; intros c Hc;
            apply not_delimiter in Hc;
            destruct Hc as (? & ? & ? & Hc); apply orb_false_iff in Hc; tauto
        end. }
    unfold inlineFormat.
    rewrite (replace_global_id match_code _ (fun c => N.eqb c backtick)
               match_code_starter)
      by (revert F; apply Forall_impl; tauto).
    rewrite (replace_global_id match_bold _ (fun c => N.eqb c star)
               (match_delimited_starter star [star] [star; star]))
      by (revert F; apply Forall_impl; tauto).
    rewrite (replace_global_id match_italic _ (fun c => N.eqb c underscore)
               (match_delimited_starter underscore [] [underscore]))
      by (revert F; apply Forall_impl; tauto).
    rewrite (replace_global_inert match_newline _ is_delimiter newline_starter)
      by exact Hp.
    f_equal. cbn [app].
    assert (En : match_newline (CR :: Q) = None).
    { cbn [match_newline]. change (N.eqb CR LF) with false.
      rewrite N.eqb_refl. destruct Q as [|d Q']; [reflexivity|].
      inversion Hq as [|? ? Hd _]; subst. apply not_delimiter in Hd.
      destruct Hd as (_ & _ & _ & Hd). apply orb_false_iff in Hd as [_ ->].
      reflexivity. }
    rewrite (replace_global_copy _ _ _ _ En). f_equal.
    now apply (replace_global_id match_newline _ is_delimiter newline_starter).
Qed.

Lemma X3_line_breaks_witness :
  renderMarkup (js "a < b" ++ [CR; LF] ++ js "c" ++ [CR; LF] ++ js "d & e")
  = js "a &lt; b<br>c<br>d &amp; e".
Proof.
  apply (proj1 X3_line_breaks [CR; LF] [js "a < b"; js "c"; js "d & e"]).
  - right. reflexivity.
  - repeat constructor.
Defined.

Lemma occurrences_app d a b :
  occurrences d (a ++ b) = occurrences d a + occurrences d b.
Proof. unfold occurrences. now rewrite filter_app, length_app. Qed.

Lemma occurrences_skipn d k s : occurrences d (skipn k s) <= occurrences d s.
Proof.
  rewrite <- (firstn_skipn k s) at 2. rewrite occurrences_app. lia.
Qed.

Lemma occurrences_escapeHtml d s :
  is_delimiter d = true -> occurrences d (escapeHtml s) = occurrences d s.
Proof.
  intros Hd. induction s as [|c s IH]; [reflexivity|].
  rewrite escapeHtml_cons, occurrences_app, IH.
  change (c :: s) with ([c] ++ s). rewrite occurrences_app. f_equal.
  assert (E : forall l, Forall (fun c => is_delimiter c = false) l ->
                        occurrences d l = 0).
  { induction 1 as [|x l Hx _ IHl]; [reflexivity|].
    unfold occurrences in *. cbn [filter].
    destruct (N.eqb d x) eqn:Ex; [|exact IHl].
    apply N.eqb_eq in Ex. subst x. congruence. }
  destruct (escapeHtml_unit c) as [[-> ->]|[[-> ->]|[[-> ->]|(_ & _ & _ & ->)]]];
    try reflexivity;
    rewrite !E by repeat constructor; reflexivity.
Qed.

Lemma replace_global_no_match m template s :
  (forall k, m (skipn k s) = None) -> replace_global m template s = s.
Proof.
  induction s as [|c s IH]; intros H; [reflexivity|].
  rewrite replace_global_copy by exact (H 0). f_equal.
  apply IH. intros k. exact (H (S k)).
Qed.

Lemma match_code_needs_two s g n :
  match_code s = Some (g, n) -> 2 <= occurrences backtick s.
Proof.
  intros H. destruct s as [|c rest]; [discriminate|]. cbn [match_code] in H.
  destruct (N.eqb c backtick) eqn:E; [|discriminate].
  apply N.eqb_eq in E. subst c.
  destruct (span_not backtick rest) as [run after] eqn:Es.
  destruct run as [|x run]; [discriminate|].
  destruct after as [|b after]; [discriminate|].
  destruct (span_not_spec _ _ _ _ Es) as [-> Hb].
  rewrite (Hb b after eq_refl).
  change (backtick :: (x :: run) ++ backtick :: after)
    with ([backtick] ++ (x :: run) ++ [backtick] ++ after).
  rewrite !occurrences_app.
  change (occurrences backtick [backtick]) with 1. lia.
Qed.

Lemma match_delimited_needs opener closer d s g n :
  match_delimited opener closer s = Some (g, n) ->
  occurrences d opener + occurrences d closer <= occurrences d s.
Proof.
  unfold match_delimited. intros H.
  destruct (starts_with opener s) eqn:E; [|discriminate].
  destruct (dot_plus_lazy closer (skipn (length opener) s)) as [g'|] eqn:Eg;
    [|discriminate].
  destruct (dot_plus_lazy_spec _ _ _ Eg) as [_ [after Ha]].
  rewrite (starts_with_split _ _ E), Ha, !occurrences_app. lia.
Qed.

Lemma match_newline_needs s g n :
  match_newline s = Some (g, n) -> 1 <= occurrences LF s.
Proof.
  intros H. destruct s as [|c rest]; [discriminate|]. cbn [match_newline] in H.
  destruct (N.eqb c LF) eqn:E.
  - apply N.eqb_eq in E. subst c.
    change (LF :: rest) with ([LF] ++ rest). rewrite occurrences_app.
    change (occurrences LF [LF]) with 1. lia.
  - destruct (N.eqb c CR); [|discriminate].
    destruct rest as [|d rest]; [discriminate|].
    destruct (N.eqb d LF) eqn:E'; [|discriminate].
    apply N.eqb_eq in E'. subst d.
    change (c :: LF :: rest) with ([c] ++ [LF] ++ rest).
    rewrite !occurrences_app. change (occurrences LF [LF]) with 1. lia.
Qed.

(** X4: formatting characters without a partner are left as written.
    Content with at most one backtick, at most one underscore, at most
    three asterisks and no line feed renders as its escaped text. *)
Theorem X4_unpaired_delimiters (content : jsstring) :
  occurrences backtick content <= 1 ->
  occurrences star content <= 3 ->
  occurrences underscore content <= 1 ->
  occurrences LF content = 0 ->
  renderMarkup content = escapeHtml content.
Proof.
  intros Hb Hs Hu Hl. rewrite renderMarkup_stages.
  rewrite <- (occurrences_escapeHtml backtick content) in Hb by reflexivity.
  rewrite <- (occurrences_escapeHtml star content) in Hs by reflexivity.
  rewrite <- (occurrences_escapeHtml underscore content) in Hu by reflexivity.
  rewrite <- (occurrences_escapeHtml LF content) in Hl by reflexivity.
  set (S := escapeHtml content) in *. unfold inlineFormat.
  rewrite (replace_global_no_match match_code).
  2:{ intros k. destruct (match_code (skipn k S)) as [[g n]|] eqn:E;
        [|reflexivity].
      apply match_code_needs_two in E.
      pose proof (occurrences_skipn backtick k S). lia. }
  rewrite (replace_global_no_match match_bold).
  2:{ intros k. destruct (match_bold (skipn k S)) as [[g n]|] eqn:E;
        [|reflexivity].
      apply (match_delimited_needs _ _ star) in E.
      change (occurrences star [star; star]) with 2 in E.
      pose proof (occurrences_skipn star k S). lia. }
  rewrite (replace_global_no_match match_italic).
  2:{ intros k. destruct (match_italic (skipn k S)) as [[g n]|] eqn:E;
        [|reflexivity].
      apply (match_delimited_needs _ _ underscore) in E.
      change (occurrences underscore [underscore]) with 1 in E.
      pose proof (occurrences_skipn underscore k S). lia. }
  apply replace_global_no_match.
  intros k. destruct (match_newline (skipn k S)) as [[g n]|] eqn:E;
    [|reflexivity].
  apply match_newline_needs in E.
  pose proof (occurrences_skipn LF k S). lia.
Qed.

Lemma X4_unpaired_delimiters_witness :
  renderMarkup (js "2 * 3 ** 2 = 18, snake_case, a ` mark")
  = js "2 * 3 ** 2 = 18, snake_case, a ` mark".
Proof.
  apply (X4_unpaired_delimiters (js "2 * 3 ** 2 = 18, snake_case, a ` mark"));
    cbn; lia.
Defined.

(** X5: inline code does not shield its text from the later passes: a pair
    of double asterisks inside a pair of backticks is still turned into a
    [b] element, inside the [code] element. *)
Theorem X5_code_does_not_shield (p x q : jsstring) :
  Forall (fun c => is_delimiter c = false) p ->
  Forall (fun c => is_delimiter c = false) x ->
  Forall (fun c => is_delimiter c = false) q ->
  Forall (fun c => is_line_terminator c = false) x ->
  x <> [] ->
  renderMarkup (p ++ js "`**" ++ x ++ js "**`" ++ q)
  = escapeHtml p ++ js "<code><b>" ++ escapeHtml x ++ js "</b></code>"
    ++ escapeHtml q.
Proof.
  intros Hp Hx Hq Hlt Hne. rewrite renderMarkup_stages, !escapeHtml_app.
  change (escapeHtml (js "`**")) with [backtick; star; star].
  change (escapeHtml (js "**`")) with [star; star; backtick].
  assert (Hlt' : Forall (fun c => is_line_terminator c = false) (escapeHtml x))
    by (apply escapeHtml_Forall; try assumption; repeat constructor).
  apply escapeHtml_inert in Hp, Hx, Hq.
  apply escapeHtml_nonempty in Hne.
  set (P := escapeHtml p) in *. set (X := escapeHtml x) in *.
  set (Q := escapeHtml q) in *.
  unfold inlineFormat.
  replace (P ++ [backtick; star; star] ++ X ++ [star; star; backtick] ++ Q)
    with (P ++ backtick :: ([star; star] ++ X ++ [star; star]) ++ backtick :: Q)
    by (cbn [app]; rewrite <- !app_assoc; reflexivity).
  rewrite code_pass_pair; try (now apply delimiter_free_units).
  2:{ repeat (apply Forall_app; split); try (repeat constructor; fail).
      now apply delimiter_free_units. }
  2:{ discriminate. }
  unfold code_template.
  replace (P ++ (js "<code>" ++ ([star; star] ++ X ++ [star; star])
                 ++ js "</code>") ++ Q)
    with ((P ++ js "<code>") ++ [star; star] ++ X ++ [star; star]
          ++ (js "</code>" ++ Q))
    by (rewrite <- !app_assoc; reflexivity).
  unfold match_bold.
  rewrite (delimited_pass_pair star [star] bold_template);
    try (now apply delimiter_free_no_terminator); try assumption.
  2:{ apply Forall_app; split; [now apply delimiter_free_units|].
      repeat constructor. }
  2:{ apply Forall_app; split; [repeat constructor|].
      now apply delimiter_free_units. }
  assert (F : Forall (fun c => is_delimiter c = false)
                     ((P ++ js "<code>") ++ bold_template X
                      ++ js "</code>" ++ Q)).
  { unfold bold_template. repeat (apply Forall_app; split); auto;
      repeat constructor. }
  rewrite (replace_global_id match_italic _ is_delimiter italic_starter)
    by exact F.
  rewrite (replace_global_id match_newline _ is_delimiter newline_starter)
    by exact F.
  unfold bold_template. rewrite <- !app_assoc. reflexivity.
Qed.

Lemma X5_code_does_not_shield_witness :
  renderMarkup (js "see `**kwargs**` here")
  = js "see <code><b>kwargs</b></code> here".
Proof.
  apply (X5_code_does_not_shield (js "see ") (js "kwargs") (js " here"));
    try discriminate; repeat constructor.
Defined.

Lemma normalize_newlines_crlf (a b : jsstring) :
  forall f,
    normalize_newlines_from f (a ++ CR :: LF :: b)
    = normalize_newlines_from f a ++ LF :: normalize_newlines_from false b.
Proof.
  induction a as [|c a IH]; intros f; [reflexivity|].
  cbn [app normalize_newlines_from].
  destruct (N.eqb c CR); [cbn [app]; f_equal; apply IH|].
  destruct (N.eqb c LF && f); [apply IH|].
  cbn [app]. f_equal. apply IH.
Qed.

(** A carriage return and line feed inside a text are one line feed to the
    parser, whatever stands around them. *)
Lemma character_data_crlf (a b : jsstring) :
  character_data (a ++ [CR; LF] ++ b)
  = character_data a ++ [LF] ++ character_data b.
Proof.
  unfold character_data, normalize_newlines. cbn [app].
  rewrite normalize_newlines_crlf. unfold drop_nul.
  now rewrite filter_app.
Qed.

Lemma normalize_newlines_no_CR (s : jsstring) :
  forall f, Forall (fun c => c <> CR) (normalize_newlines_from f s).
Proof.
  induction s as [|c s IH]; intros f; [constructor|].
  cbn [normalize_newlines_from].
  destruct (N.eqb c CR) eqn:E; [constructor; [discriminate | apply IH]|].
  apply N.eqb_neq in E.
  destruct (N.eqb c LF && f); [apply IH|]. constructor; [exact E | apply IH].
Qed.

(** What the parser hands on holds no carriage return and no U+0000. *)
Lemma character_data_clean (s : jsstring) :
  Forall (fun c => c <> CR /\ c <> NUL) (character_data s).
Proof.
  unfold character_data, drop_nul, normalize_newlines.
  apply Forall_forall. intros c Hc. apply filter_In in Hc as [Hc Hn].
  split.
  - pose proof (normalize_newlines_no_CR s false) as H.
    rewrite Forall_forall in H. now apply H.
  - intros ->. discriminate.
Qed.

(** X6: the escaping loses nothing and leaves no angle bracket.  Two
    different texts escape to different strings; decoding the three
    references of the escaped text gives the text; no [<] or [>] is left;
    the result is at least as long as the text.  Written into the page as
    markup, the escaped text is read by the parser as the text with its
    line ends normalized and without its U+0000 code units, so as the text
    itself when it has no carriage return and no U+0000; a carriage return
    followed by a line feed is read as one line feed, and what is read
    holds no carriage return and no U+0000. *)
Theorem X6_escape_round_trip :
  (forall a b, escapeHtml a = escapeHtml b -> a = b) /\
  (forall s, decode_text (length (escapeHtml s)) (escapeHtml s) = s) /\
  (forall s, Forall (fun c => c <> lt /\ c <> gt) (escapeHtml s)) /\
  (forall s, length s <= length (escapeHtml s)) /\
  (forall s, parsed_text (escapeHtml s) = character_data s) /\
  (forall s,
     Forall (fun c => c <> CR) s -> Forall (fun c => c <> NUL) s ->
     parsed_text (escapeHtml s) = s) /\
  (forall a b,
     parsed_text (escapeHtml (a ++ [CR; LF] ++ b))
     = parsed_text (escapeHtml a) ++ [LF] ++ parsed_text (escapeHtml b)) /\
  (forall s,
     Forall (fun c => c <> CR /\ c <> NUL) (parsed_text (escapeHtml s))).
Proof.
  split; [|split; [|split; [|split; [|split; [|split; [|split]]]]]].
  - intros a b E.
    rewrite <- (decode_escapeHtml a (length (escapeHtml a)) (le_n _)), E.
    now apply decode_escapeHtml.
  - intros s. now apply decode_escapeHtml.
  - exact escapeHtml_no_angle.
  - induction s as [|c s IH]; [apply le_n|].
    rewrite escapeHtml_cons, length_app. cbn [length].
    destruct (escapeHtml_unit c)
      as [[_ ->]|[[_ ->]|[[_ ->]|(_ & _ & _ & ->)]]]; cbn [length js]; simpl; lia.
  - exact parsed_text_escapeHtml.
  - intros s Hc Hn. rewrite parsed_text_escapeHtml.
    now apply character_data_plain.
  - intros a b. rewrite !parsed_text_escapeHtml. apply character_data_crlf.
  - intros s. rewrite parsed_text_escapeHtml. apply character_data_clean.
Qed.

Lemma X6_escape_round_trip_witness :
  parsed_text (escapeHtml (js "1 < 2 && 3 > 2")) = js "1 < 2 && 3 > 2" /\
  parsed_text (escapeHtml (js "a" ++ [CR] ++ js "b")) = js "a" ++ [LF] ++ js "b".
Proof.
  split.
  - apply (proj1 (proj2 (proj2 (proj2 (proj2 (proj2 X6_escape_round_trip))))));
      repeat constructor; discriminate.
  - apply (proj1 (proj2 (proj2 (proj2 (proj2 X6_escape_round_trip))))).
Defined.

(* ===================================================================== *)
(** ** A send cycle seen from the conversation *)
(* ===================================================================== *)

Lemma remove_typing_last (l : list Node) :
  length (filter is_typing l) = 0 -> remove_typing (l ++ [TypingNode]) = l.
Proof.
  induction l as [|n l IH]; intros H; [reflexivity|].
  destruct n; cbn [filter is_typing length] in H; try discriminate;
    cbn [app remove_typing]; f_equal; now apply IH.
Qed.

Lemma existsb_typing_none (l : list Node) :
  length (filter is_typing l) = 0 -> existsb is_typing l = false.
Proof. intros H. now rewrite existsb_typing_count, H. Qed.

Lemma sendMessage_nodes (s : State) :
  isSending (vars s) = false ->
  trim (input_value (composer s)) <> [] ->
  typing_nodes s = 0 ->
  messagesContent (conversation (sendMessage s))
  = messagesContent (conversation s)
    ++ [BubbleNode (bubble_of (js "user") (trim (input_value (composer s))) Now);
        TypingNode].
Proof.
  intros Hs Ht Hn. unfold sendMessage. rewrite Hs.
  destruct (trim (input_value (composer s))) as [|c r] eqn:E; [contradiction|].
  cbn [nonempty negb]. cbn [fetch set_net conversation].
  unfold showTyping. rewrite appendMessage_nodes.
  cbn [set_sending_controls set_composer set_isSending set_vars conversation].
  rewrite existsb_app, (existsb_typing_none _ Hn). cbn [existsb is_typing orb].
  cbn [append_node set_conversation conversation messagesContent].
  rewrite appendMessage_nodes.
  cbn [set_sending_controls set_composer set_isSending set_vars conversation].
  now rewrite <- app_assoc.
Qed.

Lemma sendMessage_panel (s : State) : panel (sendMessage s) = panel s.
Proof.
  unfold sendMessage. destruct (isSending (vars s)); [reflexivity|].
  destruct (trim (input_value (composer s))) as [|c r]; [reflexivity|].
  cbn [nonempty negb]. cbn [fetch set_net panel].
  pose proof (showTyping_outside
                (appendMessage (js "user") (c :: r) Now
                   (set_sending_controls true [] (set_isSending true s)))) as E1.
  pose proof (appendMessage_outside (js "user") (c :: r) Now
                (set_sending_controls true [] (set_isSending true s))) as E2.
  destruct (outside_conversation_parts _ _ E1) as (_ & _ & ->).
  now destruct (outside_conversation_parts _ _ E2) as (_ & _ & ->).
Qed.

(** X7: a send that passes the guards shows the user's text at once: the
    bubble with the trimmed text and then the typing indicator are appended
    to the conversation, the welcome placeholder is hidden, the input is
    emptied, the tool panel is left alone, and the request carries the
    trimmed text with the current output flag and model. *)
Theorem X7_optimistic_send (s : State) :
  isSending (vars s) = false ->
  trim (input_value (composer s)) <> [] ->
  typing_nodes s = 0 ->
  let text := trim (input_value (composer s)) in
  messagesContent (conversation (sendMessage s))
  = messagesContent (conversation s)
    ++ [BubbleNode (bubble_of (js "user") text Now); TypingNode] /\
  (has_welcomeMessage (page s) = true -> welcome_hidden (sendMessage s)) /\
  input_value (composer (sendMessage s)) = [] /\
  panel (sendMessage s) = panel s /\
  requests (net (sendMessage s))
  = requests (net s)
    ++ [ChatRequest (showToolOutput (vars s)) (selectedModel (vars s)) text].
Proof.
  intros Hs Ht Hn text.
  destruct (sendMessage_issues s Hs Ht) as (_ & _ & Hc & Hr & _).
  split; [|split; [|split; [|split]]]; try assumption.
  - now apply sendMessage_nodes.
  - intros Hw. unfold sendMessage. rewrite Hs.
    destruct (trim (input_value (composer s))) as [|c r] eqn:E; [contradiction|].
    cbn [nonempty negb]. unfold welcome_hidden.
    cbn [fetch set_net conversation]. rewrite showTyping_welcome.
    rewrite appendMessage_welcome.
    cbn [set_sending_controls set_composer set_isSending set_vars page].
    now rewrite Hw.
  - now rewrite Hc.
  - apply sendMessage_panel.
Qed.

Lemma X7_optimistic_send_witness :
  messagesContent
    (conversation (sendMessage (with_input (js "  hello ") blank_document)))
  = [WelcomeNode; BubbleNode (bubble_of (js "user") (js "hello") Now);
     TypingNode].
Proof.
  apply (X7_optimistic_send (with_input (js "  hello ") blank_document));
    [reflexivity | discriminate | reflexivity].
Defined.

(** What a thrown failure leaves in the conversation. *)
Lemma settled_failure_nodes (o : Settled ChatResponse) (message : jsstring)
      (s : State) :
  chat_try o s = (s, Throw message) ->
  messagesContent (conversation (sendMessage_settled o s))
  = messagesContent (conversation (hideTyping s))
    ++ [BubbleNode (bubble_of (js "system")
                      (js "Connection error: " ++ message) Now)] /\
  panel (sendMessage_settled o s) = panel s.
Proof.
  intros E. unfold sendMessage_settled. rewrite E. cbn [chat_catch].
  destruct (chat_finally_views
              (appendMessage (js "system") (js "Connection error: " ++ message)
                 Now (hideTyping s))) as [-> ->].
  split; [apply appendMessage_nodes|].
  pose proof (appendMessage_outside (js "system")
                (js "Connection error: " ++ message) Now (hideTyping s)) as E1.
  pose proof (hideTyping_outside s) as E2.
  destruct (outside_conversation_parts _ _ E1) as (_ & _ & ->).
  now destruct (outside_conversation_parts _ _ E2) as (_ & _ & ->).
Qed.

(** X8: a send that fails ends with one system bubble and no typing
    indicator, next to the user's bubble.  A non-success status is reported
    as "Connection error: Server error: <status>", a network or parse
    failure as "Connection error: " followed by the failure's message.  The
    tool panel is left as it was. *)
Theorem X8_failed_send (s : State) :
  isSending (vars s) = false ->
  trim (input_value (composer s)) <> [] ->
  typing_nodes s = 0 ->
  let text := trim (input_value (composer s)) in
  let shown (message : jsstring) (s' : State) :=
    messagesContent (conversation s')
    = messagesContent (conversation s)
      ++ [BubbleNode (bubble_of (js "user") text Now);
          BubbleNode (bubble_of (js "system")
                        (js "Connection error: " ++ message) Now)] /\
    typing_nodes s' = 0 /\ panel s' = panel s in
  (forall code,
     shown (js "Server error: " ++ string_of_Z code)
           (sendMessage_settled (HttpFailure code) (sendMessage s))) /\
  (forall message,
     shown message (sendMessage_settled (NetworkFailure message) (sendMessage s))) /\
  (forall message,
     shown message (sendMessage_settled (ParseFailure message) (sendMessage s))).
Proof.
  intros Hs Ht Hn text shown.
  pose proof (sendMessage_nodes s Hs Ht Hn) as Hnodes.
  pose proof (sendMessage_panel s) as Hp.
  fold text in Hnodes.
  assert (Hh : messagesContent (conversation (hideTyping (sendMessage s)))
               = messagesContent (conversation s)
                 ++ [BubbleNode (bubble_of (js "user") text Now)]).
  { unfold hideTyping. rewrite Hnodes.
    replace (messagesContent (conversation s)
             ++ [BubbleNode (bubble_of (js "user") text Now); TypingNode])
      with ((messagesContent (conversation s)
             ++ [BubbleNode (bubble_of (js "user") text Now)]) ++ [TypingNode])
      by (rewrite <- app_assoc; reflexivity).
    rewrite existsb_app. cbn [existsb is_typing orb]. rewrite orb_true_r.
    cbn [set_conversation conversation messagesContent].
    apply remove_typing_last. rewrite filter_app, length_app. cbn.
    unfold typing_nodes in Hn. lia. }
  assert (K : forall o message,
             chat_try o (sendMessage s) = (sendMessage s, Throw message) ->
             shown message (sendMessage_settled o (sendMessage s))).
  { intros o message E. destruct (settled_failure_nodes o message _ E) as [E1 E2].
    unfold shown. rewrite E1, Hh, E2, Hp, <- app_assoc.
    split; [reflexivity|]. split; [|reflexivity].
    unfold typing_nodes. rewrite E1, Hh, !filter_app, !length_app. cbn.
    unfold typing_nodes in Hn. lia. }
  split; [|split]; intros; apply K; reflexivity.
Qed.

Lemma X8_failed_send_witness :
  messagesContent
    (conversation
       (sendMessage_settled (HttpFailure 500)
          (sendMessage (with_input (js "hello") blank_document))))
  = [WelcomeNode; BubbleNode (bubble_of (js "user") (js "hello") Now);
     BubbleNode (bubble_of (js "system")
                   (js "Connection error: Server error: 500") Now)].
Proof.
  apply (proj1 (X8_failed_send (with_input (js "hello") blank_document)
                  eq_refl ltac:(discriminate) eq_refl) 500%Z).
Defined.

(* ===================================================================== *)
(** ** The typing indicator over whole runs *)
(* ===================================================================== *)

Lemma resetChatUI_nodes s :
  messagesContent (conversation (resetChatUI s))
  = if has_welcomeMessage (page s) then [WelcomeNode] else [].
Proof.
  unfold resetChatUI.
  destruct (has_welcomeMessage (page s)); cbn;
    destruct (has_toolsBody (page s)); cbn;
    destruct (has_toolsEmpty (page s)); reflexivity.
Qed.

Lemma append_assistant_messages_count ms s :
  typing_nodes (append_assistant_messages ms s) = typing_nodes s.
Proof.
  unfold typing_nodes. rewrite append_assistant_messages_nodes.
  rewrite filter_app, length_app.
  assert (E : forall l : list jsstring,
             filter is_typing
               (List.map (fun c => BubbleNode (bubble_of (js "assistant") c Now)) l)
             = []).
  { induction l as [|x l IHl]; [reflexivity | exact IHl]. }
  rewrite E. cbn. lia.
Qed.

Lemma replay_messages_nodes ms :
  forall s,
    messagesContent (conversation (replay_messages ms s))
    = messagesContent (conversation s)
      ++ List.map (fun m => BubbleNode (history_bubble m)) ms.
Proof.
  unfold replay_messages.
  induction ms as [|m ms IH]; intros s; cbn [fold_left List.map].
  - now rewrite app_nil_r.
  - rewrite IH, appendMessage_nodes, <- app_assoc. reflexivity.
Qed.

Lemma bubbles_not_typing {A} (f : A -> Bubble) (l : list A) :
  filter is_typing (List.map (fun x => BubbleNode (f x)) l) = [].
Proof. induction l as [|x l IH]; [reflexivity | exact IH]. Qed.

Lemma replay_messages_count ms s :
  typing_nodes (replay_messages ms s) = typing_nodes s.
Proof.
  unfold typing_nodes.
  rewrite replay_messages_nodes, filter_app, length_app, bubbles_not_typing.
  cbn. lia.
Qed.

Lemma loadChatHistory_settled_count o s :
  typing_nodes (loadChatHistory_settled o s) = typing_nodes s.
Proof.
  destruct o as [m|code|m|data]; try reflexivity. cbn [loadChatHistory_settled].
  destruct (hr_messages data) as [[|m ms]|]; try reflexivity.
  assert (E : typing_nodes
                (replay_messages (m :: ms)
                   (if has_welcomeMessage (page s)
                    then set_welcome_display DisplayNone s else s))
              = typing_nodes s).
  { rewrite replay_messages_count.
    destruct (has_welcomeMessage (page s)); reflexivity. }
  destruct (hr_tool_interactions data) as [[|t ts]|]; try exact E.
  now rewrite updateTools_count.
Qed.

Lemma chat_try_count o s :
  typing_nodes (fst (chat_try o s)) <= typing_nodes s /\
  (forall data, o = Body data ->
     typing_nodes (fst (chat_try o s)) = pred (typing_nodes s)).
Proof.
  destruct o as [m|code|m|data]; try (split; [apply le_n | discriminate]).
  assert (E : typing_nodes (fst (chat_try (Body data) s))
              = pred (typing_nodes s)).
  { cbn [chat_try]. rewrite <- hideTyping_count.
    destruct (cr_error data) as [[|c r]|];
      destruct (cr_tools data) as [tools|];
      destruct (cr_messages data) as [ms|];
      destruct (cr_reply data) as [[|c' r']|];
      cbn [fst];
      rewrite ?updateTools_count, ?append_assistant_messages_count,
        ?appendMessage_count; reflexivity. }
  split; [rewrite E; lia | intros d _; exact E].
Qed.

Lemma sendMessage_settled_count o s :
  typing_nodes (sendMessage_settled o s) <= pred (typing_nodes s).
Proof.
  unfold sendMessage_settled.
  change (typing_nodes (chat_finally (chat_catch (chat_try o s))))
    with (typing_nodes (chat_catch (chat_try o s))).
  destruct (chat_try_count o s) as [Hle Hb].
  destruct o as [m|code|m|data];
    try (cbn [chat_try chat_catch];
         rewrite appendMessage_count, hideTyping_count; apply le_n).
  specialize (Hb data eq_refl).
  destruct (chat_try (Body data) s) as [s1 [|m]]; cbn [fst chat_catch] in *.
  - rewrite Hb. apply le_n.
  - rewrite appendMessage_count, hideTyping_count, Hb. lia.
Qed.

Lemma sendMessage_count s :
  typing_nodes (sendMessage s)
  = if isSending (vars s) then typing_nodes s
    else if nonempty (trim (input_value (composer s)))
         then (if typing_nodes s =? 0 then 1 else typing_nodes s)
         else typing_nodes s.
Proof.
  unfold sendMessage. destruct (isSending (vars s)); [reflexivity|].
  destruct (nonempty (trim (input_value (composer s)))); [|reflexivity].
  cbn [negb].
  match goal with
  | |- typing_nodes (fetch _ _ ?x) = _ => change (typing_nodes x = 
      (if typing_nodes s =? 0 then 1 else typing_nodes s))
  end.
  rewrite showTyping_count, appendMessage_count. reflexivity.
Qed.

(** The turns of the event loop that neither send nor settle a chat
    request never add a typing indicator. *)
Lemma step_typing_others e s s' :
  step e s = Some s' ->
  match e with
  | SendClick | EnterKey | ChipClick _ | ChatSettled _ => True
  | _ => typing_nodes s' <= typing_nodes s
  end.
Proof.
  intros H. destruct e; try exact I; cbn [step] in H; unfold resuming in H.
  - destruct (input_disabled (composer s)); [discriminate|].
    injection H as <-. apply le_n.
  - injection H as <-. apply le_n.
  - injection H as <-. apply le_n.
  - injection H as <-. destruct confirmed; [|apply le_n].
    unfold reset_click.
    change (typing_nodes (resetChatUI s) <= typing_nodes s).
    rewrite resetChatUI_count. lia.
  - destruct (sleep_busy s); [discriminate|]. injection H as <-.
    destruct confirmed; [|apply le_n]. unfold sleep_click.
    change (typing_nodes
              (appendMessage (js "system") (js "Starting sleep cycle...") Now
                 (set_sleep_busy true s)) <= typing_nodes s).
    rewrite appendMessage_count. apply le_n.
  - injection H as <-. unfold model_change. rewrite appendMessage_count.
    apply le_n.
  - destruct (resume _ _); [|discriminate]. injection H as <-. apply le_n.
  - destruct (resume _ _) as [l|]; [|discriminate]. injection H as <-.
    unfold loadChatHistory.
    change (typing_nodes (loadAvailableModels_settled o (set_pending l s))
            <= typing_nodes s).
    unfold loadAvailableModels_settled.
    destruct o as [m|code|m|[models default]]; try apply le_n.
    match goal with |- context [if ?b then _ else _] => destruct b end;
      apply le_n.
  - destruct (resume _ _) as [l|]; [|discriminate]. injection H as <-.
    rewrite loadChatHistory_settled_count. apply le_n.
  - destruct (resume _ _); [|discriminate]. injection H as <-. apply le_n.
  - destruct (resume _ _) as [l|]; [|discriminate]. injection H as <-.
    unfold sleep_settled.
    match goal with
    | |- typing_nodes (set_sleep_busy _ ?x) <= _ =>
        change (typing_nodes x <= typing_nodes s)
    end.
    destruct o as [m|code|m|[st message]];
      try (rewrite appendMessage_count; apply le_n).
    match goal with |- context [if ?b then _ else _] => destruct b end.
    + match goal with
      | |- typing_nodes (set_net _ ?x) <= _ =>
          change (typing_nodes x <= typing_nodes s)
      end.
      rewrite appendMessage_count. apply le_n.
    + rewrite appendMessage_count. apply le_n.
  - destruct (resume _ _) as [l|]; [|discriminate]. injection H as <-.
    unfold loadChatHistory.
    change (typing_nodes (resetChatUI (set_pending l s)) <= typing_nodes s).
    rewrite resetChatUI_count. lia.
Qed.

Lemma step_typing_guarded e s s' :
  step e s = Some s' ->
  typing_nodes s <= (if isSending (vars s) then 1 else 0) ->
  typing_nodes s' <= (if isSending (vars s') then 1 else 0).
Proof.
  intros H Hinv.
  assert (Hsend : forall s0, typing_nodes s0 = typing_nodes s ->
                    isSending (vars s0) = isSending (vars s) ->
                    typing_nodes (sendMessage s0)
                    <= (if isSending (vars (sendMessage s0)) then 1 else 0)).
  { intros s0 Et Ei. rewrite <- Et, <- Ei in Hinv.
    destruct (isSending (vars s0)) eqn:Hs0.
    - rewrite sendMessage_guarded by assumption. now rewrite Hs0.
    - destruct (trim (input_value (composer s0))) as [|c r] eqn:Ht.
      + rewrite sendMessage_blank by assumption. now rewrite Hs0.
      + rewrite sendMessage_count, Hs0, Ht. cbn [nonempty].
        destruct (sendMessage_issues s0) as (-> & _);
          [assumption | rewrite Ht; discriminate |].
        destruct (typing_nodes s0 =? 0); lia. }
  pose proof (step_typing_others e s s' H) as Ho.
  pose proof (step_session e s s' H) as Hv.
  destruct e;
    try (destruct (session_view_parts _ _ Hv) as (-> & _); lia).
  - subst s'. now apply Hsend.
  - subst s'. now apply Hsend.
  - subst s'. now apply Hsend.
  - subst s'. destruct (toggle_click_session s) as (-> & _). lia.
  - destruct Hv as (rest & _ & ->).
    destruct (sendMessage_settled_session o (set_pending rest s)) as (-> & _).
    pose proof (sendMessage_settled_count o (set_pending rest s)) as Hc.
    change (typing_nodes (set_pending rest s)) with (typing_nodes s) in Hc.
    destruct (isSending (vars s)); lia.
Qed.

(** X9: the typing indicator never outlives a request.  On a page that
    loads without one, every reachable state has at most one typing
    indicator, and none unless a chat request is being sent. *)
Theorem X9_typing_only_while_sending (doc s : State) :
  typing_nodes doc = 0 ->
  reachable doc s ->
  typing_nodes s <= (if isSending (vars s) then 1 else 0).
Proof.
  intros Hd Hr. induction Hr as [|e s s' _ IH Hstep].
  - cbn. unfold typing_nodes in *. cbn. lia.
  - now apply (step_typing_guarded e s).
Qed.

Lemma X9_typing_only_while_sending_witness :
  typing_nodes
    (sendMessage_settled (NetworkFailure (js "Failed to fetch"))
       (set_pending [StartupDelay]
          (sendMessage (with_input (js "hi") (initial_state blank_document)))))
  <= 0.
Proof.
  apply (X9_typing_only_while_sending blank_document); [reflexivity|].
  apply (reach_step _ (ChatSettled (NetworkFailure (js "Failed to fetch")))
           (sendMessage (with_input (js "hi") (initial_state blank_document))));
    [|reflexivity].
  apply (reach_step _ (ChipClick (js "hi")) (initial_state blank_document));
    [constructor | reflexivity].
Defined.

(* ===================================================================== *)
(** ** Replaying the history *)
(* ===================================================================== *)

(** X10: a history response with messages is replayed in full and in
    order: one bubble per entry, whatever its role, after the nodes already
    there; the welcome placeholder is hidden even if no entry has the role
    "user"; the tool panel is rendered from [tool_interactions] when that
    list is not empty and left alone otherwise; nothing else changes.  A
    load that fails changes nothing at all. *)
Theorem X10_history_replay (data : HistoryResponse) (s : State)
        (m : HistoryMessage) (ms : list HistoryMessage) :
  hr_messages data = Some (m :: ms) ->
  let s' := loadChatHistory_settled (Body data) s in
  messagesContent (conversation s')
  = messagesContent (conversation s)
    ++ List.map (fun m => BubbleNode (history_bubble m)) (m :: ms) /\
  (has_welcomeMessage (page s) = true -> welcome_hidden s') /\
  panel s' = (match hr_tool_interactions data with
              | Some (t :: ts) => panel (fst (updateTools (t :: ts) s))
              | _ => panel s
              end) /\
  outside_views s' = outside_views s /\
  (forall message code,
     loadChatHistory_settled (NetworkFailure message) s = s /\
     loadChatHistory_settled (HttpFailure code) s = s /\
     loadChatHistory_settled (ParseFailure message) s = s).
Proof.
  intros Hm s'. subst s'.
  set (s1 := if has_welcomeMessage (page s)
             then set_welcome_display DisplayNone s else s).
  set (s2 := replay_messages (m :: ms) s1).
  assert (E : loadChatHistory_settled (Body data) s =
              match hr_tool_interactions data with
              | Some (t :: ts) => fst (updateTools (t :: ts) s2)
              | _ => s2
              end).
  { cbn [loadChatHistory_settled]. rewrite Hm. fold s1. fold s2.
    destruct (hr_tool_interactions data) as [[|t ts]|]; reflexivity. }
  assert (N1 : messagesContent (conversation s1) = messagesContent (conversation s))
    by (unfold s1; destruct (has_welcomeMessage (page s)); reflexivity).
  assert (N2 : messagesContent (conversation s2)
               = messagesContent (conversation s)
                 ++ List.map (fun m => BubbleNode (history_bubble m)) (m :: ms))
    by (unfold s2; now rewrite replay_messages_nodes, N1).
  assert (O2 : outside_conversation s2 = outside_conversation s).
  { unfold s2. rewrite replay_messages_outside. unfold s1.
    destruct (has_welcomeMessage (page s)); reflexivity. }
  split; [|split; [|split; [|split]]].
  - rewrite E. destruct (hr_tool_interactions data) as [[|t ts]|];
      try exact N2. now rewrite updateTools_conversation.
  - intros Hw.
    assert (H2 : welcome_hidden s2).
    { unfold s2. apply replay_messages_hidden. unfold s1. now rewrite Hw. }
    rewrite E. destruct (hr_tool_interactions data) as [[|t ts]|];
      try exact H2. now apply updateTools_hidden.
  - rewrite E. destruct (hr_tool_interactions data) as [[|t ts]|];
      try exact (proj2 (proj2 (outside_conversation_parts _ _ O2))).
    now apply updateTools_independent.
  - apply loadChatHistory_settled_outside.
  - intros message code. repeat split.
Qed.

Lemma X10_history_replay_witness :
  let data :=
    {| hr_messages :=
         Some [ {| hm_role := Some (js "assistant");
                   hm_content := Some (js "welcome back");
                   hm_timestamp := Some (js "2025-01-01T10:00:00") |};
                {| hm_role := None; hm_content := None;
                   hm_timestamp := None |} ];
       hr_tool_interactions := None |} in
  messagesContent (conversation (loadChatHistory_settled (Body data) blank_document))
  = [WelcomeNode;
     BubbleNode (bubble_of (js "assistant") (js "welcome back")
                   (At (js "2025-01-01T10:00:00")));
     BubbleNode (bubble_of (js "user") [] Now)] /\
  welcome_hidden (loadChatHistory_settled (Body data) blank_document).
Proof.
  intros data.
  destruct (X10_history_replay data blank_document _ _ eq_refl)
    as (H1 & H2 & _).
  split; [exact H1 | exact (H2 eq_refl)].
Defined.

(* ===================================================================== *)
(** ** The tool panel as a whole *)
(* ===================================================================== *)

Lemma forEach_tool_prefix (good : list ToolRecord) :
  forall rest s,
    Forall (fun t => tool_renders t = true) good ->
    match rest with
    | [] => True
    | bad :: _ => tool_renders bad = false
    end ->
    exists cards,
      toolsBody (panel (fst (forEach_tool (good ++ rest) s)))
      = toolsBody (panel s) ++ List.map CardNode cards /\
      Forall2 (fun t c =>
                 renderTool (page s) (expandAllTools (vars s)) t = inl c)
              good cards /\
      snd (forEach_tool (good ++ rest) s)
      = (match rest with
         | [] => Normal
         | bad :: _ =>
             Throw (token_error_message (page s) (status_token (tool_st bad)))
         end).
Proof.
  induction good as [|t good IH]; intros rest s Hg Hr.
  - exists []. cbn [app List.map]. rewrite app_nil_r.
    destruct rest as [|bad rest]; [repeat split; constructor|].
    cbn [forEach_tool]. unfold renderTool. unfold tool_renders in Hr.
    rewrite Hr. repeat split. constructor.
  - inversion Hg as [|? ? Ht Hg']; subst. cbn [app forEach_tool].
    unfold tool_renders in Ht.
    destruct (renderTool (page s) (expandAllTools (vars s)) t) as [card|msg] eqn:E.
    2:{ unfold renderTool in E. rewrite Ht in E. discriminate. }
    destruct (IH rest (set_toolsBody (toolsBody (panel s) ++ [CardNode card]) s)
                Hg' Hr) as (cards & H1 & H2 & H3).
    exists (card :: cards). split; [|split].
    + rewrite H1. cbn [set_toolsBody set_panel panel toolsBody List.map].
      now rewrite <- app_assoc.
    + constructor; [exact E | exact H2].
    + exact H3.
Qed.

Lemma forEach_tool_toolsEmpty_display tools :
  forall s,
    toolsEmpty_display (panel (fst (forEach_tool tools s)))
    = toolsEmpty_display (panel s).
Proof.
  induction tools as [|t tools IH]; intros s; [reflexivity|].
  cbn [forEach_tool].
  destruct (renderTool (page s) (expandAllTools (vars s)) t); [|reflexivity].
  now rewrite IH.
Qed.

(** X11: a render replaces the panel.  Without a panel element nothing
    happens; an empty list leaves the "no tools" placeholder, shown, as the
    only child; a list that is not empty leaves exactly the cards of its
    records in order and hides the placeholder, and a record whose status
    text holds white space ends the render with the browser's exception:
    the cards before it stay, it and the records after it get none. *)
Theorem X11_panel_is_replaced (s : State) :
  (has_toolsBody (page s) = false ->
   forall tools, updateTools tools s = (s, Normal)) /\
  (has_toolsBody (page s) = true -> has_toolsEmpty (page s) = true ->
   toolsBody (panel (fst (updateTools [] s))) = [EmptyNode] /\
   toolsEmpty_display (panel (fst (updateTools [] s))) = DisplayBlock) /\
  (forall good rest,
     has_toolsBody (page s) = true ->
     good ++ rest <> [] ->
     Forall (fun t => tool_renders t = true) good ->
     match rest with
     | [] => True
     | bad :: _ => tool_renders bad = false
     end ->
     exists cards,
       toolsBody (panel (fst (updateTools (good ++ rest) s)))
       = List.map CardNode cards /\
       Forall2 (fun t c =>
                  renderTool (page s) (expandAllTools (vars s)) t = inl c)
               good cards /\
       snd (updateTools (good ++ rest) s)
       = (match rest with
          | [] => Normal
          | bad :: _ =>
              Throw (token_error_message (page s) (status_token (tool_st bad)))
          end) /\
       (has_toolsEmpty (page s) = true ->
        toolsEmpty_display (panel (fst (updateTools (good ++ rest) s)))
        = DisplayNone)).
Proof.
  split; [|split].
  - intros Hb tools. unfold updateTools. now rewrite Hb.
  - intros Hb He. unfold updateTools. rewrite Hb. cbn. rewrite He. now split.
  - intros good rest Hb Hne Hg Hr. unfold updateTools. rewrite Hb. cbn [negb].
    destruct (good ++ rest) as [|t0 ts0] eqn:El; [contradiction|].
    rewrite <- El.
    set (s0 := if has_toolsEmpty (page (set_toolsBody [] s))
               then set_toolsEmpty_display DisplayNone (set_toolsBody [] s)
               else set_toolsBody [] s).
    destruct (forEach_tool_prefix good rest s0 Hg Hr) as (cards & H1 & H2 & H3).
    assert (Ep : page s0 = page s /\ vars s0 = vars s /\
                 toolsBody (panel s0) = [])
      by (unfold s0; destruct (has_toolsEmpty (page (set_toolsBody [] s)));
          repeat split).
    destruct Ep as (Ep & Ev & Et). rewrite Ep, Ev in H2. rewrite Ep in H3.
    rewrite Et in H1. exists cards. repeat split; try assumption.
    intros He.
    rewrite forEach_tool_toolsEmpty_display. unfold s0. cbn [page set_toolsBody set_panel]. now rewrite He.
Qed.

Lemma X11_panel_is_replaced_witness :
  let spaced :=
    {| name := None; tool_name := None; tool := None;
       status := Some (js "in progress"); tool_status := None; error := None;
       duration_ms := None; execution_time_ms := None; started_at := None;
       timestamp := None; parameters := None; tool_input := None;
       result := None; tool_output := None |} in
  length (rendered_cards
            (fst (updateTools [timed_tool; spaced; failed_by_status]
                              (fst (updateTools [failed_by_error] blank_document)))))
  = 1 /\
  snd (updateTools [timed_tool; spaced; failed_by_status] blank_document)
  = Throw (token_error_message full_page (js "in progress")).
Proof.
  intros spaced. split; [reflexivity|].
  destruct (proj2 (proj2 (X11_panel_is_replaced blank_document))
              [timed_tool] [spaced; failed_by_status] eq_refl
              ltac:(discriminate) ltac:(repeat constructor) eq_refl)
    as (cards & _ & _ & H & _).
  exact H.
Defined.

Lemma forEach_tool_shape tools :
  forall s, exists l, fst (forEach_tool tools s) = set_toolsBody l s.
Proof.
  induction tools as [|t tools IH]; intros s.
  - exists (toolsBody (panel s)). destruct s as [? ? ? ? [? ? ? ?] ? ?].
    reflexivity.
  - cbn [forEach_tool].
    destruct (renderTool (page s) (expandAllTools (vars s)) t) as [card|m].
    + destruct (IH (set_toolsBody (toolsBody (panel s) ++ [CardNode card]) s))
        as (l & ->). now exists l.
    + exists (toolsBody (panel s)). destruct s as [? ? ? ? [? ? ? ?] ? ?].
      reflexivity.
Qed.

Lemma updateTools_shape tools s :
  exists l d,
    fst (updateTools tools s) = set_toolsEmpty_display d (set_toolsBody l s) /\
    (has_toolsEmpty (page s) = false -> d = toolsEmpty_display (panel s)).
Proof.
  unfold updateTools. destruct (has_toolsBody (page s)); cbn [negb].
  2:{ exists (toolsBody (panel s)), (toolsEmpty_display (panel s)).
      split; [|reflexivity]. destruct s as [? ? ? ? [? ? ? ?] ? ?]. reflexivity. }
  destruct tools as [|t tools].
  - cbn [page set_toolsBody set_panel fst].
    destruct (has_toolsEmpty (page s)).
    + exists [EmptyNode], DisplayBlock. split; [reflexivity | discriminate].
    + exists [], (toolsEmpty_display (panel s)). split; reflexivity.
  - cbn [page set_toolsBody set_panel].
    destruct (has_toolsEmpty (page s)).
    + destruct (forEach_tool_shape (t :: tools)
                  (set_toolsEmpty_display DisplayNone (set_toolsBody [] s)))
        as (l & ->).
      exists l, DisplayNone. split; [reflexivity | discriminate].
    + destruct (forEach_tool_shape (t :: tools) (set_toolsBody [] s))
        as (l & ->).
      exists l, (toolsEmpty_display (panel s)). split; reflexivity.
Qed.

(** X12: the last render wins.  Rendering a list after any other list
    gives the state and the outcome that rendering it alone gives; in
    particular rendering the same list twice changes nothing. *)
Theorem X12_last_render_wins (first second : list ToolRecord) (s : State) :
  updateTools second (fst (updateTools first s)) = updateTools second s.
Proof.
  destruct (has_toolsBody (page s)) eqn:Hb.
  - destruct (updateTools_shape first s) as (l & d & -> & Hd).
    unfold updateTools.
    cbn [page set_toolsEmpty_display set_toolsBody set_panel].
    rewrite Hb. cbn [negb].
    destruct (has_toolsEmpty (page s)) eqn:He.
    + destruct second; reflexivity.
    + rewrite (Hd eq_refl). destruct second; reflexivity.
  - assert (E : forall tools, updateTools tools s = (s, Normal))
      by (intros tools; unfold updateTools; now rewrite Hb).
    now rewrite (E first).
Qed.

(* ===================================================================== *)
(** ** Opening and closing the cards *)
(* ===================================================================== *)

Lemma on_nth_length {A} (f : A -> A) i (l : list A) :
  length (on_nth f i l) = length l.
Proof.
  revert i; induction l as [|x l IH]; intros [|i]; cbn; try reflexivity.
  now rewrite IH.
Qed.

Lemma on_nth_other {A} (f : A -> A) i j (l : list A) :
  i <> j -> nth_error (on_nth f i l) j = nth_error l j.
Proof.
  revert i j; induction l as [|x l IH]; intros [|i] [|j] H; cbn;
    try reflexivity; try contradiction.
  apply IH. congruence.
Qed.

Lemma on_nth_same {A} (f : A -> A) i (l : list A) :
  nth_error (on_nth f i l) i = option_map f (nth_error l i).
Proof.
  revert i; induction l as [|x l IH]; intros [|i]; cbn; try reflexivity.
  apply IH.
Qed.

Lemma on_nth_twice {A} (f : A -> A) i (l : list A) :
  Forall (fun x => f (f x) = x) l -> on_nth f i (on_nth f i l) = l.
Proof.
  intros H. revert i. induction H as [|x l Hx _ IH]; intros [|i]; cbn;
    try reflexivity.
  - now rewrite Hx.
  - now rewrite IH.
Qed.

Lemma flip_details_twice (c : Card) :
  card_details_display c <> DisplayUnset -> flip_details (flip_details c) = c.
Proof.
  destruct c as [? ? ? ? d ?]. cbn. intros H.
  destruct d; [contradiction | reflexivity | reflexivity].
Qed.

Lemma cards_Forall (P : Card -> Prop) (l : list PanelNode) :
  Forall P (cards l) ->
  Forall (fun n => match n with CardNode c => P c | EmptyNode => True end) l.
Proof.
  induction l as [|[|c] l IH]; cbn; intros H; constructor; auto.
  - now inversion H.
  - apply IH. now inversion H.
Qed.

Lemma forEach_tool_cards (P : Card -> Prop) tools :
  forall s,
    (forall t c, renderTool (page s) (expandAllTools (vars s)) t = inl c -> P c) ->
    Forall P (rendered_cards s) ->
    Forall P (rendered_cards (fst (forEach_tool tools s))).
Proof.
  induction tools as [|t tools IH]; intros s Hr Hs; [exact Hs|].
  cbn [forEach_tool].
  destruct (renderTool (page s) (expandAllTools (vars s)) t) as [card|m] eqn:E;
    [|exact Hs].
  apply IH; [exact Hr|].
  unfold rendered_cards in *. cbn [set_toolsBody set_panel panel toolsBody].
  assert (Ec : forall a b, cards (a ++ b) = cards a ++ cards b).
  { induction a as [|[|c] a IHa]; intros b; cbn; [reflexivity | apply IHa|].
    now rewrite IHa. }
  rewrite Ec. apply Forall_app. split; [exact Hs|].
  cbn. constructor; [|constructor]. now apply (Hr t).
Qed.

(** X13: every card a render leaves in the panel has its details open or
    closed as [expandAllTools] says at that moment, whether or not the
    render ran to its end. *)
Theorem X13_render_follows_flag (tools : list ToolRecord) (s : State) :
  Forall (fun c =>
            card_details_display c
            = if expandAllTools (vars s) then DisplayBlock else DisplayNone)
         (rendered_cards (fst (updateTools tools s))) \/
  has_toolsBody (page s) = false /\ fst (updateTools tools s) = s.
Proof.
  unfold updateTools. destruct (has_toolsBody (page s)); cbn [negb];
    [left | right; now split].
  destruct tools as [|t tools].
  - cbn. destruct (has_toolsEmpty (page s)); constructor.
  - apply forEach_tool_cards.
    + intros t0 c Hc. destruct (renderTool_card _ _ _ _ Hc) as (_ & _ & _ & ->).
      destruct (has_toolsEmpty (page (set_toolsBody [] s))); reflexivity.
    + destruct (has_toolsEmpty (page (set_toolsBody [] s))); constructor.
Qed.

(** X14: a click on a card opens or closes the details of that card and
    nothing else: the other children of the panel, the flags, the
    conversation and the network are as before, and an index past the last
    child does nothing.  Where every card is open or closed, as after a
    render, a second click on the same card restores the state. *)
Theorem X14_card_click_is_local (i : nat) (s : State) :
  (forall j, i <> j ->
     nth_error (toolsBody (panel (card_click i s))) j
     = nth_error (toolsBody (panel s)) j) /\
  nth_error (toolsBody (panel (card_click i s))) i
  = option_map (on_card flip_details) (nth_error (toolsBody (panel s)) i) /\
  length (toolsBody (panel (card_click i s))) = length (toolsBody (panel s)) /\
  outside_panel (card_click i s) = outside_panel s /\
  (length (toolsBody (panel s)) <= i -> card_click i s = s) /\
  (Forall (fun c => card_details_display c <> DisplayUnset) (rendered_cards s) ->
   card_click i (card_click i s) = s).
Proof.
  split; [|split; [|split; [|split; [|split]]]].
  - intros j H. apply on_nth_other. exact H.
  - apply on_nth_same.
  - apply on_nth_length.
  - reflexivity.
  - intros H. unfold card_click.
    assert (E : forall (l : list PanelNode) k,
               length l <= k -> on_nth (on_card flip_details) k l = l).
    { induction l as [|x l IHl]; intros [|k] Hk; cbn in *;
        try reflexivity; try lia. f_equal. apply IHl. lia. }
    rewrite E by exact H. destruct s as [? ? ? ? [? ? ? ?] ? ?]. reflexivity.
  - intros H. unfold card_click.
    cbn [set_toolsBody set_panel panel toolsBody toolsEmpty_display
         toggle_active toggle_title].
    rewrite on_nth_twice.
    + destruct s as [? ? ? ? [? ? ? ?] ? ?]. reflexivity.
    + apply cards_Forall in H. revert H. apply Forall_impl.
      intros [|c]; [reflexivity|]. intros Hc. cbn [on_card]. f_equal.
      now apply flip_details_twice.
Qed.

Lemma X14_card_click_is_local_witness :
  let s := fst (updateTools [failed_by_status; timed_tool] blank_document) in
  card_click 1 (card_click 1 s) = s /\ card_click 7 s = s.
Proof.
  intros s. split.
  - apply (proj2 (proj2 (proj2 (proj2 (proj2 (X14_card_click_is_local 1 s)))))).
    repeat constructor; discriminate.
  - apply (proj1 (proj2 (proj2 (proj2 (proj2 (X14_card_click_is_local 7 s)))))).
    cbn. lia.
Defined.

(* ===================================================================== *)
(** ** Trimming the input *)
(* ===================================================================== *)

Lemma trim_start_split (s : jsstring) :
  exists pre, s = pre ++ trim_start s /\
              Forall (fun c => is_trim_space c = true) pre.
Proof.
  induction s as [|c s (pre & E & F)]; [now exists []|].
  cbn [trim_start]. destruct (is_trim_space c) eqn:Ec.
  - exists (c :: pre). split; [cbn; now f_equal | now constructor].
  - now exists [].
Qed.

Lemma trim_start_head (s : jsstring) :
  match trim_start s with
  | [] => True
  | c :: _ => is_trim_space c = false
  end.
Proof.
  induction s as [|c s IH]; [exact I|]. cbn [trim_start].
  destruct (is_trim_space c) eqn:Ec; [exact IH | exact Ec].
Qed.

Lemma trim_start_all (s : jsstring) :
  Forall (fun c => is_trim_space c = true) s -> trim_start s = [].
Proof. induction 1 as [|c s Hc _ IH]; [reflexivity|]. cbn. now rewrite Hc. Qed.

Lemma trim_start_stop (a : jsstring) (h : N) (b : jsstring) :
  is_trim_space h = false ->
  trim_start (a ++ h :: b) = trim_start a ++ h :: b.
Proof.
  intros Hh. induction a as [|c a IH]; cbn [app trim_start].
  - now rewrite Hh.
  - destruct (is_trim_space c); [exact IH | reflexivity].
Qed.

Lemma trim_cons (s : jsstring) (h : N) (u : jsstring) :
  trim_start s = h :: u ->
  trim s = h :: List.rev (trim_start (List.rev u)).
Proof.
  intros E. unfold trim. rewrite E. cbn [List.rev].
  pose proof (trim_start_head s) as Hh. rewrite E in Hh.
  rewrite trim_start_stop by exact Hh.
  now rewrite rev_app_distr.
Qed.

Lemma trimmed_fixed (s : jsstring) : trimmed s -> trim s = s.
Proof.
  destruct s as [|c r]; [reflexivity|]. intros [Hc Hl].
  assert (E : trim_start (c :: r) = c :: r) by (cbn; now rewrite Hc).
  unfold trim. rewrite E.
  rewrite (app_removelast_last c (l := c :: r)) at 1 by discriminate.
  rewrite rev_app_distr. cbn [List.rev app trim_start]. rewrite Hl.
  change (last (c :: r) c :: List.rev (removelast (c :: r)))
    with (List.rev [last (c :: r) c] ++ List.rev (removelast (c :: r))).
  rewrite <- rev_app_distr, rev_involutive.
  symmetry. apply app_removelast_last. discriminate.
Qed.

Lemma trim_all_space (s : jsstring) :
  Forall (fun c => is_trim_space c = true) s -> trim s = [].
Proof. intros H. unfold trim. now rewrite (trim_start_all s H). Qed.

(** X15: [trim] takes white space off both ends and nothing else: every
    string is white space, then its trimmed form, then white space; the
    trimmed form neither starts nor ends with white space; a string that
    already is like that is returned as it is, so trimming twice is
    trimming once; and a string of white space only trims to the empty
    string. *)
Theorem X15_trim :
  (forall s, exists pre post,
     s = pre ++ trim s ++ post /\
     Forall (fun c => is_trim_space c = true) pre /\
     Forall (fun c => is_trim_space c = true) post /\
     trimmed (trim s)) /\
  (forall s, trimmed s -> trim s = s) /\
  (forall s, trim (trim s) = trim s) /\
  (forall s, Forall (fun c => is_trim_space c = true) s -> trim s = []).
Proof.
  assert (K : forall s, exists pre post,
             s = pre ++ trim s ++ post /\
             Forall (fun c => is_trim_space c = true) pre /\
             Forall (fun c => is_trim_space c = true) post /\
             trimmed (trim s)).
  { intros s. destruct (trim_start_split s) as (pre & Es & Fpre).
    destruct (trim_start s) as [|h u] eqn:Eu.
    - exists pre, []. unfold trim. rewrite Eu. cbn.
      repeat split; try assumption. constructor.
    - rewrite (trim_cons s h u Eu).
      destruct (trim_start_split (List.rev u)) as (post & Er & Fpost).
      pose proof (trim_start_head s) as Hh. rewrite Eu in Hh.
      pose proof (trim_start_head (List.rev u)) as Ht.
      exists pre, (List.rev post). repeat split.
      + rewrite Es. f_equal. cbn [app]. f_equal.
        rewrite <- rev_app_distr, <- Er. now rewrite rev_involutive.
      + exact Fpre.
      + now apply Forall_rev.
      + exact Hh.
      + destruct (trim_start (List.rev u)) as [|c t]; [exact Hh|].
        cbn [List.rev].
        change (h :: List.rev t ++ [c]) with ((h :: List.rev t) ++ [c]).
        now rewrite last_last. }
  split; [exact K|]. split; [exact trimmed_fixed|]. split.
  - intros s. destruct (K s) as (_ & _ & _ & _ & _ & Ht).
    now apply trimmed_fixed.
  - exact trim_all_space.
Qed.

Lemma X15_trim_witness :
  trim (js "a  b") = js "a  b" /\ trim [32%N; 9%N; 160%N; 10%N] = [].
Proof.
  split.
  - apply (proj1 (proj2 X15_trim)). split; reflexivity.
  - apply (proj2 (proj2 (proj2 X15_trim))). repeat constructor.
Defined.

(** X16: input of white space only is not sent.  The call changes nothing:
    no bubble, no request, the guard stays clear, and the white space
    stays in the input. *)
Theorem X16_blank_input_is_not_sent (s : State) :
  Forall (fun c => is_trim_space c = true) (input_value (composer s)) ->
  sendMessage s = s /\
  (forall text,
     Forall (fun c => is_trim_space c = true) text ->
     step (ChipClick text) s = Some (with_input text s)).
Proof.
  intros H. split.
  - apply sendMessage_blank. now apply trim_all_space.
  - intros text Ht. cbn [step]. f_equal.
    change (sendMessage (with_input text s) = with_input text s).
    apply sendMessage_blank. cbn. now apply trim_all_space.
Qed.

Lemma X16_blank_input_is_not_sent_witness :
  sendMessage (with_input [32%N; 10%N; 32%N] blank_document)
  = with_input [32%N; 10%N; 32%N] blank_document.
Proof.
  apply (X16_blank_input_is_not_sent (with_input [32%N; 10%N; 32%N] blank_document)).
  repeat constructor.
Defined.

(* ===================================================================== *)
(** ** The sleep cycle *)
(* ===================================================================== *)

Lemma pending_count_app (f : Pending -> bool) l k :
  length (filter f (l ++ [k]))
  = length (filter f l) + (if f k then 1 else 0).
Proof. rewrite filter_app, length_app. simpl. destruct (f k); reflexivity. Qed.

Lemma resume_count_by (f : Pending -> bool) p l rest :
  resume p l = Some rest ->
  length (filter f l) = length (filter f rest) + (if f p then 1 else 0).
Proof.
  revert rest; induction l as [|x l IH]; intros rest H; [discriminate|].
  simpl in H. destruct (pending_eqb p x) eqn:E.
  - injection H as <-. apply pending_eqb_eq in E. subst x.
    simpl. destruct (f p); simpl; lia.
  - destruct (resume p l) as [rest'|]; [|discriminate].
    injection H as <-. specialize (IH _ eq_refl).
    simpl. destruct (f x); simpl; lia.
Qed.

Lemma sleep_settled_effect o s :
  sleep_busy (sleep_settled o s) = false /\
  messagesContent (conversation (sleep_settled o s))
  = messagesContent (conversation s)
    ++ [BubbleNode (bubble_of (js "system") (sleep_notice o) Now)] /\
  requests (net (sleep_settled o s)) = requests (net s) /\
  pending (net (sleep_settled o s))
  = pending (net s) ++ (if sleep_succeeded o then [SleepReloadTimer] else []) /\
  vars (sleep_settled o s) = vars s /\ panel (sleep_settled o s) = panel s /\
  composer (sleep_settled o s) = composer s.
Proof.
  unfold sleep_settled, sleep_notice, sleep_succeeded.
  destruct o as [m|code|m|[[st|] message]];
    try destruct (streq st (js "success"));
    cbn [set_sleep_busy sleep_busy conversation net set_net requests pending
         vars panel composer];
    rewrite ?appendMessage_nodes, ?app_nil_r;
    repeat split;
    try (rewrite <- app_assoc; reflexivity);
    match goal with
    | |- context [appendMessage ?r ?c ?t ?x] =>
        pose proof (appendMessage_outside r c t x) as E;
        unfold outside_conversation in E; now injection E
    end.
Qed.

Ltac sleep_crush :=
  unfold sleep_view, sleep_in_flight, reset_click,
    sleep_click, model_change, card_click, toggle_click, loadChatHistory,
    loadAvailableModels_settled, sendMessage, sendMessage_settled,
    chat_finally, set_sending_controls, set_isSending, set_selectedModel,
    set_toolsBody, fetch, set_pending;
  repeat match goal with
    | |- context [if ?b then _ else _] => destruct b
    | |- context [match ?o with NetworkFailure _ => _ | _ => _ end] => destruct o
    | |- context [match ?o with (_, _) => _ end] => destruct o
    end;
  cbn [vars composer net page sleep_busy set_net set_vars set_composer
       set_panel set_sleep_busy requests pending];
  frames;
  cbn [vars composer net page sleep_busy set_net set_vars set_composer
       set_panel set_sleep_busy requests pending];
  rewrite ?pending_count_app; cbn [is_sleep];
  rewrite ?Nat.add_0_r;
  try congruence.

(** The turns of the event loop other than a confirmed click on the sleep
    button and the settlement of its request leave both as they are. *)
Lemma step_sleep_view e s s' :
  step e s = Some s' ->
  match e with
  | SleepClick true => s' = sleep_click true s /\ sleep_busy s = false
  | SleepSettled o =>
      exists rest,
        resume SleepPending (pending (net s)) = Some rest /\
        s' = sleep_settled o (set_pending rest s)
  | _ => sleep_view s' = sleep_view s
  end.
Proof.
  intros H. destruct e; cbn [step] in H; unfold resuming in H;
    repeat match type of H with
      | context [if ?b then _ else _] =>
          let E := fresh "E" in destruct b eqn:E
      end;
    try discriminate.
  15:{ destruct (resume SleepPending (pending (net s))) as [rest|] eqn:Er;
         [|discriminate].
       injection H as <-. now exists rest. }
  all: try match type of H with
      | context [resume ?p ?l] =>
          let Er := fresh "Er" in
          destruct (resume p l) eqn:Er; [|discriminate];
          apply (resume_count_by is_sleep) in Er; cbn [is_sleep] in Er;
          rewrite ?Nat.add_0_r in Er
      end.
  all: injection H as <-.
  all: try (sleep_crush; fail).
  destruct confirmed; [now split | reflexivity].
Qed.

Lemma step_sleep_guard e s s' :
  step e s = Some s' ->
  sleep_in_flight s = (if sleep_busy s then 1 else 0) ->
  sleep_in_flight s' = (if sleep_busy s' then 1 else 0).
Proof.
  intros H Hinv. apply step_sleep_view in H.
  assert (K : sleep_view s' = sleep_view s ->
              sleep_in_flight s' = (if sleep_busy s' then 1 else 0)).
  { unfold sleep_view. intros [= -> ->]. exact Hinv. }
  destruct e; try (now apply K).
  - destruct confirmed; [|now apply K]. destruct H as [-> Hb].
    rewrite Hb in Hinv. unfold sleep_click, sleep_in_flight in *.
    cbn [fetch set_net net pending sleep_busy].
    rewrite pending_count_app. cbn [is_sleep].
    change (pending (net (appendMessage (js "system")
                            (js "Starting sleep cycle...") Now
                            (set_sleep_busy true s))))
      with (pending (net s)).
    now rewrite Hinv.
  - destruct H as (rest & Er & ->).
    apply (resume_count_by is_sleep) in Er. cbn [is_sleep] in Er.
    destruct (sleep_settled_effect o (set_pending rest s)) as (-> & _ & _ & E4 & _).
    unfold sleep_in_flight in *. rewrite E4.
    cbn [set_pending set_net net pending].
    rewrite filter_app, length_app.
    assert (E0 : length (filter is_sleep
                           (if sleep_succeeded o then [SleepReloadTimer] else []))
                 = 0) by (destruct (sleep_succeeded o); reflexivity).
    rewrite E0. destruct (sleep_busy s); lia.
Qed.

(** X17: the sleep button is busy exactly while its request is pending.
    On a page that loads with the button enabled, every reachable state
    has at most one sleep request in flight, and has one exactly when the
    button is disabled. *)
Theorem X17_one_sleep_at_a_time (doc s : State) :
  sleep_busy doc = false ->
  reachable doc s ->
  sleep_in_flight s = (if sleep_busy s then 1 else 0).
Proof.
  intros Hd Hr. induction Hr as [|e s s' _ IH Hstep].
  - cbn. now rewrite Hd.
  - now apply (step_sleep_guard e s).
Qed.

Lemma X17_one_sleep_at_a_time_witness :
  sleep_in_flight (sleep_click true (initial_state blank_document)) = 1 /\
  step (SleepClick true) (sleep_click true (initial_state blank_document)) = None.
Proof.
  split; [|reflexivity].
  apply (X17_one_sleep_at_a_time blank_document); [reflexivity|].
  apply (reach_step _ (SleepClick true) (initial_state blank_document));
    [constructor | reflexivity].
Defined.

(** X18: however the sleep request ends, the handler appends exactly one
    system notice and enables the button again.  The notice of a
    non-success status repeats its prefix ("Failed to start sleep: Failed
    to start sleep: <status>"); a body whose status is not "success" gives
    "Sleep error: " with the server's message or "Unknown error".  Only a
    declared success sets the reload timer, and when that fires the view is
    reset and the history is requested once. *)
Theorem X18_sleep_settles (o : Settled (option jsstring * option jsstring))
        (s : State) :
  sleep_busy (sleep_settled o s) = false /\
  messagesContent (conversation (sleep_settled o s))
  = messagesContent (conversation s)
    ++ [BubbleNode (bubble_of (js "system") (sleep_notice o) Now)] /\
  requests (net (sleep_settled o s)) = requests (net s) /\
  pending (net (sleep_settled o s))
  = pending (net s) ++ (if sleep_succeeded o then [SleepReloadTimer] else []) /\
  (forall s',
     sleep_succeeded o = true ->
     pending (net s) = [] ->
     step SleepReloadTimerFires (sleep_settled o s) = Some s' ->
     typing_nodes s' = 0 /\
     messagesContent (conversation s')
     = (if has_welcomeMessage (page s) then [WelcomeNode] else []) /\
     requests (net s') = requests (net s) ++ [HistoryRequest] /\
     pending (net s') = [HistoryPending]) /\
  (sleep_succeeded o = false ->
   pending (net s) = [] ->
   step SleepReloadTimerFires (sleep_settled o s) = None).
Proof.
  destruct (sleep_settled_effect o s) as (E1 & E2 & E3 & E4 & _).
  repeat split; try assumption.
  - cbn [step] in H1. unfold resuming in H1. rewrite E4, H, H0 in H1.
    cbn in H1. injection H1 as <-. apply resetChatUI_count.
  - cbn [step] in H1. unfold resuming in H1. rewrite E4, H, H0 in H1.
    cbn [app resume pending_eqb] in H1. injection H1 as <-.
    unfold loadChatHistory.
    cbn [fetch set_net conversation]. rewrite resetChatUI_nodes.
    cbn [set_pending set_net page].
    pose proof (outside_views_parts _ _
                  (outside_conversation_views _ _
                     (appendMessage_outside (js "system") (sleep_notice o) Now s)))
      as _.
    unfold sleep_settled.
    cbn [set_sleep_busy page].
    destruct o as [m|code|m|[[st|] message]]; try discriminate H.
    cbn [sleep_succeeded] in H. rewrite H. cbn [set_net page].
    pose proof (appendMessage_outside (js "system")
                  (js "Sleep cycle completed successfully! Memory updates have been made.")
                  Now s) as E.
    destruct (outside_conversation_parts _ _ E) as (-> & _). reflexivity.
  - cbn [step] in H1. unfold resuming in H1. rewrite E4, H, H0 in H1.
    cbn [app resume pending_eqb] in H1. injection H1 as <-.
    unfold loadChatHistory. cbn [fetch set_net net requests].
    pose proof (resetChatUI_outside (set_pending [] (sleep_settled o s))) as E.
    destruct (outside_views_parts _ _ E) as (_ & _ & _ & _ & ->).
    cbn [set_pending set_net net requests]. now rewrite E3.
  - cbn [step] in H1. unfold resuming in H1. rewrite E4, H, H0 in H1.
    cbn [app resume pending_eqb] in H1. injection H1 as <-.
    unfold loadChatHistory. cbn [fetch set_net net pending].
    pose proof (resetChatUI_outside (set_pending [] (sleep_settled o s))) as E.
    destruct (outside_views_parts _ _ E) as (_ & _ & _ & _ & ->).
    reflexivity.
  - intros Hf Hp. cbn [step]. unfold resuming. rewrite E4, Hf, Hp. reflexivity.
Qed.

Lemma X18_sleep_settles_witness :
  exists s',
    step SleepReloadTimerFires
      (sleep_settled (Body (Some (js "success"), None)) blank_document) = Some s' /\
    requests (net s') = [HistoryRequest] /\
    messagesContent (conversation s') = [WelcomeNode].
Proof.
  eexists. split; [reflexivity|].
  destruct (proj1 (proj2 (proj2 (proj2 (proj2
              (X18_sleep_settles (Body (Some (js "success"), None))
                                 blank_document)))))
              _ eq_refl eq_refl eq_refl) as (_ & Hn & Hr & _).
  split; [exact Hr | exact Hn].
Defined.

(* ===================================================================== *)
(** ** Start-up, model choice, and a reply after a reset *)
(* ===================================================================== *)

(** X19: on start-up the model catalogue is requested when the delay has
    passed, and the history is requested when the catalogue request has
    settled, whichever way it ended; until then nothing is requested and
    neither view is touched. *)
Theorem X19_startup_order (doc : State)
        (o : Settled (list ModelEntry * option jsstring)) :
  requests (net (initial_state doc)) = [] /\
  step (ModelsSettled o) (initial_state doc) = None /\
  exists s1 s2,
    step StartupDelayElapsed (initial_state doc) = Some s1 /\
    requests (net s1) = [ModelsRequest] /\
    step (ModelsSettled o) s1 = Some s2 /\
    requests (net s2) = [ModelsRequest; HistoryRequest] /\
    pending (net s2) = [HistoryPending] /\
    conversation s2 = conversation doc /\ panel s2 = panel doc /\
    isSending (vars s2) = false.
Proof.
  split; [reflexivity|]. split; [reflexivity|].
  eexists. eexists. split; [reflexivity|]. split; [reflexivity|].
  split; [reflexivity|].
  unfold loadChatHistory, loadAvailableModels_settled.
  destruct o as [m|code|m|[models default]]; try (repeat split; fail).
  match goal with |- context [if ?b then _ else _] => destruct b end;
    repeat split.
Qed.

(** X20: choosing a model takes effect at once: the variable holds the
    chosen value, one system notice "Model changed to: <label>" is
    appended, and the next request that is sent names the chosen model. *)
Theorem X20_model_change (value label input : jsstring) (s : State) :
  isSending (vars s) = false ->
  trim input <> [] ->
  let s1 := model_change value label s in
  selectedModel (vars s1) = value /\
  messagesContent (conversation s1)
  = messagesContent (conversation s)
    ++ [BubbleNode (bubble_of (js "system")
                      (js "Model changed to: " ++ label) Now)] /\
  welcome_display (conversation s1) = welcome_display (conversation s) /\
  requests (net (sendMessage (with_input input s1)))
  = requests (net s)
    ++ [ChatRequest (showToolOutput (vars s)) value (trim input)].
Proof.
  intros Hs Ht s1. subst s1. unfold model_change.
  assert (Ev : vars (appendMessage (js "system")
                       (js "Model changed to: " ++ label) Now
                       (set_selectedModel value s))
               = vars (set_selectedModel value s)) by reflexivity.
  assert (En : net (appendMessage (js "system")
                      (js "Model changed to: " ++ label) Now
                      (set_selectedModel value s)) = net s) by reflexivity.
  split; [now rewrite Ev|].
  split; [rewrite appendMessage_nodes; reflexivity|].
  split; [reflexivity|].
  set (s1 := appendMessage (js "system") (js "Model changed to: " ++ label) Now
               (set_selectedModel value s)) in *.
  destruct (sendMessage_issues (with_input input s1)) as (_ & _ & _ & H4 & _).
  - cbn [with_input set_composer vars]. now rewrite Ev.
  - exact Ht.
  - rewrite H4. cbn [with_input set_composer vars net composer input_value].
    now rewrite En, Ev.
Qed.

Lemma X20_model_change_witness :
  requests
    (net (sendMessage
            (with_input (js "hi")
               (model_change (js "gemini-2.5-pro") (js "Gemini 2.5 Pro")
                  blank_document))))
  = [ChatRequest true (js "gemini-2.5-pro") (js "hi")].
Proof.
  apply (X20_model_change (js "gemini-2.5-pro") (js "Gemini 2.5 Pro") (js "hi")
           blank_document eq_refl).
  discriminate.
Defined.

Lemma append_assistant_messages_welcome ms :
  forall s,
    welcome_display (conversation (append_assistant_messages ms s))
    = welcome_display (conversation s).
Proof.
  unfold append_assistant_messages.
  induction ms as [|m ms IH]; intros s; [reflexivity|].
  cbn [fold_left]. rewrite IH.
  destruct (is_assistant_role (cm_role m)); [|reflexivity].
  now rewrite appendMessage_welcome.
Qed.

Lemma chat_try_welcome o s :
  welcome_display (conversation (fst (chat_try o s)))
  = welcome_display (conversation s).
Proof.
  destruct o as [m|code|m|data]; try reflexivity. cbn [chat_try].
  rewrite <- (hideTyping_welcome s).
  destruct (cr_error data) as [[|c r]|];
    destruct (cr_tools data) as [tools|];
    destruct (cr_messages data) as [ms|];
    destruct (cr_reply data) as [[|c' r']|];
    cbn [fst];
    rewrite ?updateTools_conversation, ?append_assistant_messages_welcome,
      ?appendMessage_welcome; reflexivity.
Qed.

Lemma sendMessage_settled_welcome o s :
  welcome_display (conversation (sendMessage_settled o s))
  = welcome_display (conversation s).
Proof.
  unfold sendMessage_settled.
  change (welcome_display (conversation (chat_catch (chat_try o s)))
          = welcome_display (conversation s)).
  rewrite <- (chat_try_welcome o s).
  destruct (chat_try o s) as [s1 [|m]]; [reflexivity|].
  cbn [chat_catch fst]. now rewrite appendMessage_welcome, hideTyping_welcome.
Qed.

Lemma chat_try_extends o s :
  typing_nodes s = 0 ->
  exists added,
    messagesContent (conversation (fst (chat_try o s)))
    = messagesContent (conversation s) ++ added.
Proof.
  intros Hn. destruct o as [m|code|m|data];
    try (exists []; cbn; now rewrite app_nil_r).
  cbn [chat_try]. rewrite (hideTyping_absent s Hn).
  destruct (cr_error data) as [[|c r]|];
    destruct (cr_tools data) as [tools|];
    destruct (cr_messages data) as [ms|];
    destruct (cr_reply data) as [[|c' r']|];
    cbn [fst];
    rewrite ?updateTools_conversation, ?append_assistant_messages_nodes,
      ?appendMessage_nodes;
    first [ eexists; reflexivity | exists []; now rewrite app_nil_r ].
Qed.

(** X21: a reply never touches the welcome placeholder: appends with a role
    other than "user" leave its display as it is, and so does the whole
    settlement of a chat request.  After a reset made while a request was
    pending, the reply is therefore shown below a visible placeholder. *)
Theorem X21_reply_keeps_placeholder :
  (forall role content time s,
     role <> js "user" ->
     welcome_display (conversation (appendMessage role content time s))
     = welcome_display (conversation s)) /\
  (forall o s,
     welcome_display (conversation (sendMessage_settled o s))
     = welcome_display (conversation s)) /\
  (forall o s,
     has_welcomeMessage (page s) = true ->
     welcome_display
       (conversation (sendMessage_settled o (resetChatUI s))) = DisplayUnset /\
     exists added,
       messagesContent (conversation (sendMessage_settled o (resetChatUI s)))
       = WelcomeNode :: added).
Proof.
  split; [|split].
  - intros role content time s Hr. rewrite appendMessage_welcome.
    destruct (streq role (js "user")) eqn:E; [|reflexivity].
    apply streq_eq in E. contradiction.
  - exact sendMessage_settled_welcome.
  - intros o s Hw. rewrite sendMessage_settled_welcome. split.
    + unfold resetChatUI. rewrite Hw. cbn.
      destruct (has_toolsBody (page s)); cbn;
        destruct (has_toolsEmpty (page s)); reflexivity.
    + pose proof (resetChatUI_count s) as Hn.
      pose proof (resetChatUI_nodes s) as Hnodes. rewrite Hw in Hnodes.
      destruct (chat_try_extends o (resetChatUI s) Hn) as (added & Ea).
      rewrite Hnodes in Ea. unfold sendMessage_settled.
      change (messagesContent
                (conversation (chat_finally (chat_catch (chat_try o (resetChatUI s))))))
        with (messagesContent
                (conversation (chat_catch (chat_try o (resetChatUI s))))).
      pose proof (proj1 (chat_try_count o (resetChatUI s))) as Hc.
      rewrite Hn in Hc.
      destruct (chat_try o (resetChatUI s)) as [s1 [|m]]; cbn [fst] in *.
      * now exists added.
      * cbn [chat_catch]. rewrite appendMessage_nodes.
        rewrite hideTyping_absent by lia. rewrite Ea.
        eexists. cbn [app]. reflexivity.
Qed.

Lemma X21_reply_keeps_placeholder_witness :
  welcome_display
    (conversation
       (appendMessage (js "system") (js "Starting sleep cycle...") Now
          blank_document)) = DisplayUnset /\
  welcome_display
    (conversation (sendMessage_settled (Body reply_response)
                     (resetChatUI blank_document))) = DisplayUnset.
Proof.
  split.
  - apply (proj1 X21_reply_keeps_placeholder). discriminate.
  - apply (proj2 (proj2 X21_reply_keeps_placeholder)). reflexivity.
Defined.

(* ===================================================================== *)
(** ** The model selector: grouping and order *)
(* ===================================================================== *)

Lemma streq_sym a b : streq a b = streq b a.
Proof.
  destruct (streq a b) eqn:E1, (streq b a) eqn:E2; try reflexivity.
  - apply streq_eq in E1. subst. now rewrite streq_refl in E2.
  - apply streq_eq in E2. subst. now rewrite streq_refl in E1.
Qed.

Lemma str_leb_total a b : str_leb a b = false -> str_leb b a = true.
Proof.
  revert b; induction a as [|x a IH]; intros [|y b]; cbn; try congruence.
  destruct (N.ltb x y) eqn:E1; [discriminate|].
  destruct (N.eqb x y) eqn:E2.
  - apply N.eqb_eq in E2. subst y. rewrite N.ltb_irrefl, N.eqb_refl. apply IH.
  - intros _. apply N.ltb_ge in E1. apply N.eqb_neq in E2.
    assert (H : (y < x)%N) by lia. apply N.ltb_lt in H. now rewrite H.
Qed.

Lemma insert_key_perm k l : Permutation (insert_key k l) (k :: l).
Proof.
  induction l as [|x l IH]; [reflexivity|]. cbn [insert_key].
  destruct (str_leb k x); [reflexivity|].
  rewrite IH. apply perm_swap.
Qed.

Lemma sort_keys_perm l : Permutation (sort_keys l) l.
Proof.
  induction l as [|k l IH]; [reflexivity|].
  cbn [sort_keys fold_right]. rewrite insert_key_perm. now constructor.
Qed.

Lemma insert_key_sorted k l :
  Sorted (fun a b => str_leb a b = true) l ->
  Sorted (fun a b => str_leb a b = true) (insert_key k l).
Proof.
  induction 1 as [|x l Hs IH Hx]; [repeat constructor|].
  cbn [insert_key]. destruct (str_leb k x) eqn:E.
  - repeat constructor; assumption.
  - constructor; [exact IH|].
    destruct l as [|y l]; cbn [insert_key].
    + constructor. now apply str_leb_total.
    + destruct (str_leb k y).
      * constructor. now apply str_leb_total.
      * constructor. now inversion Hx.
Qed.

Lemma sort_keys_sorted l :
  Sorted (fun a b => str_leb a b = true) (sort_keys l).
Proof.
  induction l as [|k l IH]; [constructor|]. now apply insert_key_sorted.
Qed.

Lemma group_push_lookup m g k :
  lookup_group k (group_push m g)
  = if streq k (me_provider m) then lookup_group k g ++ [m]
    else lookup_group k g.
Proof.
  induction g as [|[k' ms] g IH]; cbn [group_push lookup_group].
  - destruct (streq k (me_provider m)); reflexivity.
  - destruct (streq (me_provider m) k') eqn:E; cbn [lookup_group].
    + apply streq_eq in E. subst k'.
      destruct (streq k (me_provider m)); reflexivity.
    + destruct (streq k k') eqn:E'; [|exact IH].
      apply streq_eq in E'. subst k'. rewrite streq_sym in E. now rewrite E.
Qed.

Lemma group_push_keys m g :
  List.map fst (group_push m g)
  = if existsb (streq (me_provider m)) (List.map fst g)
    then List.map fst g else List.map fst g ++ [me_provider m].
Proof.
  induction g as [|[k' ms] g IH]; [reflexivity|].
  cbn [group_push List.map fst existsb].
  destruct (streq (me_provider m) k'); [reflexivity|].
  cbn [List.map fst orb]. rewrite IH.
  destruct (existsb (streq (me_provider m)) (List.map fst g)); reflexivity.
Qed.

Lemma group_models_snoc models m :
  group_models (models ++ [m])
  = match group_models models with
    | None => None
    | Some g =>
        if is_inherited_key (me_provider m) then None
        else Some (group_push m g)
    end.
Proof. unfold group_models. now rewrite fold_left_app. Qed.

(** The grouping of a catalogue without an inherited provider name. *)
Lemma group_models_spec models :
  Forall (fun m => is_inherited_key (me_provider m) = false) models ->
  exists g,
    group_models models = Some g /\
    (forall k, lookup_group k g
               = filter (fun m => streq k (me_provider m)) models) /\
    NoDup (List.map fst g) /\
    (forall k, In k (List.map fst g) <->
               exists m, In m models /\ me_provider m = k).
Proof.
  induction models as [|m models IH] using rev_ind; intros H.
  - exists []. repeat split; try constructor.
    + intros [].
    + intros (m & [] & _).
  - apply Forall_app in H as [Hm Hl]. inversion Hl as [|? ? Hk _]; subst.
    destruct (IH Hm) as (g & Eg & Hlook & Hnd & Hin).
    exists (group_push m g). rewrite group_models_snoc, Eg, Hk.
    split; [reflexivity|]. split; [|split].
    + intros k. rewrite group_push_lookup, filter_app, Hlook. cbn [filter].
      destruct (streq k (me_provider m)); [reflexivity | now rewrite app_nil_r].
    + rewrite group_push_keys.
      destruct (existsb (streq (me_provider m)) (List.map fst g)) eqn:E;
        [exact Hnd|].
      apply NoDup_app; [exact Hnd | repeat constructor; intros [] |].
      intros k Hk1 [<-|[]].
      assert (existsb (streq (me_provider m)) (List.map fst g) = true).
      { apply existsb_exists. exists (me_provider m).
        split; [exact Hk1 | apply streq_refl]. }
      congruence.
    + intros k. rewrite group_push_keys. split.
      * intros Hk1.
        destruct (existsb (streq (me_provider m)) (List.map fst g)) eqn:E.
        -- apply Hin in Hk1 as (m0 & Hm0 & <-). exists m0.
           split; [apply in_or_app; now left | reflexivity].
        -- apply in_app_or in Hk1 as [Hk1|[<-|[]]].
           ++ apply Hin in Hk1 as (m0 & Hm0 & <-). exists m0.
              split; [apply in_or_app; now left | reflexivity].
           ++ exists m. split; [apply in_or_app; right; now left | reflexivity].
      * intros (m0 & Hm0 & <-). apply in_app_or in Hm0 as [Hm0|[<-|[]]].
        -- assert (In (me_provider m0) (List.map fst g))
             by (apply Hin; now exists m0).
           destruct (existsb (streq (me_provider m)) (List.map fst g));
             [assumption | apply in_or_app; now left].
        -- destruct (existsb (streq (me_provider m)) (List.map fst g)) eqn:E.
           ++ apply existsb_exists in E as (k & Hk1 & Hk2).
              apply streq_eq in Hk2. now subst k.
           ++ apply in_or_app. right. now left.
Qed.

Lemma flat_map_filter_cons (m : ModelEntry) (ms : list ModelEntry)
      (ks : list jsstring) :
  ~ In (me_provider m) ks ->
  flat_map (fun k => filter (fun x => streq k (me_provider x)) (m :: ms)) ks
  = flat_map (fun k => filter (fun x => streq k (me_provider x)) ms) ks.
Proof.
  induction ks as [|k ks IH]; intros H; [reflexivity|].
  cbn [flat_map]. rewrite IH by (intros Hin; apply H; now right).
  cbn [filter]. destruct (streq k (me_provider m)) eqn:E; [|reflexivity].
  apply streq_eq in E. subst k. exfalso. apply H. now left.
Qed.

(** Listing the catalogue provider by provider lists every model once. *)
Lemma by_provider_perm (models : list ModelEntry) (ks : list jsstring) :
  NoDup ks ->
  (forall m, In m models -> In (me_provider m) ks) ->
  Permutation
    (flat_map (fun k => filter (fun x => streq k (me_provider x)) models) ks)
    models.
Proof.
  intros Hnd. induction models as [|m ms IH]; intros Hc.
  - assert (E : forall l : list jsstring,
               flat_map (fun k => filter (fun x => streq k (me_provider x)) []) l
               = []) by (induction l; auto).
    now rewrite E.
  - destruct (in_split _ _ (Hc m (or_introl eq_refl))) as (k1 & k2 & ->).
    apply NoDup_remove in Hnd as Hnd'. destruct Hnd' as [Hnd' Hnotin].
    rewrite flat_map_app. cbn [flat_map].
    rewrite (flat_map_filter_cons m ms k1)
      by (intros H; apply Hnotin, in_or_app; now left).
    rewrite (flat_map_filter_cons m ms k2)
      by (intros H; apply Hnotin, in_or_app; now right).
    cbn [filter]. rewrite streq_refl. cbn [app]. rewrite <- Permutation_middle. constructor.
    specialize (IH (fun m0 H0 => Hc m0 (or_intror H0))).
    rewrite flat_map_app in IH. exact IH.
Qed.

(** X22: the selector lists a catalogue by provider.  For a catalogue that
    is not empty and has no provider named like an inherited property, the
    groups are the distinct providers in code-unit order, each group holds
    the models of its provider in catalogue order and is not empty, and
    all groups together hold every model exactly once. *)
Theorem X22_selector_groups (p : Page) (models : list ModelEntry)
        (default : option jsstring) :
  has_modelSelector p = true ->
  models <> [] ->
  Forall (fun m => is_inherited_key (me_provider m) = false) models ->
  exists groups,
    selector_after p (Body (models, default)) = OptionGroups groups /\
    Sorted (fun a b => str_leb a b = true) (List.map fst groups) /\
    NoDup (List.map fst groups) /\
    (forall k, In k (List.map fst groups) <->
               exists m, In m models /\ me_provider m = k) /\
    Forall (fun g =>
              snd g = filter (fun m => streq (fst g) (me_provider m)) models /\
              snd g <> [])
           groups /\
    Permutation (flat_map snd groups) models.
Proof.
  intros Hp Hne Hk.
  destruct (group_models_spec models Hk) as (g & Eg & Hlook & Hnd & Hin).
  set (ks := sort_keys (List.map fst g)).
  assert (Pk : Permutation ks (List.map fst g)) by apply sort_keys_perm.
  exists (List.map (fun k => (k, lookup_group k g)) ks).
  assert (Ek : List.map fst (List.map (fun k => (k, lookup_group k g)) ks) = ks).
  { rewrite map_map. cbn [fst]. apply map_id. }
  rewrite Ek. split; [|split; [|split; [|split; [|split]]]].
  - unfold selector_after. rewrite Hp, Eg.
    destruct models; [contradiction | reflexivity].
  - apply sort_keys_sorted.
  - apply (Permutation_NoDup (Permutation_sym Pk) Hnd).
  - intros k. rewrite <- Hin. split; apply Permutation_in;
      [exact Pk | exact (Permutation_sym Pk)].
  - apply Forall_map. apply Forall_forall. intros k Hk1. cbn [fst snd].
    split; [apply Hlook|].
    apply (Permutation_in _ Pk) in Hk1. apply Hin in Hk1 as (m & Hm & <-).
    rewrite Hlook. intros E.
    assert (Hf : In m (filter (fun x => streq (me_provider m) (me_provider x))
                              models))
      by (apply filter_In; split; [exact Hm | apply streq_refl]).
    rewrite E in Hf. exact Hf.
  - rewrite flat_map_concat_map, map_map. cbn [snd].
    rewrite <- flat_map_concat_map.
    rewrite (flat_map_ext _ (fun k => filter (fun x => streq k (me_provider x)) models))
      by (intros k; apply Hlook).
    apply by_provider_perm.
    + apply (Permutation_NoDup (Permutation_sym Pk) Hnd).
    + intros m Hm. apply (Permutation_in _ (Permutation_sym Pk)).
      apply Hin. now exists m.
Qed.

Lemma X22_selector_groups_witness :
  exists groups,
    selector_after full_page (Body (example_catalogue, None))
    = OptionGroups groups /\
    List.map fst groups = [js "anthropic"; js "google"; js "openai"] /\
    Permutation (flat_map snd groups) example_catalogue.
Proof.
  destruct (X22_selector_groups full_page example_catalogue None eq_refl
              ltac:(discriminate) ltac:(repeat constructor))
    as (groups & E & _ & _ & _ & _ & P).
  exists groups. split; [exact E|]. split; [|exact P].
  cbv in E. injection E as <-. reflexivity.
Defined.

Lemma grouped_options_perm (models : list ModelEntry) (g : Groups) :
  (forall k, lookup_group k g
             = filter (fun m => streq k (me_provider m)) models) ->
  NoDup (List.map fst g) ->
  (forall k, In k (List.map fst g) <->
             exists m, In m models /\ me_provider m = k) ->
  Permutation
    (flat_map snd
       (List.map (fun k => (k, lookup_group k g)) (sort_keys (List.map fst g))))
    models.
Proof.
  intros Hlook Hnd Hin.
  assert (Pk : Permutation (sort_keys (List.map fst g)) (List.map fst g))
    by apply sort_keys_perm.
  rewrite flat_map_concat_map, map_map. cbn [snd].
  rewrite <- flat_map_concat_map.
  rewrite (flat_map_ext _ (fun k => filter (fun x => streq k (me_provider x)) models))
    by (intros k; apply Hlook).
  apply by_provider_perm.
  - apply (Permutation_NoDup (Permutation_sym Pk) Hnd).
  - intros m Hm. apply (Permutation_in _ (Permutation_sym Pk)).
    apply Hin. now exists m.
Qed.

(** The grouping raises as soon as one provider is an inherited name. *)
Lemma group_models_inherited (models : list ModelEntry) :
  Exists (fun m => is_inherited_key (me_provider m) = true) models ->
  group_models models = None.
Proof.
  induction models as [|m models IH] using rev_ind; intros Hex.
  - inversion Hex.
  - rewrite group_models_snoc. apply Exists_app in Hex as [Hex|Hex].
    + now rewrite (IH Hex).
    + inversion Hex as [? ? Hm|? ? Hm]; [|inversion Hm]. subst.
      rewrite Hm. now destruct (group_models models).
Qed.

Lemma listed_iff (models : list ModelEntry) (id : jsstring) :
  existsb (fun m => streq (me_id m) id) models = true <->
  exists m, In m models /\ me_id m = id.
Proof.
  rewrite existsb_exists. split; intros (m & Hm & E); exists m;
    (split; [exact Hm | now apply streq_eq]).
Qed.

(** The event of the load settling changes the variables as
    [loadAvailableModels_settled] does. *)
Lemma step_models_vars (o : Settled (list ModelEntry * option jsstring))
      (s s1 : State) :
  step (ModelsSettled o) s = Some s1 ->
  vars s1 = vars (loadAvailableModels_settled o s).
Proof.
  cbn [step]. unfold resuming.
  destruct (resume ModelsPending (pending (net s))) as [rest|]; [|discriminate].
  intros E. injection E as <-.
  unfold loadChatHistory, loadAvailableModels_settled.
  destruct o as [m|code|m|[models default]]; try reflexivity.
  change (page (set_pending rest s)) with (page s).
  destruct (has_modelSelector (page s) && grouping_completes models
            && existsb (fun m => streq (me_id m)
                                   (or_str default (js "gemini-2.5-flash")))
                       models);
    reflexivity.
Qed.

(** X23: what the load of the catalogue does to [selectedModel], on a page
    with a selector.  A catalogue with a provider named like an inherited
    property of the grouping object (for example "constructor") makes the
    grouping raise before any option is built: the selector is left with
    the fallback option and the state is as it was, also when the
    catalogue lists the default.  Otherwise, when the catalogue lists the
    default model (the one the response names, else "gemini-2.5-flash"),
    [selectedModel] becomes its id, and that model is one of the options
    of the selector; when it does not, the state is as it was. *)
Theorem X23_selected_after_load (s : State) (models : list ModelEntry)
        (default : option jsstring) :
  has_modelSelector (page s) = true ->
  let o := Body (models, default) in
  let defaultModel :=
    match default with
    | Some (c :: r) => c :: r
    | _ => js "gemini-2.5-flash"
    end in
  (Exists (fun m => is_inherited_key (me_provider m) = true) models ->
   selector_after (page s) o = FallbackOption /\
   loadAvailableModels_settled o s = s /\
   (forall s1, step (ModelsSettled o) s = Some s1 ->
               selectedModel (vars s1) = selectedModel (vars s))) /\
  (Forall (fun m => is_inherited_key (me_provider m) = false) models ->
   (forall m,
      In m models -> me_id m = defaultModel ->
      loadAvailableModels_settled o s = set_selectedModel (me_id m) s /\
      (forall s1, step (ModelsSettled o) s = Some s1 ->
                  selectedModel (vars s1) = me_id m) /\
      exists groups,
        selector_after (page s) o = OptionGroups groups /\
        In m (flat_map snd groups)) /\
   ((forall m, In m models -> me_id m <> defaultModel) ->
    loadAvailableModels_settled o s = s)).
Proof.
  intros Hp o defaultModel.
  assert (Ed : or_str default (js "gemini-2.5-flash") = defaultModel)
    by (subst defaultModel; now destruct default as [[|c r]|]).
  split.
  - intros Hex. pose proof (group_models_inherited models Hex) as E.
    assert (Es : loadAvailableModels_settled o s = s).
    { subst o. unfold loadAvailableModels_settled, grouping_completes.
      now rewrite E, andb_false_r. }
    split; [|split; [exact Es|]].
    + subst o. unfold selector_after. rewrite Hp, E.
      destruct models; [inversion Hex | reflexivity].
    + intros s1 H1. rewrite (step_models_vars _ _ _ H1). now rewrite Es.
  - intros Hk.
    destruct (group_models_spec models Hk) as (g & Eg & Hlook & Hnd & Hin).
    split.
    + intros m Hm Em.
      assert (Es : loadAvailableModels_settled o s
                   = set_selectedModel (me_id m) s).
      { subst o. unfold loadAvailableModels_settled, grouping_completes.
        rewrite Hp, Eg, Ed. cbn [andb].
        assert (L : existsb (fun x => streq (me_id x) defaultModel) models = true)
          by (apply listed_iff; now exists m).
        now rewrite L, Em. }
      split; [exact Es|]. split.
      * intros s1 H1. rewrite (step_models_vars _ _ _ H1). now rewrite Es.
      * exists (List.map (fun k => (k, lookup_group k g))
                  (sort_keys (List.map fst g))).
        split.
        -- subst o. unfold selector_after. rewrite Hp, Eg.
           destruct models; [contradiction | reflexivity].
        -- apply (Permutation_in m
                    (Permutation_sym (grouped_options_perm models g Hlook Hnd Hin))).
           exact Hm.
    + intros Hno. subst o. unfold loadAvailableModels_settled. rewrite Ed.
      assert (L : existsb (fun x => streq (me_id x) defaultModel) models = false).
      { destruct (existsb (fun x => streq (me_id x) defaultModel) models) eqn:E;
          [|reflexivity].
        apply listed_iff in E as (m & Hm & Em). now destruct (Hno m Hm). }
      now rewrite L, andb_false_r.
Qed.

Lemma X23_selected_after_load_witness :
  let s := fetch ModelsRequest ModelsPending blank_document in
  (exists s1,
     step (ModelsSettled
             (Body ([ {| me_id := js "m1"; me_provider := js "constructor";
                         me_display_name := js "M1" |} ], Some (js "m1")))) s
     = Some s1 /\
     selectedModel (vars s1) = js "gemini-2.5-flash") /\
  (exists s1,
     step (ModelsSettled (Body (example_catalogue, Some (js "gpt-4o-mini")))) s
     = Some s1 /\
     selectedModel (vars s1) = js "gpt-4o-mini").
Proof.
  intros s. split.
  - eexists. split; [reflexivity|].
    apply (proj2 (proj2 (proj1 (X23_selected_after_load s
                    [ {| me_id := js "m1"; me_provider := js "constructor";
                         me_display_name := js "M1" |} ]
                    (Some (js "m1")) eq_refl)
                    ltac:(constructor; reflexivity)))).
    reflexivity.
  - eexists. split; [reflexivity|].
    destruct (proj2 (X23_selected_after_load s example_catalogue
                       (Some (js "gpt-4o-mini")) eq_refl)
                ltac:(repeat constructor)) as [H _].
    apply (proj1 (proj2 (H {| me_id := js "gpt-4o-mini";
                              me_provider := js "openai";
                              me_display_name := js "GPT-4o mini" |}
                           ltac:(right; right; left; reflexivity) eq_refl))).
    reflexivity.
Defined.
